(** * gphotos-sync: the process lifecycle of [gphotos/Main.py]

    A shallow embedding of [GooglePhotosSyncMain] (methods [logging],
    [sigterm_handler], [setup], [start] and [main]) as computations in a
    state-and-exception monad over an explicit [World]: the file system,
    the advisory lock, the logger, the exception being handled and the log
    of observable events.  The collaborators ([LocalData], [Authorize],
    [RestClient], the two sync engines, [pkg_resources]) are not part of
    the file; their calls are events whose outcome is read from an [Env]. *)

From Stdlib Require Import String Ascii List ZArith Bool Lia.
Import ListNotations.

Local Open Scope list_scope.
Local Open Scope Z_scope.
Local Open Scope string_scope.

(** ** Python exceptions *)

(** The classes that [Main.py] raises, catches or lets through.  A
    collaborator's own exception class is [UserError name], derived from
    [Exception]. *)
Inductive ExcType :=
| BaseException
| Exception
| SystemExit
| KeyboardInterrupt
| OSError
| FileNotFoundError
| FileExistsError
| IsADirectoryError
| NotADirectoryError
| BlockingIOError
| ValueError
| UserError (name : string).

(** Method resolution order: the class followed by its bases. *)
Definition mro (t : ExcType) : list ExcType :=
  match t with
  | BaseException => [BaseException]
  | Exception => [Exception; BaseException]
  | SystemExit => [SystemExit; BaseException]
  | KeyboardInterrupt => [KeyboardInterrupt; BaseException]
  | OSError => [OSError; Exception; BaseException]
  | FileNotFoundError => [FileNotFoundError; OSError; Exception; BaseException]
  | FileExistsError => [FileExistsError; OSError; Exception; BaseException]
  | IsADirectoryError => [IsADirectoryError; OSError; Exception; BaseException]
  | NotADirectoryError => [NotADirectoryError; OSError; Exception; BaseException]
  | BlockingIOError => [BlockingIOError; OSError; Exception; BaseException]
  | ValueError => [ValueError; Exception; BaseException]
  | UserError n => [UserError n; Exception; BaseException]
  end.

Definition ExcType_eqb (a b : ExcType) : bool :=
  match a, b with
  | BaseException, BaseException => true
  | Exception, Exception => true
  | SystemExit, SystemExit => true
  | KeyboardInterrupt, KeyboardInterrupt => true
  | OSError, OSError => true
  | FileNotFoundError, FileNotFoundError => true
  | FileExistsError, FileExistsError => true
  | IsADirectoryError, IsADirectoryError => true
  | NotADirectoryError, NotADirectoryError => true
  | BlockingIOError, BlockingIOError => true
  | ValueError, ValueError => true
  | UserError n, UserError m => String.eqb n m
  | _, _ => false
  end.

Definition issubclass (t u : ExcType) : bool := existsb (ExcType_eqb u) (mro t).

(** [type(e).__name__] *)
Definition type_name (t : ExcType) : string :=
  match t with
  | BaseException => "BaseException"
  | Exception => "Exception"
  | SystemExit => "SystemExit"
  | KeyboardInterrupt => "KeyboardInterrupt"
  | OSError => "OSError"
  | FileNotFoundError => "FileNotFoundError"
  | FileExistsError => "FileExistsError"
  | IsADirectoryError => "IsADirectoryError"
  | NotADirectoryError => "NotADirectoryError"
  | BlockingIOError => "BlockingIOError"
  | ValueError => "ValueError"
  | UserError n => n
  end.

(** A raised exception object: its class, its message, the exit code it
    carries when it is a [SystemExit], and the text of the frames of its
    traceback. *)
Record Raised := mkRaised {
  exc_type : ExcType;
  exc_msg : string;
  exc_code : Z;
  exc_tb : string
}.

Definition isinstance (e : Raised) (t : ExcType) : bool := issubclass (exc_type e) t.

Definition nl : string := String (ascii_of_nat 10) EmptyString.

(** [traceback.format_exc()]: the text of the exception being handled,
    which is [sys.exc_info()]; with no exception being handled Python 3
    gives the line "NoneType: None". *)
Definition format_exc (info : option Raised) : string :=
  match info with
  | None => "NoneType: None" ++ nl
  | Some e =>
      "Traceback (most recent call last):" ++ nl ++ exc_tb e ++
      (if String.eqb (exc_msg e) "" then type_name (exc_type e)
       else type_name (exc_type e) ++ ": " ++ exc_msg e) ++ nl
  end.

(** ** Paths

    A path is the list of its components below the root directory.  The
    strings of the command line are resolved against the working directory
    the way [os.path.abspath] and the kernel do (lexically: symbolic links
    are not modelled). *)
Definition Path := list string.

Fixpoint path_eqb (p q : Path) : bool :=
  match p, q with
  | [], [] => true
  | a :: p', b :: q' => String.eqb a b && path_eqb p' q'
  | _, _ => false
  end.

Fixpoint split_slash (s : string) (cur : string) : list string :=
  match s with
  | EmptyString => [cur]
  | String c s' =>
      if Ascii.eqb c "/" then cur :: split_slash s' ""
      else split_slash s' (cur ++ String c EmptyString)
  end.

Definition walk (p : Path) (c : string) : Path :=
  if String.eqb c "" then p
  else if String.eqb c "." then p
  else if String.eqb c ".." then removelast p
  else (p ++ [c])%list.

Definition isabs (s : string) : bool :=
  match s with
  | String c _ => Ascii.eqb c "/"
  | EmptyString => false
  end.

Definition resolve (cwd : Path) (s : string) : Path :=
  fold_left walk (split_slash s "") (if isabs s then [] else cwd).

Definition path_text (p : Path) : string :=
  match p with
  | [] => "/"
  | _ => String.concat "" (map (fun c => "/" ++ c) p)
  end.

(** All non-empty prefixes of a path, shortest first: the directories
    [os.makedirs] walks through. *)
Fixpoint prefixes (p : Path) : list Path :=
  match p with
  | [] => []
  | c :: p' => [c] :: map (cons c) (prefixes p')
  end.

Definition parent (p : Path) : Path := removelast p.

(** ** Signals, call sites and events *)

Inductive Signal := SIGINT | SIGTERM.

Definition Signal_eqb (a b : Signal) : bool :=
  match a, b with
  | SIGINT, SIGINT => true
  | SIGTERM, SIGTERM => true
  | _, _ => false
  end.

Inductive Phase :=
| IndexPhotos          (* google_photos_sync.index_photos_media() *)
| IndexAlbums          (* google_albums_sync.index_album_media() *)
| PersistIndex         (* data_store.store() *)
| DownloadPhotos       (* google_photos_sync.download_photo_media() *)
| LinkAlbums           (* google_albums_sync.create_album_content_links() *)
| ReconcileDeletions.  (* google_photos_sync.check_for_removed() *)

Definition Phase_eqb (a b : Phase) : bool :=
  match a, b with
  | IndexPhotos, IndexPhotos => true
  | IndexAlbums, IndexAlbums => true
  | PersistIndex, PersistIndex => true
  | DownloadPhotos, DownloadPhotos => true
  | LinkAlbums, LinkAlbums => true
  | ReconcileDeletions, ReconcileDeletions => true
  | _, _ => false
  end.

(** The places of [main], [setup] and [start], after the two
    [signal.signal] calls, where the process calls out of the file: a
    system call or a collaborator.  A signal is delivered at one of
    them.  The calls of the logger (lines 205, 210, 213, 220, 225, 228)
    are not among them: a signal that arrives while a log line is being
    written has no run here, and what is proved of a run with a signal
    is proved of a signal delivered at one of these sites. *)
Inductive Site :=
| S_exists_root            (* line 196 *)
| S_makedirs_root          (* line 197 *)
| S_open_lock              (* line 200 *)
| S_lockf                  (* line 203 *)
| S_get_distribution       (* line 211 *)
| S_LocalData              (* line 101 *)
| S_exists_credentials     (* line 107 *)
| S_remove_credentials     (* line 108 *)
| S_exists_user_data       (* line 110 *)
| S_makedirs_user_data     (* line 111 *)
| S_Authorize              (* line 122 *)
| S_authorize              (* line 123 *)
| S_RestClient             (* line 125 *)
| S_GooglePhotosSync       (* line 126 *)
| S_GoogleAlbumsSync       (* line 127 *)
| S_store_enter            (* line 173, data_store.__enter__ *)
| S_phase (p : Phase)      (* lines 176-184 *)
| S_store_exit             (* line 173, data_store.__exit__ *)
| S_open_trace             (* line 222 *)
| S_write_trace.           (* line 223 *)

Definition Site_eqb (a b : Site) : bool :=
  match a, b with
  | S_exists_root, S_exists_root => true
  | S_makedirs_root, S_makedirs_root => true
  | S_open_lock, S_open_lock => true
  | S_lockf, S_lockf => true
  | S_get_distribution, S_get_distribution => true
  | S_LocalData, S_LocalData => true
  | S_exists_credentials, S_exists_credentials => true
  | S_remove_credentials, S_remove_credentials => true
  | S_exists_user_data, S_exists_user_data => true
  | S_makedirs_user_data, S_makedirs_user_data => true
  | S_Authorize, S_Authorize => true
  | S_authorize, S_authorize => true
  | S_RestClient, S_RestClient => true
  | S_GooglePhotosSync, S_GooglePhotosSync => true
  | S_GoogleAlbumsSync, S_GoogleAlbumsSync => true
  | S_store_enter, S_store_enter => true
  | S_phase p, S_phase q => Phase_eqb p q
  | S_store_exit, S_store_exit => true
  | S_open_trace, S_open_trace => true
  | S_write_trace, S_write_trace => true
  | _, _ => false
  end.

Inductive Level := DEBUG | INFO | WARNING.

Inductive Event :=
| EvLog (lvl : Level) (msg : string)     (* log.info / log.warning called *)
| EvSignalInstall (sig : Signal)         (* signal.signal(sig, sigterm_handler) *)
| EvSignal (sig : Signal) (frame : Site) (* sigterm_handler entered *)
| EvMakedirs (p : Path) (mode : Z)
| EvOpen (p : Path)                      (* open(p, 'w') attempted *)
| EvWrite (p : Path) (text : string)
| EvClose (p : Path)
| EvRemove (p : Path)
| EvLockf (p : Path) (op : Z)            (* fcntl.lockf attempted *)
| EvCall (s : Site)                      (* a collaborator entered *)
| EvConfigure (start_date end_date : option string) (includeVideo : bool).

(** ** The world *)

Record World := mkWorld {
  dirs : list Path;                 (* the directories that exist, besides / *)
  files : list (Path * string);     (* regular files and their content *)
  lock_other : bool;                (* another live process holds the lock *)
  lock_self : option Path;          (* the file this process holds locked *)
  logger_level : Z;
  logger_handlers : nat;
  exc_info : option Raised;         (* sys.exc_info(): the exception being handled *)
  events : list Event               (* oldest first *)
}.

Definition boot (ds : list Path) (fs : list (Path * string)) (locked : bool) : World :=
  mkWorld ds fs locked None 0 0%nat None [].

Definition emit (e : Event) (w : World) : World :=
  mkWorld (dirs w) (files w) (lock_other w) (lock_self w)
          (logger_level w) (logger_handlers w) (exc_info w) (events w ++ [e])%list.

Definition set_exc_info (i : option Raised) (w : World) : World :=
  mkWorld (dirs w) (files w) (lock_other w) (lock_self w)
          (logger_level w) (logger_handlers w) i (events w).

Definition set_dirs (ds : list Path) (w : World) : World :=
  mkWorld ds (files w) (lock_other w) (lock_self w)
          (logger_level w) (logger_handlers w) (exc_info w) (events w).

Definition set_files (fs : list (Path * string)) (w : World) : World :=
  mkWorld (dirs w) fs (lock_other w) (lock_self w)
          (logger_level w) (logger_handlers w) (exc_info w) (events w).

Definition set_lock_self (l : option Path) (w : World) : World :=
  mkWorld (dirs w) (files w) (lock_other w) l
          (logger_level w) (logger_handlers w) (exc_info w) (events w).

Definition set_logger (lvl : Z) (n : nat) (w : World) : World :=
  mkWorld (dirs w) (files w) (lock_other w) (lock_self w)
          lvl n (exc_info w) (events w).

Definition is_dir (w : World) (p : Path) : bool :=
  match p with
  | [] => true
  | _ => existsb (path_eqb p) (dirs w)
  end.

Fixpoint lookup (p : Path) (fs : list (Path * string)) : option string :=
  match fs with
  | [] => None
  | (q, s) :: fs' => if path_eqb p q then Some s else lookup p fs'
  end.

Definition is_file (w : World) (p : Path) : bool :=
  match lookup p (files w) with Some _ => true | None => false end.

Definition unlink (p : Path) (fs : list (Path * string)) : list (Path * string) :=
  filter (fun b => negb (path_eqb p (fst b))) fs.

(** ** The monad: state, exceptions, and a call that never returns *)

Inductive Res (A : Type) :=
| Ret (a : A)
| Raise (e : Raised)
| Blocked.
Arguments Ret {A} a.
Arguments Raise {A} e.
Arguments Blocked {A}.

Definition M (A : Type) := World -> Res A * World.

Definition ret {A} (a : A) : M A := fun w => (Ret a, w).
Definition raise {A} (e : Raised) : M A := fun w => (Raise e, w).

Definition bind {A B} (m : M A) (k : A -> M B) : M B :=
  fun w =>
    match m w with
    | (Ret a, w') => k a w'
    | (Raise e, w') => (Raise e, w')
    | (Blocked, w') => (Blocked, w')
    end.

Notation "x <- m ;; k" := (bind m (fun x => k))
  (at level 61, m at next level, right associativity).
Notation "m ;; k" := (bind m (fun _ => k))
  (at level 61, right associativity).

(** [try: body except T: handler].  The handler runs with the caught
    exception as [sys.exc_info()]. *)
Definition try_except {A} (body : M A) (catches : Raised -> bool)
           (handler : Raised -> M A) : M A :=
  fun w =>
    match body w with
    | (Raise e, w') =>
        if catches e then
          let (r, w'') := handler e (set_exc_info (Some e) w') in
          (r, set_exc_info (exc_info w') w'')
        else (Raise e, w')
    | r => r
    end.

(** [try: body finally: fin] *)
Definition try_finally {A} (body : M A) (fin : M unit) : M A :=
  fun w =>
    match body w with
    | (Blocked, w') => (Blocked, w')
    | (r, w') =>
        match fin w' with
        | (Ret _, w'') => (r, w'')
        | (Raise e, w'') => (Raise e, w'')
        | (Blocked, w'') => (Blocked, w'')
        end
    end.

(** [with cm: body], after [cm.__enter__()] has returned: [__exit__] is
    called on every way out of the body, and swallows the exception when
    it returns a true value. *)
Definition with_cm (exit : option Raised -> M bool) (body : M unit) : M unit :=
  fun w =>
    match body w with
    | (Ret _, w') =>
        match exit None w' with
        | (Ret _, w'') => (Ret tt, w'')
        | (Raise e, w'') => (Raise e, w'')
        | (Blocked, w'') => (Blocked, w'')
        end
    | (Raise e, w') =>
        match exit (Some e) (set_exc_info (Some e) w') with
        | (Ret true, w'') => (Ret tt, set_exc_info (exc_info w') w'')
        | (Ret false, w'') => (Raise e, set_exc_info (exc_info w') w'')
        | (Raise e', w'') => (Raise e', set_exc_info (exc_info w') w'')
        | (Blocked, w'') => (Blocked, w'')
        end
    | (Blocked, w') => (Blocked, w')
    end.

(** [sys.exit(code)] *)
Definition sys_exit {A} (code : Z) : M A :=
  raise (mkRaised SystemExit "" code "").

(** What the shell sees when [main] ends: 0 after a normal return, the
    code of an uncaught [SystemExit], 1 after any other uncaught
    exception; nothing while the process is blocked. *)
Definition exit_status {A} (r : Res A) : option Z :=
  match r with
  | Ret _ => Some 0
  | Raise e => if isinstance e SystemExit then Some (Z.land (exc_code e) 255) else Some 1
  | Blocked => None
  end.

(** ** The command line and the environment *)

(** The namespace [parser.parse_args()] returns. *)
Record Args := mkArgs {
  skip_video : bool;
  root_folder : string;
  start_date : option string;
  log_level : string;
  db_path : option string;
  end_date : option string;
  new_token : bool;
  index_only : bool;
  do_delete : bool;
  skip_index : bool;
  skip_files : bool;
  flush_index : bool;
  no_browser : bool;
  brief : bool;
  album : option string
}.

(** What the run does not decide itself: the working directory, the
    directories [AppDirs] answers, how each collaborator call ends
    ([None]: it returns), the truth value [data_store.__exit__] returns,
    the installed version, the signal delivered to the process and the
    site it arrives at, and the wall-clock time the run took. *)
Record Env := mkEnv {
  cwd : Path;
  user_data_dir : Path;
  user_config_dir : Path;
  behaviour : Site -> option Raised;
  store_exit_value : bool;
  distribution_version : string;
  signal_at : option (Site * Signal);
  elapsed_time : string
}.

Definition APP_NAME : string := "gphotos-sync".
Definition TRACE_FILE : string := ".gphotos-terminated".

(** ** System calls and library calls *)

Definition log (lvl : Level) (msg : string) : M unit :=
  fun w => (Ret tt, emit (EvLog lvl msg) w).

Definition os_error (t : ExcType) (p : Path) : Raised :=
  mkRaised t (path_text p) 0 "".

(** [os.path.exists(p)] *)
Definition path_exists (p : Path) : M bool :=
  fun w => (Ret (is_dir w p || is_file w p), w).

(** [os.makedirs(p, mode)]: creates [p] and its missing ancestors. *)
Definition makedirs (p : Path) (mode : Z) : M unit :=
  fun w =>
    let w1 := emit (EvMakedirs p mode) w in
    if is_dir w1 p || is_file w1 p then (Raise (os_error FileExistsError p), w1)
    else if existsb (is_file w1) (prefixes p) then (Raise (os_error NotADirectoryError p), w1)
    else (Ret tt, set_dirs (dirs w1 ++ filter (fun q => negb (is_dir w1 q)) (prefixes p))%list w1).

(** [os.remove(p)] *)
Definition os_remove (p : Path) : M unit :=
  fun w =>
    let w1 := emit (EvRemove p) w in
    if is_file w1 p then (Ret tt, set_files (unlink p (files w1)) w1)
    else if is_dir w1 p then (Raise (os_error IsADirectoryError p), w1)
    else (Raise (os_error FileNotFoundError p), w1).

(** [open(p, 'w')]: creates or truncates [p]; its directory must exist. *)
Definition open_w (p : Path) : M Path :=
  fun w =>
    let w1 := emit (EvOpen p) w in
    if is_dir w1 p then (Raise (os_error IsADirectoryError p), w1)
    else if is_dir w1 (parent p) then
      (Ret p, set_files ((p, "") :: unlink p (files w1)) w1)
    else if is_file w1 (parent p) then (Raise (os_error NotADirectoryError p), w1)
    else (Raise (os_error FileNotFoundError p), w1).

(** [f.write(text)] *)
Definition write (p : Path) (text : string) : M unit :=
  fun w =>
    let old := match lookup p (files w) with Some t => t | None => "" end in
    (Ret tt, emit (EvWrite p text) (set_files ((p, old ++ text) :: unlink p (files w)) w)).

(** [f.close()]: closing the descriptor gives up the lock held through it. *)
Definition close (p : Path) : M unit :=
  fun w =>
    let held := match lock_self w with
                | Some q => if path_eqb p q then None else Some q
                | None => None
                end in
    (Ret tt, emit (EvClose p) (set_lock_self held w)).

(** [with f: body] for an open file: [__exit__] closes it and returns
    [None]. *)
Definition with_file (f : Path) (body : M unit) : M unit :=
  with_cm (fun _ => close f ;; ret false) body.

Definition LOCK_EX : Z := 2.
Definition LOCK_NB : Z := 4.

(** [fcntl.lockf(fp, op)] for an exclusive lock: when another process
    holds it, the call raises if [LOCK_NB] is set and waits otherwise. *)
Definition lockf (p : Path) (op : Z) : M unit :=
  fun w =>
    let w1 := emit (EvLockf p op) w in
    if lock_other w1 then
      if Z.eqb (Z.land op LOCK_NB) 0 then (Blocked, w1)
      else (Raise (mkRaised BlockingIOError "Resource temporarily unavailable" 0 ""), w1)
    else (Ret tt, set_lock_self (Some p) w1).

Definition format_exc_now : M string :=
  fun w => (Ret (format_exc (exc_info w)), w).

(** The names [getattr(logging, name, None)] answers with an [int]. *)
Definition logging_getattr (name : string) : option Z :=
  if String.eqb name "CRITICAL" then Some 50
  else if String.eqb name "FATAL" then Some 50
  else if String.eqb name "ERROR" then Some 40
  else if String.eqb name "WARNING" then Some 30
  else if String.eqb name "WARN" then Some 30
  else if String.eqb name "INFO" then Some 20
  else if String.eqb name "DEBUG" then Some 10
  else if String.eqb name "NOTSET" then Some 0
  else None.

Definition upper_ascii (c : ascii) : ascii :=
  let n := nat_of_ascii c in
  if (Nat.leb 97 n && Nat.leb n 122)%bool then ascii_of_nat (n - 32) else c.

(** A string given by the codes of its bytes. *)
Definition bytes (l : list nat) : string :=
  fold_right (fun n s => String (ascii_of_nat n) s) EmptyString l.

(** The characters outside ASCII whose upper case holds an ASCII
    character, by their UTF-8 bytes, with the UTF-8 text of their upper
    case (Unicode's full case mapping, which [str.upper()] applies). *)
Definition upper_two (c d : ascii) : option string :=
  let c := nat_of_ascii c in
  let d := nat_of_ascii d in
  if (Nat.eqb c 195 && Nat.eqb d 159)%bool then Some "SS"                       (* U+00DF *)
  else if (Nat.eqb c 196 && Nat.eqb d 177)%bool then Some "I"                   (* U+0131 *)
  else if (Nat.eqb c 197 && Nat.eqb d 137)%bool then Some (bytes [202; 188; 78]%nat) (* U+0149 *)
  else if (Nat.eqb c 197 && Nat.eqb d 191)%bool then Some "S"                   (* U+017F *)
  else if (Nat.eqb c 199 && Nat.eqb d 176)%bool then Some (bytes [74; 204; 140]%nat) (* U+01F0 *)
  else None.

Definition upper_three (c d e : ascii) : option string :=
  let c := nat_of_ascii c in
  let d := nat_of_ascii d in
  let e := nat_of_ascii e in
  if (Nat.eqb c 225 && Nat.eqb d 186)%bool then
    if Nat.eqb e 150 then Some (bytes [72; 204; 177]%nat)                            (* U+1E96 *)
    else if Nat.eqb e 151 then Some (bytes [84; 204; 136]%nat)                       (* U+1E97 *)
    else if Nat.eqb e 152 then Some (bytes [87; 204; 138]%nat)                       (* U+1E98 *)
    else if Nat.eqb e 153 then Some (bytes [89; 204; 138]%nat)                       (* U+1E99 *)
    else if Nat.eqb e 154 then Some (bytes [65; 202; 190]%nat)                       (* U+1E9A *)
    else None
  else if (Nat.eqb c 239 && Nat.eqb d 172)%bool then
    if Nat.eqb e 128 then Some "FF"                                              (* U+FB00 *)
    else if Nat.eqb e 129 then Some "FI"                                         (* U+FB01 *)
    else if Nat.eqb e 130 then Some "FL"                                         (* U+FB02 *)
    else if Nat.eqb e 131 then Some "FFI"                                        (* U+FB03 *)
    else if Nat.eqb e 132 then Some "FFL"                                        (* U+FB04 *)
    else if Nat.eqb e 133 then Some "ST"                                         (* U+FB05 *)
    else if Nat.eqb e 134 then Some "ST"                                         (* U+FB06 *)
    else None
  else None.

(** [str.upper()] on the UTF-8 text of a command-line argument.  It is
    exact on ASCII and on every character whose upper case holds an ASCII
    character (among them the dotless i, the long s and the ligatures,
    which [str.upper()] turns into ASCII letters).  Any other character
    outside ASCII is left as it is: its upper case has no ASCII character
    either, so the text is no name of the [logging] module before or
    after. *)
Fixpoint upper (s : string) : string :=
  match s with
  | EmptyString => EmptyString
  | String c s1 =>
      match s1 with
      | EmptyString => String (upper_ascii c) EmptyString
      | String d s2 =>
          match upper_two c d with
          | Some u => u ++ upper s2
          | None =>
              match s2 with
              | EmptyString => String (upper_ascii c) (upper s1)
              | String e s3 =>
                  match upper_three c d e with
                  | Some u => u ++ upper s3
                  | None => String (upper_ascii c) (upper s1)
                  end
              end
          end
      end
  end.

(** ** [GooglePhotosSyncMain] *)

(** [sigterm_handler] (lines 133-142).  The second argument is the frame
    the signal interrupted. *)
Definition sigterm_handler (env : Env) (_sig_no : Signal) (_stack_frame : Site) : M unit :=
  (if Signal_eqb _sig_no SIGINT
   then log WARNING (nl ++ "User cancelled download")
   else ret tt) ;;
  log WARNING (nl ++ "Process killed (stacktrace in " ++ TRACE_FILE ++ ").") ;;
  text_file <- open_w (resolve (cwd env) TRACE_FILE) ;;
  with_file text_file (text <- format_exc_now ;; write text_file text) ;;
  sys_exit 0.

(** Reaching site [s]: the signal of the environment, when it is due
    here, runs the handler on top of the interrupted frame. *)
Definition at_site {A} (env : Env) (s : Site) (op : M A) : M A :=
  fun w =>
    match signal_at env with
    | Some (s', sig) =>
        if Site_eqb s' s
        then (sigterm_handler env sig s ;; op) (emit (EvSignal sig s) w)
        else op w
    | None => op w
    end.

(** A collaborator call: entered, possibly interrupted by the signal,
    ended as the environment says. *)
Definition call (env : Env) (s : Site) : M unit :=
  fun w =>
    at_site env s
      (fun w' => match behaviour env s with
                 | None => (Ret tt, w')
                 | Some e => (Raise e, w')
                 end)
      (emit (EvCall s) w).

(** [logging] (lines 144-170) *)
Definition logging (args : Args) : M unit :=
  match logging_getattr (upper (log_level args)) with
  | None => raise (mkRaised ValueError ("Invalid log level: " ++ log_level args) 0 "")
  | Some numeric_level =>
      fun w =>
        (Ret tt, set_logger numeric_level
                   (if Nat.eqb (logger_handlers w) 0 then 1%nat else logger_handlers w) w)
  end.

(** [setup] (lines 98-131) *)
Definition setup (env : Env) (args : Args) (db : Path) : M unit :=
  call env S_LocalData ;;
  let credentials_file := (user_data_dir env ++ ["credentials.json"])%list in
  stale <- (if new_token args
            then at_site env S_exists_credentials (path_exists credentials_file)
            else ret false) ;;
  (if stale then at_site env S_remove_credentials (os_remove credentials_file)
   else ret tt) ;;
  present <- at_site env S_exists_user_data (path_exists (user_data_dir env)) ;;
  (if negb present
   then at_site env S_makedirs_user_data (makedirs (user_data_dir env) 511)
   else ret tt) ;;
  call env S_Authorize ;;
  call env S_authorize ;;
  call env S_RestClient ;;
  call env S_GooglePhotosSync ;;
  call env S_GoogleAlbumsSync ;;
  fun w => (Ret tt, emit (EvConfigure (start_date args) (end_date args)
                                      (negb (skip_video args))) w).

Definition phase (env : Env) (p : Phase) : M unit := call env (S_phase p).

(** The statements under [with self.data_store:] (lines 174-184). *)
Definition pipeline (env : Env) (args : Args) : M unit :=
  (if negb (skip_index args) then
     (if negb (skip_files args) then phase env IndexPhotos else ret tt) ;;
     phase env IndexAlbums ;;
     phase env PersistIndex
   else ret tt) ;;
  (if negb (index_only args) then
     (if negb (skip_files args) then phase env DownloadPhotos else ret tt) ;;
     phase env LinkAlbums ;;
     (if do_delete args then phase env ReconcileDeletions else ret tt)
   else ret tt).

(** [start] (lines 172-184) *)
Definition start (env : Env) (args : Args) : M unit :=
  call env S_store_enter ;;
  with_cm (fun _ => call env S_store_exit ;; ret (store_exit_value env))
    (pipeline env args).

(** The truth value of an optional string argument, and its text. *)
Definition truthy (o : option string) : bool :=
  match o with
  | Some s => negb (String.eqb s "")
  | None => false
  end.

Definition string_of (o : option string) : string :=
  match o with
  | Some s => s
  | None => ""
  end.

(** The [except Exception as e] branch of [main] (lines 219-223). *)
Definition capture (env : Env) (trace_file : Path) (e : Raised) : M unit :=
  log WARNING (nl ++ "Process failed with " ++ type_name (exc_type e) ++
               " (stacktrace in " ++ path_text trace_file ++ ").") ;;
  text_file <- at_site env S_open_trace (open_w (resolve (cwd env) TRACE_FILE)) ;;
  with_file text_file
    (text <- format_exc_now ;;
     at_site env S_write_trace (write text_file text)).

(** "configure and launch": the [try] statement of [main] (lines 216-225). *)
Definition launch (env : Env) (args : Args) (db trace_file : Path) : M unit :=
  try_finally
    (try_except
       (setup env args db ;; start env args)
       (fun e => isinstance e Exception)
       (capture env trace_file))
    (log INFO "Done.").

(** The body of [with fp:] in [main] (lines 202-225). *)
Definition locked (env : Env) (args : Args) (db trace_file fp : Path) : M unit :=
  try_except
    (at_site env S_lockf (lockf fp (Z.lor LOCK_EX LOCK_NB)))
    (fun e => isinstance e OSError)
    (fun _ => log WARNING "EXITING: database is locked" ;; sys_exit 0) ;;
  try_except
    (call env S_get_distribution ;;
     log INFO ("version: " ++ distribution_version env))
    (fun e => isinstance e Exception)
    (fun _ => log INFO "version not available") ;;
  launch env args db trace_file.

(** [main] (lines 186-228), from the parsed arguments on. *)
Definition main (env : Env) (args : Args) : M unit :=
  logging args ;;
  let root := resolve (cwd env) (root_folder args) in
  let trace_file := (root ++ [TRACE_FILE])%list in
  (fun w => (Ret tt, emit (EvSignalInstall SIGTERM) w)) ;;
  (fun w => (Ret tt, emit (EvSignalInstall SIGINT) w)) ;;
  let db := if truthy (db_path args)
            then resolve (cwd env) (string_of (db_path args))
            else root in
  present <- at_site env S_exists_root (path_exists root) ;;
  (if negb present then at_site env S_makedirs_root (makedirs root 448) else ret tt) ;;
  let lock_file := (db ++ ["gphotos.lock"])%list in
  fp <- at_site env S_open_lock (open_w lock_file) ;;
  with_file fp (locked env args db trace_file fp) ;;
  log INFO ("Elapsed time = " ++ elapsed_time env).

(** ** Observations on a run *)

Fixpoint phases_of (evs : list Event) : list Phase :=
  match evs with
  | [] => []
  | EvCall (S_phase p) :: evs' => p :: phases_of evs'
  | _ :: evs' => phases_of evs'
  end.

(** The phase sequence of section 4.3 of the specification, written from
    its gating table. *)
Definition spec_phase_sequence (skipIndex indexOnly skipFiles doDelete : bool) : list Phase :=
  ((if skipIndex then []
    else (if skipFiles then [] else [IndexPhotos]) ++ [IndexAlbums] ++ [PersistIndex]) ++
   (if indexOnly then []
    else (if skipFiles then [] else [DownloadPhotos]) ++ [LinkAlbums] ++
         (if doDelete then [ReconcileDeletions] else [])))%list.

Definition quiet (beh : Site -> option Raised) : Prop := forall s, beh s = None.

Definition demo_args : Args :=
  mkArgs false "/data/photos" None "info" None None false false false false false
         false false false None.

Definition demo_env : Env :=
  mkEnv ["home"; "user"] ["home"; "user"; ".local"; "share"; "gphotos-sync"]
        ["home"; "user"; ".config"; "gphotos-sync"]
        (fun _ => None) false "1.0" None "0:00:01".

(** ** Basic facts *)

Lemma phases_of_app (a b : list Event) :
  phases_of (a ++ b) = (phases_of a ++ phases_of b)%list.
Proof.
  induction a as [|e a IH]; [reflexivity|].
  destruct e; simpl; try exact IH.
  destruct s; simpl; try exact IH. now rewrite IH.
Qed.

Lemma call_quiet env s w :
  signal_at env = None -> behaviour env s = None ->
  call env s w = (Ret tt, emit (EvCall s) w).
Proof. intros Hs Hb. unfold call, at_site. now rewrite Hs, Hb. Qed.

(** ** The phase sequence of [start] *)

(** The phases [start] invokes when it is run in world [w]. *)
Definition invoked (env : Env) (args : Args) (w : World) : list Phase :=
  skipn (length (phases_of (events w))) (phases_of (events (snd (start env args w)))).

Definition index_stage (p : Phase) : bool :=
  match p with
  | IndexPhotos | IndexAlbums | PersistIndex => true
  | _ => false
  end.

Lemma start_phases_quiet (env : Env) (args : Args) (w : World) :
  quiet (behaviour env) -> signal_at env = None ->
  phases_of (events (snd (start env args w))) =
  (phases_of (events w) ++
   spec_phase_sequence (skip_index args) (index_only args)
                       (skip_files args) (do_delete args))%list.
Proof.
  intros Hq Hs. unfold start, pipeline, phase, with_cm, bind.
  destruct (skip_index args), (index_only args), (skip_files args), (do_delete args);
    cbn [negb]; unfold ret;
    repeat (rewrite call_quiet by (auto; apply Hq)); cbn [snd events emit];
    repeat rewrite phases_of_app; cbn; repeat rewrite app_nil_r;
    repeat rewrite <- app_assoc; reflexivity.
Qed.

(** C1. When no collaborator fails and no signal arrives, [start] invokes
    exactly the phases of the gating table of section 4.3, in that order,
    whatever the four flags are.  In particular with [skip_index] none of
    the three index-stage phases is invoked, and with the four flags off
    the sequence is IndexPhotos, IndexAlbums, PersistIndex, DownloadPhotos,
    LinkAlbums; with [skip_index] and [do_delete] on it is DownloadPhotos,
    LinkAlbums, ReconcileDeletions. *)
Theorem start_phase_sequence (env : Env) (args : Args) (w : World) :
  quiet (behaviour env) -> signal_at env = None ->
  invoked env args w =
    spec_phase_sequence (skip_index args) (index_only args)
                        (skip_files args) (do_delete args) /\
  (skip_index args = true -> existsb index_stage (invoked env args w) = false) /\
  (skip_index args = false -> index_only args = false ->
   skip_files args = false -> do_delete args = false ->
   invoked env args w =
     [IndexPhotos; IndexAlbums; PersistIndex; DownloadPhotos; LinkAlbums]) /\
  (skip_index args = true -> index_only args = false ->
   skip_files args = false -> do_delete args = true ->
   invoked env args w = [DownloadPhotos; LinkAlbums; ReconcileDeletions]).
Proof.
  intros Hq Hs.
  assert (E : invoked env args w =
              spec_phase_sequence (skip_index args) (index_only args)
                                  (skip_files args) (do_delete args)).
  { unfold invoked. rewrite (start_phases_quiet env args w Hq Hs).
    rewrite skipn_app, skipn_all, Nat.sub_diag. reflexivity. }
  rewrite E. split; [reflexivity|]. split.
  - intros ->. now destruct (index_only args), (skip_files args), (do_delete args).
  - split; now intros -> -> -> ->.
Qed.

Lemma start_phase_sequence_witness :
  invoked demo_env demo_args (boot [] [] false) =
    [IndexPhotos; IndexAlbums; PersistIndex; DownloadPhotos; LinkAlbums].
Proof.
  apply (start_phase_sequence demo_env demo_args (boot [] [] false));
    [intros s; reflexivity | reflexivity..].
Defined.

(** The paths a run works with. *)
Definition root_of (env : Env) (args : Args) : Path :=
  resolve (cwd env) (root_folder args).

Definition db_of (env : Env) (args : Args) : Path :=
  if truthy (db_path args)
  then resolve (cwd env) (string_of (db_path args))
  else root_of env args.

Definition lock_file_of (env : Env) (args : Args) : Path :=
  (db_of env args ++ ["gphotos.lock"])%list.

(** [self.trace_file], the path the log message names. *)
Definition trace_file_of (env : Env) (args : Args) : Path :=
  (root_of env args ++ [TRACE_FILE])%list.

(** What [open(TRACE_FILE, "w")] opens. *)
Definition trace_path (env : Env) : Path := resolve (cwd env) TRACE_FILE.

Definition SystemExit0 : Raised := mkRaised SystemExit "" 0 "".

Definition killed_msg : string :=
  nl ++ "Process killed (stacktrace in " ++ TRACE_FILE ++ ").".

Definition cancelled_msg : string := nl ++ "User cancelled download".

Definition failed_msg (trace_file : Path) (e : Raised) : string :=
  nl ++ "Process failed with " ++ type_name (exc_type e) ++
  " (stacktrace in " ++ path_text trace_file ++ ").".

(** The events of one run of [sigterm_handler]; [ok] tells whether the
    trace file could be opened, [info] is the exception being handled. *)
Definition handler_events (env : Env) (sig : Signal) (info : option Raised) (ok : bool)
  : list Event :=
  ((if Signal_eqb sig SIGINT then [EvLog WARNING cancelled_msg] else []) ++
   [EvLog WARNING killed_msg; EvOpen (trace_path env)] ++
   (if ok then [EvWrite (trace_path env) (format_exc info); EvClose (trace_path env)]
    else []))%list.

(** The world after some more events and a change of the file system. *)
Definition patch (w : World) (ds : list Path) (fs : list (Path * string))
           (l : list Event) : World :=
  mkWorld ds fs (lock_other w) (lock_self w) (logger_level w) (logger_handlers w)
          (exc_info w) (events w ++ l)%list.

(** The trace file can be written: the working directory exists and the
    name is not taken by a directory. *)
Definition writable (env : Env) (w : World) : bool :=
  is_dir w (cwd env) && negb (is_dir w (trace_path env)).

(** The lock this process holds, if any, is not on the trace file. *)
Definition held_elsewhere (env : Env) (w : World) : bool :=
  match lock_self w with
  | Some q => negb (path_eqb (trace_path env) q)
  | None => true
  end.

(** Classifiers of events. *)
Definition is_lockf (e : Event) : bool :=
  match e with EvLockf _ _ => true | _ => false end.

Definition is_call (e : Event) : bool :=
  match e with EvCall _ => true | _ => false end.

Definition is_signal (e : Event) : bool :=
  match e with EvSignal _ _ => true | _ => false end.

Definition is_install (e : Event) : bool :=
  match e with EvSignalInstall _ => true | _ => false end.

Definition is_failed_log (e : Event) : bool :=
  match e with
  | EvLog WARNING m => String.prefix (nl ++ "Process failed") m
  | _ => false
  end.

Definition is_elapsed_log (e : Event) : bool :=
  match e with
  | EvLog INFO m => String.prefix "Elapsed time = " m
  | _ => false
  end.

Definition touches (p : Path) (e : Event) : bool :=
  match e with
  | EvOpen q | EvWrite q _ | EvRemove q => path_eqb p q
  | _ => false
  end.

Definition opens (p : Path) (e : Event) : bool :=
  match e with
  | EvOpen q => path_eqb p q
  | _ => false
  end.

Definition count (f : Event -> bool) (l : list Event) : nat := length (filter f l).

(** ** Paths and the file system: basic facts *)

Local Open Scope list_scope.

Lemma path_eqb_refl (p : Path) : path_eqb p p = true.
Proof. induction p as [|c p IH]; [reflexivity|]. simpl. now rewrite String.eqb_refl. Qed.

Lemma path_eqb_eq (p q : Path) : path_eqb p q = true -> p = q.
Proof.
  revert q. induction p as [|c p IH]; intros [|d q] H; try discriminate; [reflexivity|].
  simpl in H. apply andb_true_iff in H. destruct H as [H1 H2].
  apply String.eqb_eq in H1. apply IH in H2. now subst.
Qed.

Lemma path_eqb_snoc (p q : Path) (c d : string) :
  String.eqb c d = false -> path_eqb (p ++ [c]) (q ++ [d]) = false.
Proof.
  intros Hcd. destruct (path_eqb (p ++ [c]) (q ++ [d])) eqn:E; [|reflexivity].
  apply path_eqb_eq in E. apply app_inj_tail in E. destruct E as [_ E]. subst.
  now rewrite String.eqb_refl in Hcd.
Qed.

Lemma trace_path_eq (env : Env) : trace_path env = (cwd env ++ [TRACE_FILE])%list.
Proof. reflexivity. Qed.

Lemma trace_is_not_lock (env : Env) (db : Path) :
  path_eqb (trace_path env) (db ++ ["gphotos.lock"]) = false.
Proof. rewrite trace_path_eq. now apply path_eqb_snoc. Qed.

Lemma lock_is_not_trace (env : Env) (db : Path) :
  path_eqb (db ++ ["gphotos.lock"]) (trace_path env) = false.
Proof. rewrite trace_path_eq. now apply path_eqb_snoc. Qed.

Lemma parent_snoc (p : Path) (c : string) : parent (p ++ [c]) = p.
Proof. apply removelast_last. Qed.

Lemma parent_trace_path (env : Env) : parent (trace_path env) = cwd env.
Proof. rewrite trace_path_eq. apply parent_snoc. Qed.

Lemma lookup_unlink_other (p q : Path) (fs : list (Path * string)) :
  path_eqb p q = false -> lookup p (unlink q fs) = lookup p fs.
Proof.
  intros Hpq. induction fs as [|[r s] fs IH]; [reflexivity|].
  simpl. destruct (path_eqb q r) eqn:Eqr; simpl.
  - apply path_eqb_eq in Eqr. subst r. now rewrite Hpq.
  - now rewrite IH.
Qed.

Lemma is_dir_emit (e : Event) (w : World) (p : Path) : is_dir (emit e w) p = is_dir w p.
Proof. reflexivity. Qed.

Lemma is_file_emit (e : Event) (w : World) (p : Path) : is_file (emit e w) p = is_file w p.
Proof. reflexivity. Qed.

Lemma Phase_eqb_eq (p q : Phase) : Phase_eqb p q = true -> p = q.
Proof. destruct p, q; simpl; intros H; try discriminate H; reflexivity. Qed.

Lemma Site_eqb_eq (s t : Site) : Site_eqb s t = true -> s = t.
Proof.
  destruct s, t; simpl; intros H; try discriminate H; try reflexivity.
  apply Phase_eqb_eq in H. now subst.
Qed.

Lemma Site_eqb_refl (s : Site) : Site_eqb s s = true.
Proof. destruct s as [| | | | | | | | | | | | | | | |p| | |]; try reflexivity. now destruct p. Qed.

(** ** The signal handler *)

Lemma patch_emit (w : World) (ds : list Path) (fs : list (Path * string))
      (l : list Event) (e : Event) :
  emit e (patch w ds fs l) = patch w ds fs (l ++ [e]).
Proof. unfold emit, patch; simpl. now rewrite <- app_assoc. Qed.

Lemma patch_patch (w : World) ds fs l ds' fs' l' :
  patch (patch w ds fs l) ds' fs' l' = patch w ds' fs' (l ++ l').
Proof. unfold patch; simpl. now rewrite <- app_assoc. Qed.

Lemma patch_id (w : World) : patch w (dirs w) (files w) [] = w.
Proof. destruct w; unfold patch; simpl. now rewrite app_nil_r. Qed.

(** The handler never returns: it leaves through [sys.exit(0)] once the
    trace is written, or through the [OSError] of a failed [open]. *)
Lemma sigterm_handler_spec (env : Env) (sig : Signal) (s : Site) (w : World) :
  held_elsewhere env w = true ->
  exists e fs' ok,
    sigterm_handler env sig s w =
      (Raise e, patch w (dirs w) fs' (handler_events env sig (exc_info w) ok)) /\
    (ok = true -> e = SystemExit0 /\
                  lookup (trace_path env) fs' = Some (format_exc (exc_info w))) /\
    (ok = false -> isinstance e Exception = true /\ fs' = files w) /\
    (ok = false -> isinstance e OSError = true) /\
    (writable env w = true -> ok = true).
Proof.
  intros Hheld.
  assert (Hlock : match lock_self w with
                  | Some q => if path_eqb (trace_path env) q then None else Some q
                  | None => None
                  end = lock_self w).
  { unfold held_elsewhere in Hheld. destruct (lock_self w) as [q|]; [|reflexivity].
    destruct (path_eqb (trace_path env) q); [discriminate Hheld | reflexivity]. }
  unfold sigterm_handler, writable, handler_events.
  fold (trace_path env). fold killed_msg. fold cancelled_msg.
  rewrite <- (parent_trace_path env).
  generalize (trace_path env) Hlock. intros tp Htp.
  unfold bind, log, ret, open_w, with_file, with_cm, format_exc_now, write, close, sys_exit, raise.
  destruct (Signal_eqb sig SIGINT); cbn [fst snd]; rewrite ?is_dir_emit, ?is_file_emit;
    (destruct (is_dir w tp) eqn:Etp;
     [ exists (os_error IsADirectoryError tp), (files w), false
     | destruct (is_dir w (parent tp)) eqn:Ecwd;
       [ eexists SystemExit0, _, true
       | destruct (is_file w (parent tp)) eqn:Efile;
         [ exists (os_error NotADirectoryError tp), (files w), false
         | exists (os_error FileNotFoundError tp), (files w), false ] ] ]);
    (split; [|split; [|split; [|split]]]); try (intros; discriminate);
    try (intros; split; reflexivity); try reflexivity.
  all: try (unfold patch, emit, set_files, set_lock_self; cbn; rewrite ?Htp, ?path_eqb_refl;
            cbn; rewrite <- ?app_assoc; cbn; reflexivity).
  all: try (intros _; split; [reflexivity|]; cbn; rewrite path_eqb_refl; reflexivity).
  all: rewrite andb_comm; intros H; discriminate H.
Qed.

Lemma at_site_cases {A} (env : Env) (s : Site) (op : M A) (w : World) :
  held_elsewhere env w = true ->
  at_site env s op w = op w \/
  exists sig e fs' ok,
    signal_at env = Some (s, sig) /\
    at_site env s op w =
      (Raise e, patch w (dirs w) fs'
                  (EvSignal sig s :: handler_events env sig (exc_info w) ok)) /\
    (ok = true -> e = SystemExit0 /\
                  lookup (trace_path env) fs' = Some (format_exc (exc_info w))) /\
    (ok = false -> isinstance e Exception = true /\ fs' = files w) /\
    (ok = false -> isinstance e OSError = true) /\
    (writable env w = true -> ok = true).
Proof.
  intros Hheld. unfold at_site.
  destruct (signal_at env) as [[s' sig]|]; [|now left].
  destruct (Site_eqb s' s) eqn:Es; [|now left].
  apply Site_eqb_eq in Es. subst s'. right.
  destruct (sigterm_handler_spec env sig s (emit (EvSignal sig s) w) Hheld)
    as (e & fs' & ok & E & Hok & Hko & Hos & Hw).
  exists sig, e, fs', ok. split; [reflexivity|].
  split; [|split; [exact Hok | split; [exact Hko | split; [exact Hos | exact Hw]]]].
  unfold bind. rewrite E. unfold patch, emit. cbn. now rewrite <- app_assoc.
Qed.

Lemma at_site_elsewhere {A} (env : Env) (s : Site) (op : M A) (w : World) :
  (forall sig, signal_at env <> Some (s, sig)) -> at_site env s op w = op w.
Proof.
  intros H. unfold at_site. destruct (signal_at env) as [[s' sig]|]; [|reflexivity].
  destruct (Site_eqb s' s) eqn:Es; [|reflexivity].
  apply Site_eqb_eq in Es. subst s'. now destruct (H sig).
Qed.

(** ** Directories only appear *)

Definition dir_in (ds : list Path) (p : Path) : bool :=
  match p with
  | [] => true
  | _ => existsb (path_eqb p) ds
  end.

Lemma is_dir_dir_in (w : World) (p : Path) : is_dir w p = dir_in (dirs w) p.
Proof. reflexivity. Qed.

Lemma dir_in_app (ds extra : list Path) (p : Path) :
  dir_in (ds ++ extra) p = dir_in ds p || dir_in extra p.
Proof.
  destruct p as [|c p]; [reflexivity|]. unfold dir_in. apply existsb_app.
Qed.

Lemma dir_in_absent (extra : list Path) (p q : Path) :
  p <> [] ->
  existsb (path_eqb p) (prefixes q) = false ->
  Forall (fun d => In d (prefixes q)) extra ->
  dir_in extra p = false.
Proof.
  intros Hp Hfree Hall. destruct p as [|c p]; [now destruct Hp|].
  unfold dir_in. destruct (existsb (path_eqb (c :: p)) extra) eqn:E; [|reflexivity].
  apply existsb_exists in E. destruct E as (d & Hd & Hpd).
  apply path_eqb_eq in Hpd. subst d.
  rewrite Forall_forall in Hall. specialize (Hall _ Hd).
  assert (existsb (path_eqb (c :: p)) (prefixes q) = true) as Habs.
  { apply existsb_exists. exists (c :: p). split; [assumption | apply path_eqb_refl]. }
  now rewrite Habs in Hfree.
Qed.

Lemma trace_path_not_root (env : Env) : trace_path env <> [].
Proof. rewrite trace_path_eq. intros H. now apply app_eq_nil in H. Qed.

(** The directories [os.makedirs q] adds. *)
Definition made (ds : list Path) (q : Path) : list Path :=
  filter (fun d => negb (dir_in ds d)) (prefixes q).

Lemma made_prefixes (ds : list Path) (q : Path) :
  Forall (fun d => In d (prefixes q)) (made ds q).
Proof. apply Forall_forall. intros d Hd. unfold made in Hd. now apply filter_In in Hd. Qed.

(** [.gphotos-terminated] in the working directory is not on the way to
    directory [q]. *)
Definition off_trace (env : Env) (q : Path) : bool :=
  negb (existsb (path_eqb (trace_path env)) (prefixes q)).

Lemma writable_patch (env : Env) (w : World) (q : Path) (extra : list Path)
      (fs : list (Path * string)) (l : list Event) :
  writable env w = true -> off_trace env q = true ->
  Forall (fun d => In d (prefixes q)) extra ->
  writable env (patch w (dirs w ++ extra) fs l) = true.
Proof.
  unfold writable, off_trace. intros Hw Hoff Hall.
  apply andb_true_iff in Hw. destruct Hw as [Hc Ht].
  rewrite !is_dir_dir_in in *. cbn [dirs patch].
  apply negb_true_iff in Ht. apply negb_true_iff in Hoff.
  rewrite !dir_in_app, Hc, Ht.
  rewrite (dir_in_absent extra (trace_path env) q);
    auto using trace_path_not_root.
Qed.

(** ** Straight-line code: calls, file-system operations and their sequence

    A contract for the code of [setup] and of the body of [start]: it
    goes through the sites [sites], creates no directory besides [q] and
    its ancestors, and either runs undisturbed or is cut short by the
    signal handler at one of its sites. *)
Section Straight.

Variable env : Env.
Variable sites : Site -> bool.
Variable q : Path.

Definition allowed (e : Event) : bool :=
  match e with
  | EvCall s => sites s
  | EvRemove p => negb (path_eqb (trace_path env) p)
  | EvMakedirs _ _ | EvConfigure _ _ _ => true
  | _ => false
  end.

Definition only_exceptions : Prop :=
  forall s e, behaviour env s = Some e -> isinstance e Exception = true.

Definition undisturbed {A} (w : World) (r : Res A) (fs' : list (Path * string))
           (l : list Event) : Prop :=
  forallb allowed l = true /\
  r <> Blocked /\
  lookup (trace_path env) fs' = lookup (trace_path env) (files w) /\
  (only_exceptions -> forall e, r = Raise e -> isinstance e Exception = true).

Definition disturbed {A} (w : World) (r : Res A) (fs' : list (Path * string))
           (l : list Event) : Prop :=
  exists sig s e l1 ok,
    signal_at env = Some (s, sig) /\ sites s = true /\ r = Raise e /\
    l = l1 ++ EvSignal sig s :: handler_events env sig (exc_info w) ok /\
    forallb allowed l1 = true /\
    (ok = true -> e = SystemExit0 /\
                  lookup (trace_path env) fs' = Some (format_exc (exc_info w))) /\
    (ok = false -> isinstance e Exception = true /\
                   lookup (trace_path env) fs' = lookup (trace_path env) (files w)) /\
    (writable env w = true -> off_trace env q = true -> ok = true).

Definition plain {A} (m : M A) : Prop :=
  forall w,
    exists r extra fs' l,
      m w = (r, patch w (dirs w ++ extra) fs' l) /\
      Forall (fun d => In d (prefixes q)) extra /\
      undisturbed w r fs' l.

Definition straight {A} (m : M A) : Prop :=
  forall w, held_elsewhere env w = true ->
    exists r extra fs' l,
      m w = (r, patch w (dirs w ++ extra) fs' l) /\
      Forall (fun d => In d (prefixes q)) extra /\
      (undisturbed w r fs' l \/ disturbed w r fs' l).

Lemma patch_same (w : World) (l : list Event) :
  patch w (dirs w ++ []) (files w) l = patch w (dirs w) (files w) l.
Proof. now rewrite app_nil_r. Qed.

Lemma plain_ret {A} (a : A) : plain (ret a).
Proof.
  intros w. exists (Ret a), [], (files w), []. split.
  - unfold ret. now rewrite patch_same, patch_id.
  - split; [constructor|]. repeat split; try reflexivity; intros; discriminate.
Qed.

Lemma plain_straight {A} (m : M A) : plain m -> straight m.
Proof.
  intros Hm w _. destruct (Hm w) as (r & extra & fs' & l & E & Hex & HU).
  exists r, extra, fs', l. auto.
Qed.

Lemma straight_ret {A} (a : A) : straight (ret a).
Proof. apply plain_straight, plain_ret. Qed.

Lemma straight_bind {A B} (m : M A) (k : A -> M B) :
  straight m -> (forall a, straight (k a)) -> straight (bind m k).
Proof.
  intros Hm Hk w Hheld.
  destruct (Hm w Hheld) as (r & ex1 & fs1 & l1 & E1 & Hex1 & H1).
  unfold bind. rewrite E1.
  destruct H1 as [(Hall1 & Hnb & Hlk1 & Htame1) | HD].
  - destruct r as [a|e|]; [| |now destruct Hnb].
    + set (w1 := patch w (dirs w ++ ex1) fs1 l1).
      destruct (Hk a w1 Hheld) as (r2 & ex2 & fs2 & l2 & E2 & Hex2 & H2).
      rewrite E2. exists r2, (ex1 ++ ex2), fs2, (l1 ++ l2).
      split; [unfold w1; rewrite patch_patch; cbn [dirs patch]; now rewrite app_assoc|].
      split; [now apply Forall_app|].
      destruct H2 as [(Hall2 & Hnb2 & Hlk2 & Htame2) | (sig & s & e & l2a & ok & Hs & Hin & Hr & Hl & Hall2 & Hok & Hko & Hw)].
      * left. repeat split; auto.
        -- rewrite forallb_app. now rewrite Hall1, Hall2.
        -- now rewrite Hlk2.
      * right. exists sig, s, e, (l1 ++ l2a), ok. repeat split; auto.
        -- rewrite Hl. now rewrite <- app_assoc.
        -- rewrite forallb_app. now rewrite Hall1, Hall2.
        -- now apply Hok.
        -- now apply Hok.
        -- now apply Hko.
        -- destruct (Hko H) as [_ Hx]. now rewrite Hx.
        -- intros Hwr Hoff. apply Hw; [|assumption].
           unfold w1. now apply writable_patch with (q := q).
    + exists (Raise e), ex1, fs1, l1. split; [reflexivity|]. split; [assumption|].
      left. repeat split; auto; try discriminate.
      intros Ho e' He'. inversion He'; subst. now apply Htame1.
  - destruct HD as (sig & s & e & l1a & ok & Hs & Hin & Hr & Hl & Hall & Hok & Hko & Hw).
    subst r. exists (Raise e), ex1, fs1, l1. split; [reflexivity|]. split; [assumption|].
    right. exists sig, s, e, l1a, ok. repeat split; auto; try (now apply Hok); try (now apply Hko).
Qed.

Lemma straight_at_site {A} (s : Site) (op : M A) :
  sites s = true -> plain op -> straight (at_site env s op).
Proof.
  intros Hs Hop w Hheld.
  destruct (at_site_cases env s op w Hheld)
    as [E | (sig & e & fs' & ok & Hsig & E & Hok & Hko & Hos & Hw)].
  - rewrite E. now apply plain_straight.
  - rewrite E. exists (Raise e), [], fs', (EvSignal sig s :: handler_events env sig (exc_info w) ok).
    split; [now rewrite app_nil_r|]. split; [constructor|].
    right. exists sig, s, e, [], ok. repeat split; auto; try (now apply Hok); try (now apply Hko).
    destruct (Hko H) as [_ Hx]. now rewrite Hx.
Qed.

Lemma straight_call (s : Site) : sites s = true -> straight (call env s).
Proof.
  intros Hs w Hheld. unfold call.
  set (op := fun w' : World => match behaviour env s with
                               | Some e => (Raise e, w')
                               | None => (Ret tt, w')
                               end).
  destruct (at_site_cases env s op (emit (EvCall s) w) Hheld)
    as [E | (sig & e & fs' & ok & Hsig & E & Hok & Hko & Hos & Hw)].
  - rewrite E. unfold op.
    exists (match behaviour env s with Some e => Raise e | None => Ret tt end), [], (files w), [EvCall s].
    split; [destruct (behaviour env s); now rewrite patch_same|].
    split; [constructor|]. left. repeat split; auto.
    + cbn. now rewrite Hs.
    + destruct (behaviour env s); discriminate.
    + intros Ho e He. destruct (behaviour env s) as [e'|] eqn:Eb; [|discriminate].
      inversion He; subst. now apply (Ho s).
  - rewrite E.
    exists (Raise e), [], fs', (EvCall s :: EvSignal sig s :: handler_events env sig (exc_info w) ok).
    split; [rewrite app_nil_r; unfold patch, emit; cbn; now rewrite <- app_assoc|].
    split; [constructor|]. right. exists sig, s, e, [EvCall s], ok.
    repeat split; auto; try (now apply Hok); try (now apply Hko).
    + cbn. now rewrite Hs.
    + destruct (Hko H) as [_ Hx]. now rewrite Hx.
Qed.

Lemma plain_path_exists (p : Path) : plain (path_exists p).
Proof.
  intros w. exists (Ret (is_dir w p || is_file w p)), [], (files w), [].
  split; [unfold path_exists; now rewrite patch_same, patch_id|].
  split; [constructor|]. repeat split; try reflexivity; intros; discriminate.
Qed.

Lemma plain_os_remove (p : Path) :
  path_eqb (trace_path env) p = false -> plain (os_remove p).
Proof.
  intros Hp w. unfold os_remove. rewrite is_file_emit, is_dir_emit.
  destruct (is_file w p); [|destruct (is_dir w p)].
  - exists (Ret tt), [], (unlink p (files w)), [EvRemove p].
    split; [now rewrite app_nil_r|]. split; [constructor|].
    repeat split; try discriminate.
    + cbn [forallb allowed]. now rewrite Hp.
    + now apply lookup_unlink_other.
  - exists (Raise (os_error IsADirectoryError p)), [], (files w), [EvRemove p].
    split; [now rewrite app_nil_r|]. split; [constructor|].
    repeat split; try discriminate.
    + cbn [forallb allowed]. now rewrite Hp.
    + intros _ e He. now inversion He.
  - exists (Raise (os_error FileNotFoundError p)), [], (files w), [EvRemove p].
    split; [now rewrite app_nil_r|]. split; [constructor|].
    repeat split; try discriminate.
    + cbn [forallb allowed]. now rewrite Hp.
    + intros _ e He. now inversion He.
Qed.

Lemma plain_makedirs (mode : Z) : plain (makedirs q mode).
Proof.
  intros w. unfold makedirs. rewrite is_file_emit, is_dir_emit.
  destruct (is_dir w q || is_file w q);
    [|destruct (existsb (is_file (emit (EvMakedirs q mode) w)) (prefixes q))].
  - exists (Raise (os_error FileExistsError q)), [], (files w), [EvMakedirs q mode].
    split; [now rewrite app_nil_r|]. split; [constructor|].
    repeat split; try discriminate. intros _ e He. now inversion He.
  - exists (Raise (os_error NotADirectoryError q)), [], (files w), [EvMakedirs q mode].
    split; [now rewrite app_nil_r|]. split; [constructor|].
    repeat split; try discriminate. intros _ e He. now inversion He.
  - exists (Ret tt), (made (dirs w) q), (files w), [EvMakedirs q mode].
    split; [reflexivity|]. split; [apply made_prefixes|].
    repeat split; try discriminate.
Qed.

Lemma plain_configure (a b : option string) (c : bool) :
  plain (fun w => (Ret tt, emit (EvConfigure a b c) w)).
Proof.
  intros w. exists (Ret tt), [], (files w), [EvConfigure a b c].
  split; [now rewrite app_nil_r|]. split; [constructor|].
  repeat split; try discriminate.
Qed.

End Straight.

(** ** Contracts of [setup] and of the pipeline *)

Definition setup_sites (s : Site) : bool :=
  match s with
  | S_LocalData | S_exists_credentials | S_remove_credentials
  | S_exists_user_data | S_makedirs_user_data
  | S_Authorize | S_authorize | S_RestClient
  | S_GooglePhotosSync | S_GoogleAlbumsSync => true
  | _ => false
  end.

Definition phase_sites (s : Site) : bool :=
  match s with
  | S_phase _ => true
  | _ => false
  end.

(** The sites of "configure and launch" outside the [except] branch. *)
Definition launch_sites (s : Site) : bool :=
  match s with
  | S_store_enter | S_store_exit => true
  | _ => setup_sites s || phase_sites s
  end.

Lemma allowed_mono (env : Env) (sites sites' : Site -> bool) (l : list Event) :
  (forall s, sites s = true -> sites' s = true) ->
  forallb (allowed env sites) l = true -> forallb (allowed env sites') l = true.
Proof.
  intros Hsub. rewrite !forallb_forall. intros H e He. specialize (H e He).
  destruct e; cbn in *; auto.
Qed.

Lemma credentials_off_trace (env : Env) :
  path_eqb (trace_path env) (user_data_dir env ++ ["credentials.json"]) = false.
Proof. rewrite trace_path_eq. now apply path_eqb_snoc. Qed.

Lemma setup_straight (env : Env) (args : Args) (db : Path) :
  straight env setup_sites (user_data_dir env) (setup env args db).
Proof.
  unfold setup.
  repeat (first
    [ apply straight_bind; [|intros ?]
    | apply straight_call; reflexivity
    | apply straight_at_site; [reflexivity|]
    | match goal with |- straight _ _ _ (if ?c then _ else _) => destruct c end
    | apply straight_ret
    | apply plain_path_exists
    | apply plain_os_remove, credentials_off_trace
    | apply plain_makedirs
    | apply plain_straight, plain_configure ]).
Qed.

Lemma pipeline_straight (env : Env) (args : Args) :
  straight env phase_sites (user_data_dir env) (pipeline env args).
Proof.
  unfold pipeline, phase.
  repeat (first
    [ apply straight_bind; [|intros ?]
    | apply straight_call; reflexivity
    | apply straight_ret
    | match goal with |- straight _ _ _ (if ?c then _ else _) => destruct c end ]).
Qed.

Lemma call_elsewhere (env : Env) (s : Site) (w : World) :
  (forall sig, signal_at env <> Some (s, sig)) ->
  call env s w =
    (match behaviour env s with Some e => Raise e | None => Ret tt end,
     emit (EvCall s) w).
Proof.
  intros H. unfold call. rewrite at_site_elsewhere by assumption.
  now destruct (behaviour env s).
Qed.

Lemma restore_patch (w : World) (i : option Raised) ds fs l :
  set_exc_info (exc_info w) (patch (set_exc_info i w) ds fs l) = patch w ds fs l.
Proof. reflexivity. Qed.

(** ** "Configure and launch": how [setup] followed by [start] can end *)
Section Launch.

Variable env : Env.

(** A data store whose [__exit__] returns, and returns nothing true. *)
Definition plain_exit : Prop :=
  behaviour env S_store_exit = None /\ store_exit_value env = false.

(** The run was cut by the signal at a launch site: what went before,
    the handler, and the [__exit__] of the data store after it. *)
Definition cut (w : World) (r : Res unit) (fs' : list (Path * string))
           (l : list Event) : Prop :=
  exists sig s l1 info ok l3,
    signal_at env = Some (s, sig) /\ launch_sites s = true /\ r <> Blocked /\
    l = l1 ++ EvSignal sig s :: handler_events env sig info ok ++ l3 /\
    forallb (allowed env launch_sites) l1 = true /\
    forallb (allowed env launch_sites) l3 = true /\
    (ok = true ->
     lookup (trace_path env) fs' = Some (format_exc info) /\
     (plain_exit -> r = Raise SystemExit0)) /\
    (writable env w = true -> off_trace env (user_data_dir env) = true -> ok = true).

Definition runs (m : M unit) : Prop :=
  forall w, held_elsewhere env w = true ->
    exists r extra fs' l,
      m w = (r, patch w (dirs w ++ extra) fs' l) /\
      Forall (fun d => In d (prefixes (user_data_dir env))) extra /\
      (undisturbed env launch_sites w r fs' l \/ cut w r fs' l).

Lemma undisturbed_mono {A} (sites : Site -> bool) (w : World) (r : Res A) fs' l :
  (forall s, sites s = true -> launch_sites s = true) ->
  undisturbed env sites w r fs' l -> undisturbed env launch_sites w r fs' l.
Proof.
  intros Hsub (Hall & Hnb & Hlk & Htame). repeat split; auto.
  now apply allowed_mono with (sites := sites).
Qed.

Lemma disturbed_cut (sites : Site -> bool) (w : World) (r : Res unit) fs' l :
  (forall s, sites s = true -> launch_sites s = true) ->
  disturbed env sites (user_data_dir env) w r fs' l -> cut w r fs' l.
Proof.
  intros Hsub (sig & s & e & l1 & ok & Hs & Hin & Hr & Hl & Hall & Hok & Hko & Hw).
  exists sig, s, l1, (exc_info w), ok, []. subst r.
  repeat split; auto; try discriminate.
  - now rewrite app_nil_r.
  - now apply allowed_mono with (sites := sites).
  - now apply Hok.
  - intros _. f_equal. now apply Hok.
Qed.

Lemma straight_runs (sites : Site -> bool) (m : M unit) :
  (forall s, sites s = true -> launch_sites s = true) ->
  straight env sites (user_data_dir env) m -> runs m.
Proof.
  intros Hsub Hm w Hheld.
  destruct (Hm w Hheld) as (r & extra & fs' & l & E & Hex & [HU | HD]);
    exists r, extra, fs', l; repeat split; auto.
  - left. now apply undisturbed_mono with (sites := sites).
  - right. now apply disturbed_cut with (sites := sites).
Qed.

Lemma runs_bind {A} (sites : Site -> bool) (m : M A) (k : A -> M unit) :
  (forall s, sites s = true -> launch_sites s = true) ->
  straight env sites (user_data_dir env) m -> (forall a, runs (k a)) ->
  runs (bind m k).
Proof.
  intros Hsub Hm Hk w Hheld.
  destruct (Hm w Hheld) as (r & ex1 & fs1 & l1 & E1 & Hex1 & H1).
  unfold bind. rewrite E1.
  destruct H1 as [HU | HD].
  - pose proof (undisturbed_mono sites w r fs1 l1 Hsub HU) as (Hall1 & Hnb & Hlk1 & Htame1).
    destruct r as [a|e|]; [| |now destruct Hnb].
    + set (w1 := patch w (dirs w ++ ex1) fs1 l1).
      destruct (Hk a w1 Hheld) as (r2 & ex2 & fs2 & l2 & E2 & Hex2 & H2).
      rewrite E2. exists r2, (ex1 ++ ex2), fs2, (l1 ++ l2).
      split; [unfold w1; rewrite patch_patch; cbn [dirs patch]; now rewrite app_assoc|].
      split; [now apply Forall_app|].
      destruct H2 as [(Hall2 & Hnb2 & Hlk2 & Htame2)
                     | (sig & s & l2a & info & ok & l3 & Hs & Hin & Hnb2 & Hl & Hall2 & Hall3 & Hok & Hw)].
      * left. repeat split; auto.
        -- rewrite forallb_app. now rewrite Hall1, Hall2.
        -- now rewrite Hlk2.
      * right. exists sig, s, (l1 ++ l2a), info, ok, l3. repeat split; auto.
        -- rewrite Hl. now rewrite <- app_assoc.
        -- rewrite forallb_app. now rewrite Hall1, Hall2.
        -- now apply Hok.
        -- now apply Hok.
        -- intros Hwr Hoff. apply Hw; [|assumption].
           unfold w1. now apply writable_patch with (q := user_data_dir env).
    + exists (Raise e), ex1, fs1, l1. split; [reflexivity|]. split; [assumption|].
      left. repeat split; auto; try discriminate.
      intros Ho e' He'. inversion He'; subst. now apply Htame1.
  - destruct HD as (sig & s & e & l1a & ok & Hs & Hin & Hr & Hl & Hall & Hok & Hko & Hw).
    subst r. exists (Raise e), ex1, fs1, l1. split; [reflexivity|]. split; [assumption|].
    right. exists sig, s, l1a, (exc_info w), ok, []. repeat split; auto; try discriminate.
    + now rewrite app_nil_r.
    + now apply allowed_mono with (sites := sites).
    + now apply Hok.
    + intros _. f_equal. now apply Hok.
Qed.

Lemma exit_cases (w : World) :
  held_elsewhere env w = true ->
  exists r2 fs2 l2,
    (call env S_store_exit ;; ret (store_exit_value env)) w =
      (r2, patch w (dirs w) fs2 l2) /\
    ((l2 = [EvCall S_store_exit] /\ fs2 = files w /\
      r2 = match behaviour env S_store_exit with
           | Some e => Raise e
           | None => Ret (store_exit_value env)
           end) \/
     (exists sig e ok,
        signal_at env = Some (S_store_exit, sig) /\ r2 = Raise e /\
        l2 = EvCall S_store_exit :: EvSignal sig S_store_exit ::
             handler_events env sig (exc_info w) ok /\
        (ok = true -> e = SystemExit0 /\
                      lookup (trace_path env) fs2 = Some (format_exc (exc_info w))) /\
        (ok = false -> lookup (trace_path env) fs2 = lookup (trace_path env) (files w)) /\
        (writable env w = true -> ok = true))).
Proof.
  intros Hheld. unfold bind, call.
  set (op := fun w' : World => match behaviour env S_store_exit with
                               | Some e => (Raise e, w')
                               | None => (Ret tt, w')
                               end).
  destruct (at_site_cases env S_store_exit op (emit (EvCall S_store_exit) w) Hheld)
    as [E | (sig & e & fs' & ok & Hsig & E & Hok & Hko & Hos & Hw)]; rewrite E.
  - unfold op. eexists _, (files w), [EvCall S_store_exit].
    split; [|left; repeat split].
    destruct (behaviour env S_store_exit); reflexivity.
  - exists (Raise e), fs', (EvCall S_store_exit :: EvSignal sig S_store_exit ::
                            handler_events env sig (exc_info w) ok).
    split; [unfold patch, emit; cbn; now rewrite <- app_assoc|].
    right. exists sig, e, ok. repeat split; auto; try (now apply Hok).
    intros Hf. destruct (Hko Hf) as [_ Hx]. now rewrite Hx.
Qed.

Lemma phase_site_not_exit (s : Site) (sig : Signal) :
  phase_sites s = true -> signal_at env = Some (s, sig) ->
  forall sig', signal_at env <> Some (S_store_exit, sig').
Proof. intros Hp Hs sig' H. rewrite Hs in H. inversion H; subst. discriminate Hp. Qed.

Lemma phase_sites_launch (s : Site) : phase_sites s = true -> launch_sites s = true.
Proof. destruct s; simpl; intros H; try discriminate H; reflexivity. Qed.

Lemma setup_sites_launch (s : Site) : setup_sites s = true -> launch_sites s = true.
Proof. destruct s; simpl; intros H; try discriminate H; reflexivity. Qed.

(** The [with self.data_store:] statement of [start]. *)
Lemma with_store_runs (args : Args) :
  runs (with_cm (fun _ => call env S_store_exit ;; ret (store_exit_value env))
                (pipeline env args)).
Proof.
  intros w Hheld.
  destruct (pipeline_straight env args w Hheld) as (r & ex1 & fs1 & l1 & E1 & Hex1 & H1).
  unfold with_cm. rewrite E1.
  set (w1 := patch w (dirs w ++ ex1) fs1 l1).
  destruct H1 as [HU | HD].
  - pose proof (undisturbed_mono phase_sites w r fs1 l1 phase_sites_launch HU)
      as (Hall1 & Hnb & Hlk1 & Htame1).
    destruct r as [[]|e|]; [| |now destruct Hnb].
    + (* the pipeline returned *)
      destruct (exit_cases w1 Hheld) as (r2 & fs2 & l2 & E2 & H2). rewrite E2.
      destruct H2 as [(Hl2 & Hfs2 & Hr2) | (sig & e & ok & Hsig & Hr2 & Hl2 & Hok & Hko & Hw)].
      * subst l2 fs2.
        exists (match behaviour env S_store_exit with Some e => Raise e | None => Ret tt end),
               ex1, fs1, (l1 ++ [EvCall S_store_exit]).
        split; [subst r2; destruct (behaviour env S_store_exit); unfold w1; now rewrite patch_patch|].
        split; [assumption|]. left. repeat split; auto.
        -- rewrite forallb_app, Hall1. reflexivity.
        -- destruct (behaviour env S_store_exit); discriminate.
        -- intros Ho e He. destruct (behaviour env S_store_exit) as [e'|] eqn:Eb; [|discriminate].
           inversion He; subst. now apply (Ho S_store_exit).
      * subst r2 l2. exists (Raise e), ex1, fs2, (l1 ++ EvCall S_store_exit :: EvSignal sig S_store_exit :: handler_events env sig (exc_info w) ok).
        split; [unfold w1; now rewrite patch_patch|].
        split; [assumption|]. right.
        exists sig, S_store_exit, (l1 ++ [EvCall S_store_exit]), (exc_info w), ok, [].
        repeat split; auto; try discriminate.
        -- now rewrite app_nil_r, <- app_assoc.
        -- rewrite forallb_app, Hall1. reflexivity.
        -- now apply Hok.
        -- intros _. f_equal. now apply Hok.
        -- intros Hwr Hoff. apply Hw. unfold w1.
           now apply writable_patch with (q := user_data_dir env).
    + (* the pipeline raised [e] *)
      destruct (exit_cases (set_exc_info (Some e) w1) Hheld) as (r2 & fs2 & l2 & E2 & H2).
      rewrite E2.
      destruct H2 as [(Hl2 & Hfs2 & Hr2) | (sig & e' & ok & Hsig & Hr2 & Hl2 & Hok & Hko & Hw)].
      * subst l2 fs2.
        exists (match behaviour env S_store_exit with
                | Some e2 => Raise e2
                | None => if store_exit_value env then Ret tt else Raise e
                end), ex1, fs1, (l1 ++ [EvCall S_store_exit]).
        split.
        { subst r2. destruct (behaviour env S_store_exit); [|destruct (store_exit_value env)];
            rewrite restore_patch; unfold w1; now rewrite patch_patch. }
        split; [assumption|]. left. repeat split; auto.
        -- rewrite forallb_app, Hall1. reflexivity.
        -- destruct (behaviour env S_store_exit); [|destruct (store_exit_value env)]; discriminate.
        -- intros Ho e2 He. destruct (behaviour env S_store_exit) as [e'|] eqn:Eb.
           ++ inversion He; subst. now apply (Ho S_store_exit).
           ++ destruct (store_exit_value env); [discriminate|].
              inversion He; subst. now apply Htame1.
      * subst r2 l2. exists (Raise e'), ex1, fs2, (l1 ++ EvCall S_store_exit :: EvSignal sig S_store_exit :: handler_events env sig (Some e) ok).
        split; [rewrite restore_patch; unfold w1; now rewrite patch_patch|].
        split; [assumption|]. right.
        exists sig, S_store_exit, (l1 ++ [EvCall S_store_exit]), (Some e), ok, [].
        repeat split; auto; try discriminate.
        -- now rewrite app_nil_r, <- app_assoc.
        -- rewrite forallb_app, Hall1. reflexivity.
        -- now apply Hok.
        -- intros _. f_equal. now apply Hok.
        -- intros Hwr Hoff. apply Hw.
           change (writable env w1 = true). unfold w1.
           now apply writable_patch with (q := user_data_dir env).
  - (* the signal arrived inside a phase *)
    destruct HD as (sig & s & e & l1a & ok & Hs & Hin & Hr & Hl & Hall & Hok & Hko & Hw).
    subst r.
    pose proof (phase_site_not_exit s sig Hin Hs) as Hne.
    unfold bind. rewrite (call_elsewhere env S_store_exit _ Hne). unfold ret.
    exists (match behaviour env S_store_exit with
            | Some e2 => Raise e2
            | None => if store_exit_value env then Ret tt else Raise e
            end), ex1, fs1, (l1 ++ [EvCall S_store_exit]).
    split.
    { destruct (behaviour env S_store_exit); [|destruct (store_exit_value env)];
        change (emit (EvCall S_store_exit) (set_exc_info (Some e) w1))
          with (patch (set_exc_info (Some e) w1) (dirs w1) (files w1) [EvCall S_store_exit]);
        rewrite restore_patch; unfold w1; now rewrite patch_patch. }
    split; [assumption|]. right.
    exists sig, s, l1a, (exc_info w), ok, [EvCall S_store_exit].
    repeat split; auto.
    + now apply phase_sites_launch.
    + destruct (behaviour env S_store_exit); [|destruct (store_exit_value env)]; discriminate.
    + rewrite Hl. rewrite <- app_assoc. reflexivity.
    + now apply allowed_mono with (sites := phase_sites); [apply phase_sites_launch|].
    + now apply Hok.
    + intros [Hb Hv]. rewrite Hb, Hv. f_equal. now apply Hok.
Qed.

Lemma start_runs (args : Args) : runs (start env args).
Proof.
  unfold start. apply runs_bind with (sites := fun s => Site_eqb s S_store_enter).
  - intros s Hs. apply Site_eqb_eq in Hs. now subst.
  - apply straight_call. reflexivity.
  - intros _. apply with_store_runs.
Qed.

(** The statements under [try:] in [main] (lines 217-218). *)
Lemma launch_body_runs (args : Args) (db : Path) :
  runs (setup env args db ;; start env args).
Proof.
  apply runs_bind with (sites := setup_sites).
  - apply setup_sites_launch.
  - apply setup_straight.
  - intros _. apply start_runs.
Qed.

End Launch.

Ltac world_simpl :=
  cbv [emit patch set_exc_info set_files set_lock_self set_dirs set_logger
       dirs files lock_other lock_self logger_level logger_handlers exc_info events].

Ltac same_world :=
  world_simpl; rewrite <- ?app_assoc; cbn [app]; rewrite <- ?app_assoc; reflexivity.

(** ** The [except] branch and the [try] statement of [main] *)

Lemma writable_false_dir (env : Env) (w : World) :
  is_dir w (trace_path env) = true -> writable env w = false.
Proof. unfold writable. intros H. rewrite H. apply andb_false_r. Qed.

Lemma writable_false_cwd (env : Env) (w : World) :
  is_dir w (cwd env) = false -> writable env w = false.
Proof. unfold writable. intros H. now rewrite H. Qed.

(** How the [except] branch ends: the trace is written and the branch
    returns; or the trace file cannot be opened and the [OSError] leaves
    the branch; or the signal arrives inside the branch. *)
Lemma capture_spec (env : Env) (tf : Path) (e : Raised) (w : World) :
  held_elsewhere env w = true ->
  exists r fs' lc,
    capture env tf e w =
      (r, patch w (dirs w) fs' (EvLog WARNING (failed_msg tf e) :: lc)) /\
    r <> Blocked /\
    ((r = Ret tt /\
      lc = [EvOpen (trace_path env);
            EvWrite (trace_path env) (format_exc (exc_info w));
            EvClose (trace_path env)] /\
      lookup (trace_path env) fs' = Some (format_exc (exc_info w))) \/
     (exists e', r = Raise e' /\ isinstance e' Exception = true /\
                 lc = [EvOpen (trace_path env)] /\ fs' = files w /\
                 writable env w = false) \/
     (exists sig s, signal_at env = Some (s, sig) /\
                    (s = S_open_trace \/ s = S_write_trace) /\
                    existsb is_signal lc = true)).
Proof.
  intros Hheld.
  assert (Hlock : match lock_self w with
                  | Some q => if path_eqb (trace_path env) q then None else Some q
                  | None => None
                  end = lock_self w).
  { unfold held_elsewhere in Hheld. destruct (lock_self w) as [q|]; [|reflexivity].
    destruct (path_eqb (trace_path env) q); [discriminate Hheld | reflexivity]. }
  unfold capture. fold (failed_msg tf e). fold (trace_path env).
  unfold bind at 1. unfold log at 1.
  pose (wa := emit (EvLog WARNING (failed_msg tf e)) w).
  fold wa.
  unfold bind at 1.
  destruct (at_site_cases env S_open_trace (open_w (trace_path env)) wa Hheld)
    as [E | (sig & e' & fs' & ok & Hsig & E & Hok & Hko & Hos & Hw)]; rewrite E; clear E.
  2:{ exists (Raise e'), fs', (EvSignal sig S_open_trace :: handler_events env sig (exc_info w) ok).
      split; [unfold wa, patch, emit; cbn; now rewrite <- app_assoc|].
      split; [discriminate|]. right. right. exists sig, S_open_trace. auto. }
  unfold open_w. cbv zeta.
  change (is_dir (emit (EvOpen (trace_path env)) wa)) with (is_dir w).
  change (is_file (emit (EvOpen (trace_path env)) wa)) with (is_file w).
  destruct (is_dir w (trace_path env)) eqn:Etp.
  { exists (Raise (os_error IsADirectoryError (trace_path env))), (files w), [EvOpen (trace_path env)].
    split; [unfold wa, patch, emit; cbn; now rewrite <- app_assoc|].
    split; [discriminate|]. right. left. eexists. repeat split.
    now apply writable_false_dir. }
  rewrite parent_trace_path.
  destruct (is_dir w (cwd env)) eqn:Ecwd.
  2:{ destruct (is_file w (cwd env));
        [ exists (Raise (os_error NotADirectoryError (trace_path env)))
        | exists (Raise (os_error FileNotFoundError (trace_path env))) ];
        exists (files w), [EvOpen (trace_path env)];
        (split; [unfold wa, patch, emit; cbn; now rewrite <- app_assoc|]);
        (split; [discriminate|]); right; left; eexists; repeat split;
        now apply writable_false_cwd. }
  set (wc := set_files _ _).
  unfold with_file, with_cm, bind, format_exc_now.
  assert (Hheldc : held_elsewhere env wc = true) by exact Hheld.
  match goal with
  | |- context [at_site env S_write_trace ?op wc] =>
      destruct (at_site_cases env S_write_trace op wc Hheldc)
        as [E | (sig & e' & fs' & ok & Hsig & E & Hok & Hko & Hos & Hw)]; rewrite E; clear E
  end.
  - unfold write, close, ret. cbn [fst snd lock_self emit set_files set_lock_self].
    change (lock_self wc) with (lock_self w). rewrite Hlock.
    change (exc_info wc) with (exc_info w).
    change (files wc) with ((trace_path env, ""%string) :: unlink (trace_path env) (files w)).
    cbn [lookup]. rewrite path_eqb_refl.
    eexists (Ret tt), _, _. split.
    + unfold wc, wa. same_world.
    + split; [discriminate|]. left. repeat split.
      cbn [lookup]. now rewrite path_eqb_refl.
  - unfold close, ret. cbv zeta. cbn [fst snd].
    change (lock_self (set_exc_info (Some e') (patch wc (dirs wc) fs'
             (EvSignal sig S_write_trace :: handler_events env sig (exc_info wc) ok))))
      with (lock_self w).
    rewrite Hlock.
    exists (Raise e'), fs',
      ([EvOpen (trace_path env); EvSignal sig S_write_trace] ++
       handler_events env sig (exc_info w) ok ++ [EvClose (trace_path env)]).
    split.
    + unfold wc, wa. same_world.
    + split; [discriminate|]. right. right. exists sig, S_write_trace.
      repeat split; auto.
Qed.

(** How "configure and launch" ends.  Either nothing reaches the
    [except] branch; or an exception of class [Exception] does, and the
    branch logs and traces it; or the signal cut [setup] or [start]. *)
Definition launch_facts (env : Env) (tf : Path) (w : World) (r : Res unit)
           (fs' : list (Path * string)) (l : list Event) : Prop :=
  (forallb (allowed env launch_sites) l = true /\
   lookup (trace_path env) fs' = lookup (trace_path env) (files w) /\
   (r = Ret tt \/ exists e, r = Raise e /\ isinstance e Exception = false) /\
   (only_exceptions env -> r = Ret tt)) \/
  (exists e lb lc,
     l = lb ++ EvLog WARNING (failed_msg tf e) :: lc /\
     forallb (allowed env launch_sites) lb = true /\
     isinstance e Exception = true /\
     ((r = Ret tt /\
       lc = [EvOpen (trace_path env);
             EvWrite (trace_path env) (format_exc (Some e));
             EvClose (trace_path env)] /\
       lookup (trace_path env) fs' = Some (format_exc (Some e))) \/
      (exists e', r = Raise e' /\ isinstance e' Exception = true /\
                  lc = [EvOpen (trace_path env)] /\
                  lookup (trace_path env) fs' = lookup (trace_path env) (files w) /\
                  (writable env w = true ->
                   off_trace env (user_data_dir env) = true -> False)) \/
      (exists sig s, signal_at env = Some (s, sig) /\
                     (s = S_open_trace \/ s = S_write_trace) /\
                     existsb is_signal lc = true))) \/
  (exists sig s l1 info ok rest,
     signal_at env = Some (s, sig) /\ launch_sites s = true /\
     l = l1 ++ EvSignal sig s :: handler_events env sig info ok ++ rest /\
     forallb (allowed env launch_sites) l1 = true /\
     (ok = true -> plain_exit env ->
      r = Raise SystemExit0 /\
      forallb (allowed env launch_sites) rest = true /\
      lookup (trace_path env) fs' = Some (format_exc info)) /\
     (writable env w = true -> off_trace env (user_data_dir env) = true ->
      ok = true)).

Lemma launch_spec (env : Env) (args : Args) (db tf : Path) (w : World) :
  held_elsewhere env w = true ->
  exists r extra fs' l,
    launch env args db tf w =
      (r, patch w (dirs w ++ extra) fs' (l ++ [EvLog INFO "Done."])) /\
    Forall (fun d => In d (prefixes (user_data_dir env))) extra /\
    r <> Blocked /\
    launch_facts env tf w r fs' l.
Proof.
  intros Hheld. unfold launch_facts.
  destruct (launch_body_runs env args db w Hheld) as (rb & extra & fs1 & lb & E & Hex & HB).
  unfold launch, try_finally, try_except. rewrite E. unfold log.
  set (w1 := patch w (dirs w ++ extra) fs1 lb) in *.
  destruct HB as [(Hall & Hnb & Hlk & Htame)
                 | (sig & s & l1 & info & ok & l3 & Hs & Hin & Hnb & Hl & Hall1 & Hall3 & Hok & Hw)].
  - (* [setup] and [start] ran undisturbed *)
    destruct rb as [[]|e|]; [| |now destruct Hnb].
    + exists (Ret tt), extra, fs1, lb.
      split; [unfold w1; same_world|].
      split; [assumption|]. split; [discriminate|]. left. repeat split; auto.
    + destruct (isinstance e Exception) eqn:Eexc.
      * destruct (capture_spec env tf e (set_exc_info (Some e) w1) Hheld)
          as (rc & fs2 & lc & Ec & Hnbc & Hc).
        rewrite Ec. rewrite restore_patch.
        exists rc, extra, fs2, (lb ++ EvLog WARNING (failed_msg tf e) :: lc).
        split.
        { destruct rc; [| |now destruct Hnbc];
            unfold w1; same_world. }
        split; [assumption|]. split; [assumption|]. right. left.
        exists e, lb, lc. repeat split; auto.
        destruct Hc as [(Hr & Hlc & Hlook) | [(e' & Hr & He' & Hlc & Hfs & Hnw) | Hsig]].
        -- left. auto.
        -- right. left. exists e'. repeat split; auto.
           ++ rewrite Hfs. exact Hlk.
           ++ intros Hwr Hoff.
              assert (writable env w1 = true) as Hw1
                  by (unfold w1; now apply writable_patch with (q := user_data_dir env)).
              change (writable env w1 = false) in Hnw. now rewrite Hw1 in Hnw.
        -- right. right. exact Hsig.
      * exists (Raise e), extra, fs1, lb.
        split; [unfold w1; same_world|].
        split; [assumption|]. split; [discriminate|]. left. repeat split; auto.
        -- right. now exists e.
        -- intros Ho. rewrite (Htame Ho e eq_refl) in Eexc. discriminate Eexc.
  - (* the signal cut [setup] or [start] *)
    assert (Hcut : forall (r' : Res unit) fs2 rest,
               (ok = true -> plain_exit env ->
                r' = Raise SystemExit0 /\
                forallb (allowed env launch_sites) rest = true /\
                lookup (trace_path env) fs2 = Some (format_exc info)) ->
               exists sig' s' l1' info' ok' rest0,
                 signal_at env = Some (s', sig') /\ launch_sites s' = true /\
                 l1 ++ EvSignal sig s :: handler_events env sig info ok ++ rest =
                 l1' ++ EvSignal sig' s' :: handler_events env sig' info' ok' ++ rest0 /\
                 forallb (allowed env launch_sites) l1' = true /\
                 (ok' = true -> plain_exit env ->
                  r' = Raise SystemExit0 /\
                  forallb (allowed env launch_sites) rest0 = true /\
                  lookup (trace_path env) fs2 = Some (format_exc info')) /\
                 (writable env w = true -> off_trace env (user_data_dir env) = true ->
                  ok' = true)).
    { intros r' fs2 rest H. exists sig, s, l1, info, ok, rest. repeat split; auto;
        now apply H. }
    destruct rb as [[]|e|]; [| |now destruct Hnb].
    + exists (Ret tt), extra, fs1, lb.
      split; [unfold w1; same_world|].
      split; [assumption|]. split; [discriminate|]. right. right.
      rewrite Hl. apply Hcut. intros Hk Hp. destruct (Hok Hk) as [Hlook Hr].
      discriminate (Hr Hp).
    + destruct (isinstance e Exception) eqn:Eexc.
      * destruct (capture_spec env tf e (set_exc_info (Some e) w1) Hheld)
          as (rc & fs2 & lc & Ec & Hnbc & Hc).
        rewrite Ec. rewrite restore_patch.
        exists rc, extra, fs2, (lb ++ EvLog WARNING (failed_msg tf e) :: lc).
        split.
        { destruct rc; [| |now destruct Hnbc];
            unfold w1; same_world. }
        split; [assumption|]. split; [assumption|]. right. right.
        rewrite Hl. rewrite <- !app_assoc. cbn [app]. rewrite <- !app_assoc.
        apply Hcut. intros Hk Hp. destruct (Hok Hk) as [Hlook Hr].
        specialize (Hr Hp). inversion Hr; subst e. discriminate Eexc.
      * exists (Raise e), extra, fs1, lb.
        split; [unfold w1; same_world|].
        split; [assumption|]. split; [discriminate|]. right. right.
        rewrite Hl. apply Hcut. intros Hk Hp. destruct (Hok Hk) as [Hlook Hr].
        repeat split; auto.
Qed.

(** ** The shape of every run of [main] *)

Definition installs : list Event := [EvSignalInstall SIGTERM; EvSignalInstall SIGINT].

Definition locked_msg : string := "EXITING: database is locked".

Definition elapsed_msg (env : Env) : string := "Elapsed time = " ++ elapsed_time env.

(** The handler ran at site [s]. *)
Definition handling (env : Env) (sig : Signal) (s : Site) (info : option Raised)
           (ok : bool) : list Event :=
  EvSignal sig s :: handler_events env sig info ok.

(** What the handler left: the exception it raised and the files. *)
Definition handled (env : Env) (e : Raised) (ok : bool) (info : option Raised)
           (fs0 fs' : list (Path * string)) : Prop :=
  (ok = true -> e = SystemExit0 /\
                lookup (trace_path env) fs' = Some (format_exc info)) /\
  (ok = false -> isinstance e Exception = true /\ fs' = fs0) /\
  (ok = false -> isinstance e OSError = true).

Definition writable_in (env : Env) (ds : list Path) : bool :=
  dir_in ds (cwd env) && negb (dir_in ds (trace_path env)).

Definition exists_in (ds : list Path) (fs : list (Path * string)) (p : Path) : bool :=
  dir_in ds p || match lookup p fs with Some _ => true | None => false end.

(** The world [main] leaves behind. *)
Definition final (ds : list Path) (fs : list (Path * string)) (locked : bool)
           (z : Z) (evs : list Event) : World :=
  mkWorld ds fs locked None z 1%nat None evs.

Section Shapes.

Variables (env : Env) (args : Args).
Variables (ds : list Path) (fs : list (Path * string)) (busy : bool) (z : Z).

Let root := root_of env args.
Let lock := lock_file_of env args.
Let db := db_of env args.
Let tf := trace_file_of env args.
Let gd := S_get_distribution.

(** The root folder step (lines 196-197), when it succeeds. *)
Definition present : bool := exists_in ds fs root.
Definition ds1 : list Path := if present then ds else ds ++ made ds root.
Definition mk : list Event := if present then [] else [EvMakedirs root 448].
(** The lock file just opened (line 200). *)
Definition fs1 : list (Path * string) := (lock, "") :: unlink lock fs.
(** The events of a run that got to attempt the lock (line 203). *)
Definition after_lock (rest : list Event) : list Event :=
  installs ++ mk ++ EvOpen lock :: EvLockf lock (Z.lor LOCK_EX LOCK_NB) :: rest.

(** The world in which "configure and launch" starts: the lock is held
    and the version lines [vl] are logged. *)
Definition at_launch (vl : list Event) : World :=
  mkWorld ds1 fs1 busy (Some lock) z 1%nat None (after_lock (EvCall gd :: vl)).

(** The version lines (209-213): what they log. *)
Definition version_lines (vl : list Event) : Prop :=
  (behaviour env gd = None /\
   vl = [EvLog INFO ("version: " ++ distribution_version env)]) \/
  (exists e, behaviour env gd = Some e /\ isinstance e Exception = true /\
             vl = [EvLog INFO "version not available"]) \/
  (exists sig, signal_at env = Some (gd, sig) /\
               (writable_in env ds1 = true -> False) /\
                 vl = handling env sig gd None false ++
                      [EvLog INFO "version not available"]).

Inductive main_shape : Res unit -> list Path -> list (Path * string) ->
                       list Event -> Prop :=
| at_exists_root sig e ok fs' :
    signal_at env = Some (S_exists_root, sig) ->
    handled env e ok None fs fs' ->
    (writable_in env ds = true -> ok = true) ->
    main_shape (Raise e) ds fs' (installs ++ handling env sig S_exists_root None ok)
| at_makedirs_root sig e ok fs' :
    present = false ->
    signal_at env = Some (S_makedirs_root, sig) ->
    handled env e ok None fs fs' ->
    (writable_in env ds = true -> ok = true) ->
    main_shape (Raise e) ds fs' (installs ++ handling env sig S_makedirs_root None ok)
| makedirs_failed e :
    present = false ->
    isinstance e OSError = true ->
    main_shape (Raise e) ds fs (installs ++ [EvMakedirs root 448])
| at_open_lock sig e ok fs' :
    signal_at env = Some (S_open_lock, sig) ->
    handled env e ok None fs fs' ->
    (writable_in env ds1 = true -> ok = true) ->
    main_shape (Raise e) ds1 fs' (installs ++ mk ++ handling env sig S_open_lock None ok)
| open_failed e :
    dir_in ds1 lock = true \/ dir_in ds1 db = false ->
    isinstance e OSError = true ->
    main_shape (Raise e) ds1 fs (installs ++ mk ++ [EvOpen lock])
| at_lockf sig e ok fs' :
    dir_in ds1 db = true ->
    signal_at env = Some (S_lockf, sig) ->
    handled env e ok None fs1 fs' ->
    (writable_in env ds1 = true -> ok = true) ->
    main_shape (Raise SystemExit0) ds1 fs'
      (installs ++ mk ++ EvOpen lock :: handling env sig S_lockf None ok ++
       (if ok then [] else [EvLog WARNING locked_msg]) ++ [EvClose lock])
| contended :
    dir_in ds1 db = true ->
    busy = true ->
    main_shape (Raise SystemExit0) ds1 fs1
      (after_lock [EvLog WARNING locked_msg; EvClose lock])
| at_version sig fs' :
    dir_in ds1 db = true ->
    busy = false ->
    signal_at env = Some (gd, sig) ->
    lookup (trace_path env) fs' = Some (format_exc None) ->
    main_shape (Raise SystemExit0) ds1 fs'
      (after_lock (EvCall gd :: handling env sig gd None true ++ [EvClose lock]))
| version_escaped e :
    dir_in ds1 db = true ->
    busy = false ->
    behaviour env gd = Some e ->
    isinstance e Exception = false ->
    main_shape (Raise e) ds1 fs1 (after_lock [EvCall gd; EvClose lock])
| launched vl r extra fs' l :
    dir_in ds1 db = true ->
    busy = false ->
    version_lines vl ->
    Forall (fun d => In d (prefixes (user_data_dir env))) extra ->
    r <> Blocked ->
    launch env args db tf (at_launch vl) =
      (r, patch (at_launch vl) (ds1 ++ extra) fs' (l ++ [EvLog INFO "Done."])) ->
    launch_facts env tf (at_launch vl) r fs' l ->
    main_shape r (ds1 ++ extra) fs'
      (after_lock
         (EvCall gd :: vl ++ l ++
          EvLog INFO "Done." :: EvClose lock ::
          match r with Ret _ => [EvLog INFO (elapsed_msg env)] | _ => [] end)).

End Shapes.

(** ** Every run of [main] has one of the shapes *)

Lemma with_file_result (f : Path) (body : M unit) (w : World) (r : Res unit) (w' : World) :
  body w = (r, w') -> r <> Blocked ->
  with_file f body w =
    (match r with Ret _ => Ret tt | Raise e => Raise e | Blocked => Blocked end,
     emit (EvClose f)
       (set_lock_self match lock_self w' with
                      | Some q => if path_eqb f q then None else Some q
                      | None => None
                      end w')).
Proof.
  intros E Hnb. unfold with_file, with_cm, bind, close, ret. rewrite E.
  destruct r as [[]|e|]; [reflexivity|reflexivity|now destruct Hnb].
Qed.

Lemma isinstance_OSError_Exception (e : Raised) :
  isinstance e OSError = true -> isinstance e Exception = true.
Proof.
  unfold isinstance, issubclass. destruct (exc_type e); cbn; intros H; try discriminate H; reflexivity.
Qed.

Definition would_block : Raised :=
  mkRaised BlockingIOError "Resource temporarily unavailable" 0 "".

Lemma lockf_contended (p : Path) (w : World) :
  lock_other w = true ->
  lockf p (Z.lor LOCK_EX LOCK_NB) w =
    (Raise would_block, emit (EvLockf p (Z.lor LOCK_EX LOCK_NB)) w).
Proof. intros H. unfold lockf. cbv zeta. cbn [lock_other emit]. now rewrite H. Qed.

Lemma lockf_free (p : Path) (op : Z) (w : World) :
  lock_other w = false ->
  lockf p op w = (Ret tt, set_lock_self (Some p) (emit (EvLockf p op) w)).
Proof. intros H. unfold lockf. cbv zeta. cbn [lock_other emit]. now rewrite H. Qed.

Lemma call_cases (env : Env) (s : Site) (w : World) :
  held_elsewhere env w = true ->
  call env s w =
    (match behaviour env s with Some e => Raise e | None => Ret tt end,
     emit (EvCall s) w) \/
  exists sig e fs' ok,
    signal_at env = Some (s, sig) /\
    call env s w =
      (Raise e, patch w (dirs w) fs'
                  (EvCall s :: EvSignal sig s :: handler_events env sig (exc_info w) ok)) /\
    (ok = true -> e = SystemExit0 /\
                  lookup (trace_path env) fs' = Some (format_exc (exc_info w))) /\
    (ok = false -> isinstance e Exception = true /\ fs' = files w) /\
    (ok = false -> isinstance e OSError = true) /\
    (writable env w = true -> ok = true).
Proof.
  intros Hheld. unfold call.
  match goal with
  | |- context [at_site env s ?op _] =>
      destruct (at_site_cases env s op (emit (EvCall s) w) Hheld)
        as [E | (sig & e & fs' & ok & Hsig & E & Hok & Hko & Hos & Hw)]; rewrite E
  end.
  - left. now destruct (behaviour env s).
  - right. exists sig, e, fs', ok. repeat split; auto; try (now apply Hok); try (now apply Hko).
    f_equal. same_world.
Qed.

Lemma main_cases (env : Env) (args : Args) (ds : list Path) (fs : list (Path * string))
      (busy : bool) :
  (logging_getattr (upper (log_level args)) = None /\
   main env args (boot ds fs busy) =
     (Raise (mkRaised ValueError ("Invalid log level: " ++ log_level args) 0 ""),
      boot ds fs busy)) \/
  (exists z r ds' fs' evs,
     logging_getattr (upper (log_level args)) = Some z /\
     main env args (boot ds fs busy) = (r, final ds' fs' busy z evs) /\
     main_shape env args ds fs busy z r ds' fs' evs).
Proof.
  unfold main, logging.
  destruct (logging_getattr (upper (log_level args))) as [z|]; [right|left; split; reflexivity].
  exists z.
  fold (root_of env args). fold (db_of env args). fold (trace_file_of env args).
  fold (lock_file_of env args).
  set (root := root_of env args). set (lock := lock_file_of env args).
  set (tf := trace_file_of env args).
  unfold bind at 1. cbn [boot logger_handlers Nat.eqb].
  unfold bind at 1. unfold bind at 1.
  change (emit (EvSignalInstall SIGINT) (emit (EvSignalInstall SIGTERM) (set_logger z 1 (boot ds fs busy))))
    with (final ds fs busy z installs).
  set (w1 := final ds fs busy z installs).
  assert (Hheld1 : held_elsewhere env w1 = true) by reflexivity.
  unfold bind at 1.
  destruct (at_site_cases env S_exists_root (path_exists root) w1 Hheld1)
    as [E | (sig & e & fs' & ok & Hsig & E & Hok & Hko & Hos & Hw)]; rewrite E; clear E.
  2:{ exists (Raise e), ds, fs', (installs ++ handling env sig S_exists_root None ok).
      split; [reflexivity|]. split; [reflexivity|].
      apply at_exists_root; [exact Hsig | exact (conj Hok (conj Hko Hos)) | exact Hw]. }
  unfold path_exists.
  change (is_dir w1 root || is_file w1 root) with (present env args ds fs).
  unfold bind at 1.
  (* the root folder *)
  assert (Hroot :
    (exists e fs' evs, 
       (if negb (present env args ds fs)
        then at_site env S_makedirs_root (makedirs root 448) else ret tt) w1 =
       (Raise e, final ds fs' busy z evs) /\
       main_shape env args ds fs busy z (Raise e) ds fs' evs) \/
    (if negb (present env args ds fs)
     then at_site env S_makedirs_root (makedirs root 448) else ret tt) w1 =
    (Ret tt, final (ds1 env args ds fs) fs busy z (installs ++ mk env args ds fs))).
  { unfold ds1, mk. destruct (present env args ds fs) eqn:Epres; cbn [negb].
    - right. reflexivity.
    - destruct (at_site_cases env S_makedirs_root (makedirs root 448) w1 Hheld1)
        as [E | (sig & e & fs' & ok & Hsig & E & Hok & Hko & Hos & Hw)]; rewrite E; clear E.
      + unfold makedirs. cbv zeta.
        change (is_dir (emit (EvMakedirs root 448) w1) root
                || is_file (emit (EvMakedirs root 448) w1) root)
          with (present env args ds fs).
        rewrite Epres.
        destruct (existsb (is_file (emit (EvMakedirs root 448) w1)) (prefixes root)).
        * left. exists (os_error NotADirectoryError root), fs, (installs ++ [EvMakedirs root 448]).
          split; [reflexivity|]. now apply makedirs_failed.
        * right. reflexivity.
      + left. exists e, fs', (installs ++ handling env sig S_makedirs_root None ok).
        split; [reflexivity|].
        apply at_makedirs_root; [exact Epres | exact Hsig | exact (conj Hok (conj Hko Hos)) | exact Hw]. }
  destruct Hroot as [(e & fs' & evs & E & Hsh) | E]; rewrite E; clear E.
  { exists (Raise e), ds, fs', evs. auto. }
  set (w2 := final (ds1 env args ds fs) fs busy z (installs ++ mk env args ds fs)).
  assert (Hheld2 : held_elsewhere env w2 = true) by reflexivity.
  unfold bind at 1.
  destruct (at_site_cases env S_open_lock (open_w lock) w2 Hheld2)
    as [E | (sig & e & fs' & ok & Hsig & E & Hok & Hko & Hos & Hw)]; rewrite E; clear E.
  2:{ exists (Raise e), (ds1 env args ds fs), fs',
        (installs ++ mk env args ds fs ++ handling env sig S_open_lock None ok).
      split; [reflexivity|]. split; [unfold w2; world_simpl; unfold final; now rewrite <- app_assoc|].
      apply at_open_lock; [exact Hsig | exact (conj Hok (conj Hko Hos)) | exact Hw]. }
  unfold open_w. cbv zeta.
  change (is_dir (emit (EvOpen lock) w2) lock) with (dir_in (ds1 env args ds fs) lock).
  change (is_dir (emit (EvOpen lock) w2) (parent lock))
    with (dir_in (ds1 env args ds fs) (parent (db_of env args ++ ["gphotos.lock"]))).
  rewrite parent_snoc.
  destruct (dir_in (ds1 env args ds fs) lock) eqn:Elockdir.
  { exists (Raise (os_error IsADirectoryError lock)), (ds1 env args ds fs), fs,
      (installs ++ mk env args ds fs ++ [EvOpen lock]).
    split; [reflexivity|]. split; [unfold w2; world_simpl; unfold final; now rewrite <- app_assoc|].
    apply open_failed; [now left | reflexivity]. }
  destruct (dir_in (ds1 env args ds fs) (db_of env args)) eqn:Edb.
  2:{ destruct (is_file (emit (EvOpen lock) w2) (parent lock));
        [ exists (Raise (os_error NotADirectoryError lock))
        | exists (Raise (os_error FileNotFoundError lock)) ];
        exists (ds1 env args ds fs), fs, (installs ++ mk env args ds fs ++ [EvOpen lock]);
        (split; [reflexivity|]);
        (split; [unfold w2; world_simpl; unfold final; now rewrite <- app_assoc|]);
        (apply open_failed; [now right | reflexivity]). }
  change (set_files ((lock, "") :: unlink lock (files (emit (EvOpen lock) w2)))
                    (emit (EvOpen lock) w2))
    with (final (ds1 env args ds fs) (fs1 env args fs) busy z
                ((installs ++ mk env args ds fs) ++ [EvOpen lock])).
  set (w3 := final _ _ _ _ _).
  assert (Hheld3 : held_elsewhere env w3 = true) by reflexivity.
  set (db := db_of env args).
  set (P := (installs ++ mk env args ds fs) ++ [EvOpen lock]) in *.
  assert (HP : forall rest, P ++ rest = installs ++ mk env args ds fs ++ EvOpen lock :: rest).
  { intros rest. unfold P. now rewrite <- !app_assoc. }
  (* the lock attempt *)
  assert (Hlockstep :
    (exists fs' evs,
       locked env args db tf lock w3 =
         (Raise SystemExit0, final (ds1 env args ds fs) fs' busy z evs) /\
       main_shape env args ds fs busy z (Raise SystemExit0) (ds1 env args ds fs) fs'
                  (evs ++ [EvClose lock])) \/
    (busy = false /\
     forall k : M unit,
       (try_except (at_site env S_lockf (lockf lock (Z.lor LOCK_EX LOCK_NB)))
          (fun e => isinstance e OSError)
          (fun _ => log WARNING "EXITING: database is locked" ;; sys_exit 0) ;; k) w3 =
       k (mkWorld (ds1 env args ds fs) (fs1 env args fs) busy (Some lock) z 1%nat None
                  (after_lock env args ds fs [])))).
  { unfold locked.
    destruct (at_site_cases env S_lockf (lockf lock (Z.lor LOCK_EX LOCK_NB)) w3 Hheld3)
      as [E | (sig & e & fs' & ok & Hsig & E & Hok & Hko & Hos & Hw)].
    - destruct busy eqn:Ebusy.
      + left. exists (fs1 env args fs),
          (P ++ [EvLockf lock (Z.lor LOCK_EX LOCK_NB); EvLog WARNING locked_msg]).
        split.
        * unfold bind at 1. unfold try_except. rewrite E.
          rewrite lockf_contended by reflexivity.
          change (isinstance would_block OSError) with true. cbv iota.
          unfold bind, log, sys_exit, raise, w3.
          f_equal. world_simpl. unfold final. rewrite <- !app_assoc. reflexivity.
        * rewrite <- app_assoc, HP. cbn [app]. now apply contended.
      + right. split; [reflexivity|]. intros k.
        unfold bind at 1. unfold try_except. rewrite E.
        rewrite lockf_free by reflexivity.
        f_equal. unfold after_lock, w3. world_simpl. rewrite HP. reflexivity.
    - left. exists fs', (P ++ handling env sig S_lockf None ok ++
                          (if ok then [] else [EvLog WARNING locked_msg])).
      split.
      + unfold bind at 1. unfold try_except. rewrite E.
        destruct ok.
        * destruct (Hok eq_refl) as [-> _].
          change (isinstance SystemExit0 OSError) with false. cbv iota.
          f_equal. unfold w3. world_simpl. unfold final, handling. rewrite app_nil_r. reflexivity.
        * rewrite (Hos eq_refl). unfold bind, log, sys_exit, raise.
          f_equal. unfold w3. world_simpl. unfold final, handling.
          rewrite <- !app_assoc. reflexivity.
      + rewrite <- !app_assoc, HP.
        apply (at_lockf env args ds fs busy z sig e ok fs');
          [exact Edb | exact Hsig | exact (conj Hok (conj Hko Hos)) | exact Hw]. }
  assert (Hclose : forall r fs' dsx evs,
            r <> Blocked ->
            locked env args db tf lock w3 =
              (r, mkWorld dsx fs' busy (Some lock) z 1%nat None evs) \/
            locked env args db tf lock w3 =
              (r, mkWorld dsx fs' busy None z 1%nat None evs) ->
            (with_file lock (locked env args db tf lock) ;;
             log INFO ("Elapsed time = " ++ elapsed_time env)) w3 =
            (r, final dsx fs' busy z
                  (evs ++ EvClose lock ::
                   match r with Ret _ => [EvLog INFO (elapsed_msg env)] | _ => [] end))).
  { intros r fs' dsx evs Hnb [E | E]; unfold bind;
      rewrite (with_file_result _ _ _ _ _ E Hnb); cbn [lock_self];
      rewrite ?path_eqb_refl; (destruct r as [[]|e|]; [| |now destruct Hnb]);
      unfold log, elapsed_msg; f_equal; world_simpl; unfold final;
      rewrite <- ?app_assoc; reflexivity. }
  destruct Hlockstep as [(fs' & evs & E & Hsh) | (Ebusy & Hk)].
  { exists (Raise SystemExit0), (ds1 env args ds fs), fs', (evs ++ [EvClose lock]).
    split; [reflexivity|]. split; [|exact Hsh].
    rewrite (Hclose (Raise SystemExit0) fs' (ds1 env args ds fs) evs);
      [reflexivity | discriminate | right; exact E]. }
  set (w4 := mkWorld (ds1 env args ds fs) (fs1 env args fs) busy (Some lock) z 1%nat None
                     (after_lock env args ds fs [])) in *.
  assert (Hheld4 : forall evs,
            held_elsewhere env
              (mkWorld (ds1 env args ds fs) (fs1 env args fs) busy (Some lock) z 1%nat None evs)
            = true).
  { intros evs. unfold held_elsewhere. cbn [lock_self]. unfold lock, lock_file_of.
    now rewrite trace_is_not_lock. }
  assert (Hal : forall a b, after_lock env args ds fs a ++ b = after_lock env args ds fs (a ++ b)).
  { intros a b. unfold after_lock. rewrite <- !app_assoc. reflexivity. }
  (* the version lines *)
  assert (Hver :
    (exists r fs' evs,
       locked env args db tf lock w3 =
         (r, mkWorld (ds1 env args ds fs) fs' busy (Some lock) z 1%nat None evs) /\
       (exists e, r = Raise e) /\
       main_shape env args ds fs busy z r (ds1 env args ds fs) fs' (evs ++ [EvClose lock])) \/
    (exists vl,
       version_lines env args ds fs vl /\
       locked env args db tf lock w3 =
         launch env args db tf
           (mkWorld (ds1 env args ds fs) (fs1 env args fs) busy (Some lock) z 1%nat None
                    (after_lock env args ds fs (EvCall S_get_distribution :: vl))))).
  { assert (Hrun : locked env args db tf lock w3 =
       let (r0, w') := call env S_get_distribution w4 in
       match r0 with
       | Ret _ =>
           launch env args db tf
             (emit (EvLog INFO ("version: " ++ distribution_version env)) w')
       | Raise e =>
           if isinstance e Exception
           then launch env args db tf
                  (set_exc_info (exc_info w')
                     (emit (EvLog INFO "version not available")
                           (set_exc_info (Some e) w')))
           else (Raise e, w')
       | Blocked => (Blocked, w')
       end).
    { unfold locked. rewrite Hk. unfold bind, try_except, log.
      destruct (call env S_get_distribution w4) as [[[]|e|] w']; try reflexivity.
      destruct (isinstance e Exception); reflexivity. }
    rewrite Hrun. clear Hrun.
    destruct (call_cases env S_get_distribution w4 (Hheld4 _))
      as [E | (sig & e & fs' & ok & Hsig & E & Hok & Hko & Hos & Hw)]; rewrite E; clear E.
    - destruct (behaviour env S_get_distribution) as [e|] eqn:Eb.
      + destruct (isinstance e Exception) eqn:Eexc.
        * right. exists [EvLog INFO "version not available"]. split.
          { right. left. exists e. auto. }
          f_equal. unfold w4. world_simpl. rewrite !Hal. reflexivity.
        * left. exists (Raise e), (fs1 env args fs), (after_lock env args ds fs [EvCall S_get_distribution]).
          split; [f_equal; unfold w4; world_simpl; rewrite !Hal; reflexivity|].
          split; [now exists e|]. rewrite Hal. cbn [app].
          apply version_escaped; auto.
      + right. exists [EvLog INFO ("version: " ++ distribution_version env)]. split.
        { left. auto. }
        f_equal. unfold w4. world_simpl. rewrite !Hal. reflexivity.
    - destruct ok.
      + destruct (Hok eq_refl) as [-> Hlook].
        change (isinstance SystemExit0 Exception) with false. cbv iota.
        left. exists (Raise SystemExit0), fs',
          (after_lock env args ds fs (EvCall S_get_distribution :: handling env sig S_get_distribution None true)).
        split; [f_equal; unfold w4; world_simpl; rewrite !Hal; reflexivity|].
        split; [now exists SystemExit0|]. rewrite Hal. cbn [app].
        apply at_version; auto.
      + destruct (Hko eq_refl) as [Hexc ->]. rewrite Hexc.
        right. exists (handling env sig S_get_distribution None false ++
                       [EvLog INFO "version not available"]).
        split.
        { right. right. exists sig. repeat split; auto.
          intros Hwr. discriminate (Hw Hwr). }
        f_equal. unfold w4. world_simpl. rewrite !Hal.
        unfold handling. cbn [app]. rewrite <- ?app_assoc. reflexivity. }
  destruct Hver as [(r & fs' & evs & E & (e & Hr) & Hsh) | (vl & Hvl & E)].
  { subst r. exists (Raise e), (ds1 env args ds fs), fs', (evs ++ [EvClose lock]).
    split; [reflexivity|]. split; [|exact Hsh].
    rewrite (Hclose (Raise e) fs' (ds1 env args ds fs) evs);
      [reflexivity | discriminate | left; exact E]. }
  (* configure and launch *)
  set (w5 := mkWorld _ _ _ _ _ _ _ _) in E.
  destruct (launch_spec env args db tf w5 (Hheld4 _))
    as (r & extra & fs' & l & El & Hex & Hnb & Hfacts).
  rewrite El in E.
  exists r, (ds1 env args ds fs ++ extra), fs',
    (after_lock env args ds fs
       (EvCall S_get_distribution :: vl ++ l ++
        EvLog INFO "Done." :: EvClose lock ::
        match r with Ret _ => [EvLog INFO (elapsed_msg env)] | _ => [] end)).
  split; [reflexivity|]. split.
  - rewrite (Hclose r fs' (ds1 env args ds fs ++ extra)
               (after_lock env args ds fs (EvCall S_get_distribution :: vl ++ l ++ [EvLog INFO "Done."])));
      [ | exact Hnb | left; rewrite E; f_equal; unfold w5; world_simpl; rewrite Hal; reflexivity ].
    f_equal. unfold final. f_equal. rewrite Hal. cbn [app]. rewrite <- !app_assoc. reflexivity.
  - apply launched; auto.
Qed.

(** ** Lock contention *)

Ltac open_events :=
  unfold after_lock, handling, handler_events, mk, installs in *;
  repeat match goal with
         | |- context [if ?c then _ else _] => destruct c
         | H : context [if ?c then _ else _] |- _ => destruct c
         end;
  cbn [app existsb is_lockf is_call is_signal is_install orb] in *.

(** C3. When another process holds the lock and the run gets as far as
    the lock attempt, the attempt fails at once, the process logs the
    warning, leaves through [sys.exit(0)] and has called no collaborator:
    no setup, no data store, no phase. *)
Theorem lock_contention_exits_clean (env : Env) (args : Args) (ds : list Path)
        (fs : list (Path * string)) :
  existsb is_lockf (events (snd (main env args (boot ds fs true)))) = true ->
  fst (main env args (boot ds fs true)) = Raise SystemExit0 /\
  exit_status (fst (main env args (boot ds fs true))) = Some 0 /\
  events (snd (main env args (boot ds fs true))) =
    after_lock env args ds fs [EvLog WARNING locked_msg; EvClose (lock_file_of env args)] /\
  existsb is_call (events (snd (main env args (boot ds fs true)))) = false /\
  lock_self (snd (main env args (boot ds fs true))) = None.
Proof.
  destruct (main_cases env args ds fs true)
    as [[_ E] | (z & r & ds' & fs' & evs & _ & E & Hshape)]; rewrite E; cbn [fst snd events final boot lock_self].
  - intros H. discriminate H.
  - destruct Hshape; try discriminate; intros Hl.
    all: try (exfalso; open_events; discriminate Hl).
    repeat split. open_events; reflexivity.
Qed.

(** ** Concrete runs *)

Definition demo_dirs : list Path :=
  [["home"]; ["home"; "user"]; ["data"]; ["data"; "photos"]].

(** A collaborator failure: the albums index request is refused. *)
Definition http_error : Raised :=
  mkRaised (UserError "HttpError") "503 Service Unavailable" 0
           ("  File GoogleAlbumsSync.py, line 88, in index_album_media" ++ nl).

Definition albums_fail_env : Env :=
  mkEnv ["home"; "user"] ["home"; "user"; ".local"; "share"; "gphotos-sync"]
        ["home"; "user"; ".config"; "gphotos-sync"]
        (fun s => match s with S_phase IndexAlbums => Some http_error | _ => None end)
        false "1.0" None "0:00:01".

(** A signal while the process is inside phase [p]. *)
Definition signal_env (sig : Signal) (p : Phase) : Env :=
  mkEnv ["home"; "user"] ["home"; "user"; ".local"; "share"; "gphotos-sync"]
        ["home"; "user"; ".config"; "gphotos-sync"]
        (fun _ => None) false "1.0" (Some (S_phase p, sig)) "0:00:01".

Definition bad_level_args : Args :=
  mkArgs false "/data/photos" None "verbose" None None false false false false false
         false false false None.


(** The first position of an event of a kind. *)
Fixpoint position (f : Event -> bool) (l : list Event) : option nat :=
  match l with
  | [] => None
  | e :: l' => if f e then Some 0%nat else option_map S (position f l')
  end.

(** ** The order of the startup steps *)

(** C8, as the code has it: a run that attempts the lock has first
    installed the two signal handlers, then created the root folder when
    it was absent, then opened the lock file. *)
Theorem handlers_installed_before_lock (env : Env) (args : Args) (ds : list Path)
        (fs : list (Path * string)) (busy : bool) :
  existsb is_lockf (events (snd (main env args (boot ds fs busy)))) = true ->
  exists rest,
    events (snd (main env args (boot ds fs busy))) =
      [EvSignalInstall SIGTERM; EvSignalInstall SIGINT] ++
      (if exists_in ds fs (root_of env args) then []
       else [EvMakedirs (root_of env args) 448]) ++
      [EvOpen (lock_file_of env args);
       EvLockf (lock_file_of env args) (Z.lor LOCK_EX LOCK_NB)] ++ rest.
Proof.
  destruct (main_cases env args ds fs busy)
    as [[_ E] | (z & r & ds' & fs' & evs & _ & E & Hshape)]; rewrite E;
    cbn [fst snd events final boot].
  - intros H. discriminate H.
  - change (if exists_in ds fs (root_of env args) then []
            else [EvMakedirs (root_of env args) 448]) with (mk env args ds fs).
    destruct Hshape; intros Hl;
      try (exfalso; open_events; discriminate Hl);
      unfold after_lock, installs; eexists; reflexivity.
Qed.

Lemma handlers_installed_before_lock_witness :
  existsb is_lockf (events (snd (main demo_env demo_args (boot demo_dirs [] false)))) = true /\
  exists rest,
    events (snd (main demo_env demo_args (boot demo_dirs [] false))) =
      [EvSignalInstall SIGTERM; EvSignalInstall SIGINT] ++
      (if exists_in demo_dirs [] (root_of demo_env demo_args) then []
       else [EvMakedirs (root_of demo_env demo_args) 448]) ++
      [EvOpen (lock_file_of demo_env demo_args);
       EvLockf (lock_file_of demo_env demo_args) (Z.lor LOCK_EX LOCK_NB)] ++ rest.
Proof.
  split; [vm_compute; reflexivity|].
  apply (handlers_installed_before_lock demo_env demo_args demo_dirs [] false).
  vm_compute. reflexivity.
Defined.

(** The claim as written fails: in this run the handlers are installed
    (position 0) before the lock is attempted (position 3). *)
Lemma handlers_after_lock_counterexample :
  exists i j,
    position is_install (events (snd (main demo_env demo_args (boot demo_dirs [] false))))
      = Some i /\
    position is_lockf (events (snd (main demo_env demo_args (boot demo_dirs [] false))))
      = Some j /\
    (i < j)%nat.
Proof. exists 0%nat, 3%nat. vm_compute. repeat split. repeat constructor. Qed.

Lemma lock_contention_exits_clean_witness :
  existsb is_lockf (events (snd (main demo_env demo_args (boot demo_dirs [] true)))) = true /\
  fst (main demo_env demo_args (boot demo_dirs [] true)) = Raise SystemExit0 /\
  exit_status (fst (main demo_env demo_args (boot demo_dirs [] true))) = Some 0 /\
  events (snd (main demo_env demo_args (boot demo_dirs [] true))) =
    after_lock demo_env demo_args demo_dirs []
      [EvLog WARNING locked_msg; EvClose (lock_file_of demo_env demo_args)] /\
  existsb is_call (events (snd (main demo_env demo_args (boot demo_dirs [] true)))) = false /\
  lock_self (snd (main demo_env demo_args (boot demo_dirs [] true))) = None.
Proof.
  split; [vm_compute; reflexivity|].
  apply (lock_contention_exits_clean demo_env demo_args demo_dirs []).
  vm_compute. reflexivity.
Defined.

(** ** A database directory that does not exist *)








(** ** What the trace holds and where it lands *)

(** C4 at its failing input.  The handler never looks at the frame it is
    given: a [SIGTERM] inside [DownloadPhotos] and a [SIGINT] inside
    [IndexAlbums] leave the same trace, the one line that
    [traceback.format_exc()] gives when no exception is being handled.
    The log lines do tell the two signals apart, and both runs end with
    exit code 0. *)
Theorem signal_trace_is_not_the_stack :
  (forall env sig f1 f2 w,
     sigterm_handler env sig f1 w = sigterm_handler env sig f2 w) /\
  lookup ["home"; "user"; ".gphotos-terminated"]
         (files (snd (main (signal_env SIGTERM DownloadPhotos) demo_args
                           (boot demo_dirs [] false))))
    = Some ("NoneType: None" ++ nl)%string /\
  lookup ["home"; "user"; ".gphotos-terminated"]
         (files (snd (main (signal_env SIGINT IndexAlbums) demo_args
                           (boot demo_dirs [] false))))
    = Some ("NoneType: None" ++ nl)%string /\
  filter (fun e => match e with EvLog WARNING _ => true | _ => false end)
         (events (snd (main (signal_env SIGTERM DownloadPhotos) demo_args
                            (boot demo_dirs [] false))))
    = [EvLog WARNING killed_msg] /\
  filter (fun e => match e with EvLog WARNING _ => true | _ => false end)
         (events (snd (main (signal_env SIGINT IndexAlbums) demo_args
                            (boot demo_dirs [] false))))
    = [EvLog WARNING cancelled_msg; EvLog WARNING killed_msg] /\
  exit_status (fst (main (signal_env SIGTERM DownloadPhotos) demo_args
                         (boot demo_dirs [] false))) = Some 0 /\
  exit_status (fst (main (signal_env SIGINT IndexAlbums) demo_args
                         (boot demo_dirs [] false))) = Some 0.
Proof.
  split; [reflexivity|]. vm_compute. repeat split.
Qed.

(** C5 at its failing input.  Run from [/home/user] on the root folder
    [/data/photos], a failure inside [IndexAlbums] is logged with the
    trace announced under the root folder, and the trace is written in
    the working directory; nothing is written under the root folder. *)
Theorem trace_lands_in_working_directory :
  In (EvLog WARNING
        (nl ++ "Process failed with HttpError (stacktrace in " ++
         "/data/photos/.gphotos-terminated" ++ ").")%string)
     (events (snd (main albums_fail_env demo_args (boot demo_dirs [] false)))) /\
  lookup ["data"; "photos"; ".gphotos-terminated"]
         (files (snd (main albums_fail_env demo_args (boot demo_dirs [] false)))) = None /\
  lookup ["home"; "user"; ".gphotos-terminated"]
         (files (snd (main albums_fail_env demo_args (boot demo_dirs [] false))))
    = Some (format_exc (Some http_error)) /\
  trace_file_of albums_fail_env demo_args = ["data"; "photos"; ".gphotos-terminated"] /\
  trace_path albums_fail_env = ["home"; "user"; ".gphotos-terminated"].
Proof.
  vm_compute. repeat split. do 18 right. left. reflexivity.
Qed.

(** ** Errors before the [try] of [main] *)

(** The claim C2 as written fails: [--log-level verbose] ends the process
    with exit code 1, nothing logged and no trace written. *)
Lemma invalid_log_level_counterexample :
  exists e,
    fst (main demo_env bad_level_args (boot demo_dirs [] false)) = Raise e /\
    exc_type e = ValueError /\
    exit_status (fst (main demo_env bad_level_args (boot demo_dirs [] false))) = Some 1 /\
    events (snd (main demo_env bad_level_args (boot demo_dirs [] false))) = [].
Proof. eexists. vm_compute. repeat split. Qed.

(** ** Events of the undisturbed code *)

Lemma allowed_none (env : Env) (sites : Site -> bool) (P : Event -> bool) (l : list Event) :
  (forall e, allowed env sites e = true -> P e = false) ->
  forallb (allowed env sites) l = true -> existsb P l = false.
Proof.
  intros HP Hall. induction l as [|e l IH]; [reflexivity|].
  cbn in *. apply andb_true_iff in Hall. destruct Hall as [He Hl].
  now rewrite (HP e He), IH.
Qed.

Lemma allowed_no_signal env sites l :
  forallb (allowed env sites) l = true -> existsb is_signal l = false.
Proof. apply allowed_none. now destruct e. Qed.

Lemma allowed_no_failed_log env sites l :
  forallb (allowed env sites) l = true -> existsb is_failed_log l = false.
Proof. apply allowed_none. now destruct e. Qed.

Lemma allowed_no_elapsed_log env sites l :
  forallb (allowed env sites) l = true -> existsb is_elapsed_log l = false.
Proof. apply allowed_none. now destruct e. Qed.

Lemma allowed_no_lockf env sites l :
  forallb (allowed env sites) l = true -> existsb is_lockf l = false.
Proof. apply allowed_none. now destruct e. Qed.

Lemma allowed_no_touch env sites l :
  forallb (allowed env sites) l = true -> existsb (touches (trace_path env)) l = false.
Proof.
  apply allowed_none. destruct e; cbn [allowed touches]; intros H; try discriminate H;
    try reflexivity. now apply negb_true_iff in H.
Qed.

Lemma touches_lock (env : Env) (args : Args) :
  path_eqb (trace_path env) (lock_file_of env args) = false.
Proof. unfold lock_file_of. apply trace_is_not_lock. Qed.

Lemma lookup_fs1 (env : Env) (args : Args) (fs : list (Path * string)) :
  lookup (trace_path env) (fs1 env args fs) = lookup (trace_path env) fs.
Proof.
  unfold fs1. cbn [lookup]. rewrite touches_lock.
  apply lookup_unlink_other, touches_lock.
Qed.

Lemma existsb_after_lock (env : Env) (args : Args) ds fs (P : Event -> bool) rest :
  existsb P (after_lock env args ds fs rest) =
  existsb P installs || existsb P (mk env args ds fs) ||
  P (EvOpen (lock_file_of env args)) ||
  P (EvLockf (lock_file_of env args) (Z.lor LOCK_EX LOCK_NB)) || existsb P rest.
Proof.
  unfold after_lock. rewrite !existsb_app. cbn [existsb].
  now rewrite !orb_assoc.
Qed.

Lemma mk_no_touch env args ds fs :
  existsb (touches (trace_path env)) (mk env args ds fs) = false.
Proof. unfold mk. now destruct (present env args ds fs). Qed.

Lemma version_lines_signal env args ds fs vl :
  version_lines env args ds fs vl ->
  existsb is_signal vl = false ->
  existsb (touches (trace_path env)) vl = false /\
  existsb is_failed_log vl = false.
Proof.
  intros [[_ ->] | [(e & _ & _ & ->) | (sig & _ & _ & ->)]]; now split.
Qed.

(** ** A clean run leaves no trace *)

(** C7. A run in which no signal was handled and no failure reached the
    [except] branch of [main] neither opens nor writes the trace file, and
    leaves its content as it was.  On the two paths that do write it, the
    signal handler and the [except] branch, the file afterwards holds the
    text just written and nothing of its previous content. *)
Theorem clean_run_writes_no_trace (env : Env) (args : Args) (ds : list Path)
        (fs : list (Path * string)) (busy : bool) :
  (existsb is_signal (events (snd (main env args (boot ds fs busy)))) = false ->
   existsb is_failed_log (events (snd (main env args (boot ds fs busy)))) = false ->
   existsb (touches (trace_path env)) (events (snd (main env args (boot ds fs busy)))) = false /\
   lookup (trace_path env) (files (snd (main env args (boot ds fs busy)))) =
   lookup (trace_path env) fs) /\
  (forall sig s w,
     held_elsewhere env w = true -> writable env w = true ->
     lookup (trace_path env) (files (snd (sigterm_handler env sig s w))) =
     Some (format_exc (exc_info w))) /\
  (forall tf e w,
     held_elsewhere env w = true -> writable env w = true ->
     signal_at env = None ->
     lookup (trace_path env) (files (snd (capture env tf e w))) =
     Some (format_exc (exc_info w))).
Proof.
  split; [|split].
  - destruct (main_cases env args ds fs busy)
      as [[_ E] | (z & r & ds' & fs' & evs & _ & E & Hshape)]; rewrite E;
      cbn [fst snd events files final boot].
    + now split.
    + destruct Hshape; intros Hsig Hfail;
        try (exfalso; open_events; discriminate Hsig).
      * split; reflexivity.
      * split; [|reflexivity].
        rewrite !existsb_app, mk_no_touch. cbn [existsb touches installs].
        now rewrite touches_lock.
      * split; [|apply lookup_fs1].
        rewrite existsb_after_lock, mk_no_touch. cbn [existsb touches installs].
        now rewrite touches_lock.
      * split; [|apply lookup_fs1].
        rewrite existsb_after_lock, mk_no_touch. cbn [existsb touches installs].
        now rewrite touches_lock.
      * rewrite existsb_after_lock in Hsig, Hfail |- *. rewrite mk_no_touch.
        cbn [existsb touches installs is_signal is_failed_log] in Hsig, Hfail |- *.
        rewrite touches_lock. rewrite !existsb_app in Hsig, Hfail |- *.
        cbn [existsb touches is_signal is_failed_log orb] in Hsig, Hfail |- *.
        apply orb_false_iff in Hsig. destruct Hsig as [_ Hsig].
        apply orb_false_iff in Hsig. destruct Hsig as [Hsv Hsig].
        apply orb_false_iff in Hsig. destruct Hsig as [Hsl _].
        apply orb_false_iff in Hfail. destruct Hfail as [_ Hfail].
        apply orb_false_iff in Hfail. destruct Hfail as [_ Hfail].
        apply orb_false_iff in Hfail. destruct Hfail as [Hfl _].
        match goal with
        | H : version_lines _ _ _ _ _ |- _ =>
            destruct (version_lines_signal _ _ _ _ _ H Hsv) as [Htv _]
        end.
        rewrite Htv.
        match goal with H : launch_facts _ _ _ _ _ _ |- _ => destruct H as
            [(Hall & Hlook & _ & _)
            | [(e & lb & lc & -> & _ & _ & _)
              | (sig & s & l1 & info & ok & rest & _ & _ & -> & _)]] end.
        -- rewrite (allowed_no_touch _ _ _ Hall). split.
           ++ destruct r; reflexivity.
           ++ rewrite Hlook. apply lookup_fs1.
        -- exfalso. rewrite existsb_app in Hfl. cbn [existsb is_failed_log] in Hfl.
           unfold failed_msg in Hfl. cbn [String.prefix nl append] in Hfl.
           rewrite orb_true_r in Hfl. discriminate Hfl.
        -- exfalso. rewrite existsb_app in Hsl. cbn [existsb is_signal] in Hsl.
           rewrite orb_true_r in Hsl. discriminate Hsl.
  - intros sig s w Hheld Hw.
    destruct (sigterm_handler_spec env sig s w Hheld) as (e & fs' & ok & E & Hok & _ & _ & Hwr).
    rewrite E. cbn [snd files patch]. now apply Hok, Hwr.
  - intros tf e w Hheld Hw Hnone.
    destruct (capture_spec env tf e w Hheld)
      as (r & fs' & lc & E & _ & [(_ & _ & Hlook) | [(e' & _ & _ & _ & _ & Hnw) | (sig & s & Hs & _)]]);
      rewrite E; cbn [snd files patch].
    + exact Hlook.
    + rewrite Hw in Hnw. discriminate Hnw.
    + rewrite Hnone in Hs. discriminate Hs.
Qed.

Lemma clean_run_writes_no_trace_witness :
  existsb (touches (trace_path demo_env))
          (events (snd (main demo_env demo_args (boot demo_dirs [] false)))) = false /\
  lookup (trace_path demo_env)
         (files (snd (main demo_env demo_args (boot demo_dirs [] false)))) =
  lookup (trace_path demo_env) [].
Proof.
  apply (proj1 (clean_run_writes_no_trace demo_env demo_args demo_dirs [] false));
    vm_compute; reflexivity.
Defined.

(** ** Leaving through [SystemExit]: the signal and the lock that is held *)

Lemma count_app (f : Event -> bool) (a b : list Event) :
  count f (a ++ b) = (count f a + count f b)%nat.
Proof. unfold count. now rewrite filter_app, length_app. Qed.

Lemma count_none (f : Event -> bool) (l : list Event) :
  existsb f l = false -> count f l = 0%nat.
Proof.
  unfold count. induction l as [|e l IH]; [reflexivity|].
  cbn. intros H. apply orb_false_iff in H. destruct H as [He Hl].
  rewrite He. now apply IH.
Qed.

Lemma allowed_no_open env sites p l :
  forallb (allowed env sites) l = true -> existsb (opens p) l = false.
Proof. apply allowed_none. now destruct e. Qed.

Lemma writable_in_app (env : Env) (ds extra : list Path) (q : Path) :
  writable_in env ds = true -> off_trace env q = true ->
  Forall (fun d => In d (prefixes q)) extra ->
  writable_in env (ds ++ extra) = true.
Proof.
  unfold writable_in, off_trace. intros Hw Hoff Hall.
  apply andb_true_iff in Hw. destruct Hw as [Hc Ht].
  apply negb_true_iff in Ht. apply negb_true_iff in Hoff.
  rewrite !dir_in_app, Hc, Ht.
  rewrite (dir_in_absent extra (trace_path env) q); auto using trace_path_not_root.
Qed.

Lemma writable_ds1 (env : Env) (args : Args) (ds : list Path) (fs : list (Path * string)) :
  writable_in env ds = true -> off_trace env (root_of env args) = true ->
  writable_in env (ds1 env args ds fs) = true.
Proof.
  intros Hw Hoff. unfold ds1. destruct (present env args ds fs); [assumption|].
  apply writable_in_app with (q := root_of env args); auto using made_prefixes.
Qed.

(** The events of a handler that wrote its trace. *)
Lemma handler_events_facts (env : Env) (args : Args) (sig : Signal) (info : option Raised) :
  existsb is_failed_log (handler_events env sig info true) = false /\
  existsb is_elapsed_log (handler_events env sig info true) = false /\
  count (opens (trace_path env)) (handler_events env sig info true) = 1%nat /\
  existsb (opens (lock_file_of env args)) (handler_events env sig info true) = false.
Proof.
  unfold handler_events, count.
  destruct (Signal_eqb sig SIGINT);
    cbn [app existsb filter is_failed_log is_elapsed_log opens length orb];
    rewrite path_eqb_refl; unfold lock_file_of; rewrite lock_is_not_trace;
    repeat split.
Qed.

Lemma mk_facts (env : Env) (args : Args) ds fs (P : Event -> bool) :
  (forall p m, P (EvMakedirs p m) = false) -> existsb P (mk env args ds fs) = false.
Proof. intros H. unfold mk. destruct (present env args ds fs); cbn; [reflexivity|]. now rewrite H. Qed.

Lemma version_lines_facts env args ds fs vl :
  version_lines env args ds fs vl ->
  writable_in env (ds1 env args ds fs) = true ->
  existsb is_signal vl = false /\
  existsb is_failed_log vl = false /\
  existsb is_elapsed_log vl = false /\
  existsb (opens (trace_path env)) vl = false.
Proof.
  intros [[_ ->] | [(e & _ & _ & ->) | (sig & _ & Hnw & _)]] Hw;
    [now repeat split .. | now destruct (Hnw Hw)].
Qed.

(** What the two [SystemExit] paths have in common. *)
Definition bypasses_capture (env : Env) (args : Args) (run : Res unit * World) : Prop :=
  fst run = Raise SystemExit0 /\
  existsb is_failed_log (events (snd run)) = false /\
  existsb is_elapsed_log (events (snd run)) = false /\
  count (opens (trace_path env)) (events (snd run)) =
    (if existsb is_signal (events (snd run)) then 1 else 0)%nat /\
  lock_self (snd run) = None /\
  (existsb (opens (lock_file_of env args)) (events (snd run)) = true ->
   exists pre, events (snd run) = pre ++ [EvClose (lock_file_of env args)]).

Lemma count_cons (f : Event -> bool) (e : Event) (l : list Event) :
  count f (e :: l) = ((if f e then 1 else 0) + count f l)%nat.
Proof. unfold count. cbn. now destruct (f e). Qed.

Lemma count_nil (f : Event -> bool) : count f [] = 0%nat.
Proof. reflexivity. Qed.

Lemma opens_lock_trace (env : Env) (args : Args) :
  path_eqb (lock_file_of env args) (trace_path env) = false.
Proof. unfold lock_file_of. apply lock_is_not_trace. Qed.

Lemma locked_not_failed : String.prefix (nl ++ "Process failed") locked_msg = false.
Proof. reflexivity. Qed.

Lemma ends_app (a b : list Event) (e : Event) :
  (exists pre, b = pre ++ [e]) -> exists pre, a ++ b = pre ++ [e].
Proof. intros (pre & ->). exists (a ++ pre). now rewrite app_assoc. Qed.

Lemma ends_cons (x : Event) (b : list Event) (e : Event) :
  (exists pre, b = pre ++ [e]) -> exists pre, x :: b = pre ++ [e].
Proof. intros (pre & ->). now exists (x :: pre). Qed.

Lemma ends_single (e : Event) : exists pre, [e] = pre ++ [e].
Proof. now exists []. Qed.

Ltac ends := repeat first [apply ends_single | apply ends_cons | apply ends_app].

Ltac split_events :=
  unfold after_lock, installs, handling in *;
  repeat rewrite ?existsb_app, ?count_app, ?count_cons, ?count_nil in *;
  cbn [existsb is_failed_log is_elapsed_log is_signal is_lockf opens orb] in *;
  rewrite ?touches_lock, ?opens_lock_trace, ?path_eqb_refl, ?locked_not_failed in *.

(** Events that are neither of the two log lines nor touch the trace. *)
Definition mute (env : Env) (l : list Event) : Prop :=
  existsb is_failed_log l = false /\
  existsb is_elapsed_log l = false /\
  existsb (opens (trace_path env)) l = false.

Lemma mute_nil (env : Env) : mute env [].
Proof. now repeat split. Qed.

Lemma mute_app (env : Env) (a b : list Event) : mute env a -> mute env b -> mute env (a ++ b).
Proof.
  intros (Ha1 & Ha2 & Ha3) (Hb1 & Hb2 & Hb3). unfold mute.
  rewrite !existsb_app, Ha1, Ha2, Ha3, Hb1, Hb2, Hb3. now repeat split.
Qed.

Lemma mute_cons (env : Env) (e : Event) (l : list Event) :
  is_failed_log e = false -> is_elapsed_log e = false ->
  opens (trace_path env) e = false ->
  mute env l -> mute env (e :: l).
Proof.
  intros H1 H2 H3 (Hl1 & Hl2 & Hl3). unfold mute. cbn [existsb].
  rewrite H1, H2, H3, Hl1, Hl2, Hl3. now repeat split.
Qed.

Lemma mute_allowed (env : Env) (sites : Site -> bool) (l : list Event) :
  forallb (allowed env sites) l = true -> mute env l.
Proof.
  intros H. repeat split;
    eauto using allowed_no_failed_log, allowed_no_elapsed_log, allowed_no_open.
Qed.

Lemma mute_mk (env : Env) (args : Args) ds fs : mute env (mk env args ds fs).
Proof. repeat split; now apply mk_facts. Qed.

Lemma mute_installs (env : Env) : mute env installs.
Proof. now repeat split. Qed.

Lemma mute_version_lines env args ds fs vl :
  version_lines env args ds fs vl ->
  writable_in env (ds1 env args ds fs) = true ->
  mute env vl /\ existsb is_signal vl = false.
Proof.
  intros Hvl Hw. destruct (version_lines_facts _ _ _ _ _ Hvl Hw) as (H1 & H2 & H3 & H4).
  now repeat split.
Qed.

Lemma mute_after_lock env args ds fs rest :
  mute env rest -> mute env (after_lock env args ds fs rest).
Proof.
  intros H. unfold after_lock.
  apply mute_app; [apply mute_installs|]. apply mute_app; [apply mute_mk|].
  apply mute_cons; try reflexivity; [cbn [opens]; apply touches_lock|].
  apply mute_cons; try reflexivity. exact H.
Qed.

(** A run made of mute events around one handler that wrote its trace. *)
Lemma signal_once (env : Env) (args : Args) (a b : list Event) (sig : Signal)
      (s : Site) (info : option Raised) :
  mute env a -> mute env b ->
  existsb is_failed_log (a ++ EvSignal sig s :: handler_events env sig info true ++ b) = false /\
  existsb is_elapsed_log (a ++ EvSignal sig s :: handler_events env sig info true ++ b) = false /\
  count (opens (trace_path env))
        (a ++ EvSignal sig s :: handler_events env sig info true ++ b) = 1%nat /\
  existsb is_signal (a ++ EvSignal sig s :: handler_events env sig info true ++ b) = true.
Proof.
  intros (Ha1 & Ha2 & Ha3) (Hb1 & Hb2 & Hb3).
  destruct (handler_events_facts env args sig info) as (Hh1 & Hh2 & Hh3 & _).
  rewrite !existsb_app, !count_app. cbn [existsb]. rewrite !existsb_app, count_cons, count_app.
  rewrite Ha1, Ha2, Hb1, Hb2, Hh1, Hh2, Hh3.
  rewrite (count_none _ _ Ha3), (count_none _ _ Hb3).
  cbn [is_failed_log is_elapsed_log is_signal opens orb Nat.add].
  rewrite orb_true_r. now repeat split.
Qed.

Lemma signal_shape_facts (env : Env) (args : Args) (a b : list Event) (sig : Signal)
      (s : Site) (info : option Raised) :
  mute env a -> mute env b ->
  (existsb (opens (lock_file_of env args)) (a ++ b) = true ->
   exists pre, b = pre ++ [EvClose (lock_file_of env args)]) ->
  existsb is_failed_log (a ++ handling env sig s info true ++ b) = false /\
  existsb is_elapsed_log (a ++ handling env sig s info true ++ b) = false /\
  count (opens (trace_path env)) (a ++ handling env sig s info true ++ b) = 1%nat /\
  (existsb (opens (lock_file_of env args)) (a ++ handling env sig s info true ++ b) = true ->
   exists pre, a ++ handling env sig s info true ++ b =
               pre ++ [EvClose (lock_file_of env args)]).
Proof.
  intros Ha Hb Hends. unfold handling. cbn [app].
  destruct (signal_once env args a b sig s info Ha Hb) as (F1 & F2 & F3 & _).
  repeat split; auto.
  intros Hop. apply ends_app, ends_cons, ends_app, Hends.
  rewrite !existsb_app in Hop |- *. cbn [existsb opens] in Hop.
  rewrite existsb_app in Hop.
  destruct (handler_events_facts env args sig info) as (_ & _ & _ & Hh).
  rewrite Hh in Hop. cbn [orb] in Hop. exact Hop.
Qed.

Lemma installs_lockless (env : Env) (args : Args) :
  existsb (opens (lock_file_of env args)) installs = false.
Proof. reflexivity. Qed.

Lemma mk_lockless (env : Env) (args : Args) ds fs :
  existsb (opens (lock_file_of env args)) (mk env args ds fs) = false.
Proof. now apply mk_facts. Qed.

Lemma no_signal_run (env : Env) (args : Args) ds fs (vl l : list Event) (r : Res unit) :
  existsb is_signal vl = false -> existsb is_signal l = false ->
  existsb is_signal
    (after_lock env args ds fs
       (EvCall S_get_distribution :: vl ++ l ++
        EvLog INFO "Done." :: EvClose (lock_file_of env args) ::
        match r with Ret _ => [EvLog INFO (elapsed_msg env)] | _ => [] end)) = false.
Proof.
  intros Hv Hl. rewrite existsb_after_lock. cbn [existsb is_signal installs orb].
  rewrite (mk_facts env args ds fs) by reflexivity.
  rewrite !existsb_app, Hv, Hl. now destruct r.
Qed.

(** C9, as the code has it: the [SystemExit] raised when the lock is held by
    another process
    and the one raised by the signal handler are not caught by the
    [except Exception] of [main]: the run ends with that [SystemExit(0)],
    logs neither "Process failed" nor the elapsed time, and the trace is
    written by the handler alone (once on the signal path, never on the
    other); the lock file, once opened, is closed as the last act of the
    run and the lock is no longer held.  The signal path is that of a
    signal handled anywhere but inside the [except] branch itself, with a
    trace file that can be written and a data store whose [__exit__]
    returns nothing true. *)
Theorem exits_bypass_capture (env : Env) (args : Args) (ds : list Path)
        (fs : list (Path * string)) (busy : bool) :
  (busy = true /\
   existsb is_lockf (events (snd (main env args (boot ds fs busy)))) = true) \/
  (existsb is_signal (events (snd (main env args (boot ds fs busy)))) = true /\
   (forall sig, signal_at env <> Some (S_open_trace, sig)) /\
   (forall sig, signal_at env <> Some (S_write_trace, sig)) /\
   writable_in env ds = true /\
   off_trace env (root_of env args) = true /\
   off_trace env (user_data_dir env) = true /\
   plain_exit env) ->
  bypasses_capture env args (main env args (boot ds fs busy)).
Proof.
  unfold bypasses_capture.
  destruct (main_cases env args ds fs busy)
    as [[_ E] | (z & r & ds' & fs' & evs & _ & E & Hshape)]; rewrite E;
    cbn [fst snd events files final boot lock_self].
  { intros [[_ H] | [H _]]; discriminate H. }
  intros [[Hbusy Hlock] | (Hsig & Hopen & Hwrite & Hw & Hroot & Hudd & Hplain)].
  - (* the lock is held by another process *)
    destruct Hshape; try (exfalso; open_events; discriminate Hlock);
      try (rewrite Hbusy in *; discriminate).
    split_events. rewrite !(mk_facts env args ds fs) by reflexivity.
    rewrite (count_none (opens (trace_path env)) (mk env args ds fs)
               (mk_facts env args ds fs (opens (trace_path env)) (fun _ _ => eq_refl))).
    cbn [orb Nat.add]. repeat split.
    intros _. ends.
  - (* a signal was handled *)
    rewrite Hsig.
    assert (Hw1 : writable_in env (ds1 env args ds fs) = true) by now apply writable_ds1.
    assert (Hlockless : forall sig info,
              existsb (opens (lock_file_of env args)) (handler_events env sig info true) = false)
      by (intros sig info; apply (handler_events_facts env args sig info)).
    destruct Hshape;
      try (exfalso; open_events; discriminate Hsig).
    + (* at the root folder test *)
      match goal with H : writable_in env ds = true -> ok = true |- _ => rewrite (H Hw) in * end.
      match goal with H : handled _ _ _ _ _ _ |- _ => destruct H as (Hok & _) end.
      destruct (Hok eq_refl) as [-> _].
      rewrite <- (app_nil_r (handling env sig S_exists_root None true)).
      split; [reflexivity|].
      destruct (signal_shape_facts env args installs [] sig S_exists_root None
                  (mute_installs env) (mute_nil env)) as (F1 & F2 & F3 & F4); auto.
      rewrite app_nil_r. intros Habs. discriminate Habs.
    + (* at the making of the root folder *)
      match goal with H : writable_in env ds = true -> ok = true |- _ => rewrite (H Hw) in * end.
      match goal with H : handled _ _ _ _ _ _ |- _ => destruct H as (Hok & _) end.
      destruct (Hok eq_refl) as [-> _].
      rewrite <- (app_nil_r (handling env sig S_makedirs_root None true)).
      split; [reflexivity|].
      destruct (signal_shape_facts env args installs [] sig S_makedirs_root None
                  (mute_installs env) (mute_nil env)) as (F1 & F2 & F3 & F4); auto.
      rewrite app_nil_r. intros Habs. discriminate Habs.
    + (* at the opening of the lock file *)
      match goal with H : writable_in env _ = true -> ok = true |- _ => rewrite (H Hw1) in * end.
      match goal with H : handled _ _ _ _ _ _ |- _ => destruct H as (Hok & _) end.
      destruct (Hok eq_refl) as [-> _].
      rewrite <- (app_nil_r (handling env sig S_open_lock None true)).
      rewrite app_assoc.
      split; [reflexivity|].
      destruct (signal_shape_facts env args (installs ++ mk env args ds fs) [] sig
                  S_open_lock None
                  (mute_app _ _ _ (mute_installs env) (mute_mk env args ds fs))
                  (mute_nil env)) as (F1 & F2 & F3 & F4); auto.
      rewrite app_nil_r, existsb_app, installs_lockless, mk_lockless.
      intros Habs. discriminate Habs.
    + (* at the lock attempt *)
      match goal with H : writable_in env _ = true -> ok = true |- _ => rewrite (H Hw1) in * end.
      split; [reflexivity|].
      set (lock := lock_file_of env args) in *.
      replace (installs ++ mk env args ds fs ++
               EvOpen lock :: handling env sig S_lockf None true ++ [] ++ [EvClose lock])
        with ((installs ++ mk env args ds fs ++ [EvOpen lock]) ++
              handling env sig S_lockf None true ++ [EvClose lock])
        by (rewrite <- !app_assoc; reflexivity).
      assert (Ha : mute env (installs ++ mk env args ds fs ++ [EvOpen lock])).
      { apply mute_app; [apply mute_installs|]. apply mute_app; [apply mute_mk|].
        apply mute_cons; try reflexivity; [cbn [opens]; apply touches_lock | apply mute_nil]. }
      assert (Hb : mute env [EvClose lock]) by (now repeat split).
      destruct (signal_shape_facts env args _ _ sig S_lockf None Ha Hb)
        as (F1 & F2 & F3 & F4); auto.
      intros _. apply ends_single.
    + (* inside the version lookup *)
      split; [reflexivity|].
      set (lock := lock_file_of env args) in *.
      replace (after_lock env args ds fs
                 (EvCall S_get_distribution ::
                  handling env sig S_get_distribution None true ++ [EvClose lock]))
        with (after_lock env args ds fs [EvCall S_get_distribution] ++
              handling env sig S_get_distribution None true ++ [EvClose lock])
        by (unfold after_lock; rewrite <- !app_assoc; reflexivity).
      assert (Ha : mute env (after_lock env args ds fs [EvCall S_get_distribution])).
      { apply mute_after_lock. now repeat split. }
      assert (Hb : mute env [EvClose lock]) by (now repeat split).
      destruct (signal_shape_facts env args _ _ sig S_get_distribution None Ha Hb)
        as (F1 & F2 & F3 & F4); auto.
      intros _. apply ends_single.
    + (* inside "configure and launch" *)
      match goal with
      | H : version_lines _ _ _ _ _ |- _ =>
          destruct (mute_version_lines _ _ _ _ _ H Hw1) as (Hvl & Hvs)
      end.
      match goal with
      | H : launch_facts _ _ _ _ _ _ |- _ =>
          destruct H as
            [(Hall & _)
            | [(e & lb & lc & -> & Hlb & _ & Hc)
              | (sig & s & l1 & info & ok & rest & Hs & Hin & -> & Hl1 & Hok & Hwok)]]
      end.
      * exfalso. rewrite no_signal_run in Hsig; [discriminate Hsig | assumption |].
        now apply allowed_no_signal with (env := env) (sites := launch_sites).
      * exfalso.
        destruct Hc as [(_ & -> & _) | [(e' & _ & _ & -> & _) | (sig & s & Hs & [-> | ->] & _)]].
        -- rewrite no_signal_run in Hsig; [discriminate Hsig | assumption |].
           rewrite existsb_app, (allowed_no_signal _ _ _ Hlb). reflexivity.
        -- rewrite no_signal_run in Hsig; [discriminate Hsig | assumption |].
           rewrite existsb_app, (allowed_no_signal _ _ _ Hlb). reflexivity.
        -- now apply (Hopen sig).
        -- now apply (Hwrite sig).
      * assert (Hoktrue : ok = true) by (apply Hwok; [exact Hw1 | exact Hudd]).
        subst ok. destruct (Hok eq_refl Hplain) as (-> & Hrest & _).
        split; [reflexivity|].
        set (lock := lock_file_of env args) in *.
        replace (after_lock env args ds fs
                   (EvCall S_get_distribution :: vl ++
                    (l1 ++ EvSignal sig s :: handler_events env sig info true ++ rest) ++
                    [EvLog INFO "Done."; EvClose lock]))
          with (after_lock env args ds fs (EvCall S_get_distribution :: vl ++ l1) ++
                handling env sig s info true ++
                (rest ++ [EvLog INFO "Done."; EvClose lock]))
          by (unfold after_lock, handling; rewrite <- !app_assoc; cbn [app];
              rewrite <- !app_assoc; reflexivity).
        assert (Ha : mute env (after_lock env args ds fs
                                 (EvCall S_get_distribution :: vl ++ l1))).
        { apply mute_after_lock. apply mute_cons; try reflexivity.
          apply mute_app; [exact Hvl | now apply mute_allowed with (sites := launch_sites)]. }
        assert (Hb : mute env (rest ++ [EvLog INFO "Done."; EvClose lock])).
        { apply mute_app; [now apply mute_allowed with (sites := launch_sites)|].
          now repeat split. }
        destruct (signal_shape_facts env args _ _ sig s info Ha Hb)
          as (F1 & F2 & F3 & F4); auto.
        intros _. ends.
Qed.

Lemma exits_bypass_capture_witness :
  bypasses_capture demo_env demo_args (main demo_env demo_args (boot demo_dirs [] true)) /\
  bypasses_capture (signal_env SIGTERM DownloadPhotos) demo_args
                   (main (signal_env SIGTERM DownloadPhotos) demo_args
                         (boot demo_dirs [] false)).
Proof.
  split.
  - apply (exits_bypass_capture demo_env demo_args demo_dirs [] true).
    left. split; vm_compute; reflexivity.
  - apply (exits_bypass_capture (signal_env SIGTERM DownloadPhotos) demo_args
                                demo_dirs [] false).
    right. repeat split; try (vm_compute; reflexivity); intros sig H; discriminate H.
Defined.

(** ** Failures after the lock is taken *)

Lemma in_after_lock (env : Env) (args : Args) ds fs (x : Event) (rest : list Event) :
  In x rest -> In x (after_lock env args ds fs rest).
Proof.
  intros H. unfold after_lock. apply in_or_app. right. apply in_or_app. right.
  right. right. exact H.
Qed.

Lemma no_failed_log_run (env : Env) (args : Args) ds fs (vl l : list Event) (r : Res unit) :
  existsb is_failed_log vl = false -> existsb is_failed_log l = false ->
  existsb is_failed_log
    (after_lock env args ds fs
       (EvCall S_get_distribution :: vl ++ l ++
        EvLog INFO "Done." :: EvClose (lock_file_of env args) ::
        match r with Ret _ => [EvLog INFO (elapsed_msg env)] | _ => [] end)) = false.
Proof.
  intros Hv Hl. rewrite existsb_after_lock. cbn [existsb is_failed_log installs orb].
  rewrite (mk_facts env args ds fs) by reflexivity.
  rewrite !existsb_app, Hv, Hl. now destruct r.
Qed.

(** ** A failure inside [IndexAlbums] *)

Lemma call_unsignalled (env : Env) (s : Site) (w : World) :
  signal_at env = None ->
  call env s w =
    (match behaviour env s with Some e => Raise e | None => Ret tt end,
     emit (EvCall s) w).
Proof.
  intros Hnone. apply call_elsewhere. intros sig. rewrite Hnone. discriminate.
Qed.



(** The [except] branch when no signal arrives and the trace file can be
    written. *)
Lemma capture_writable (env : Env) (tf : Path) (e : Raised) (w : World) :
  held_elsewhere env w = true -> signal_at env = None -> writable env w = true ->
  exists fs',
    capture env tf e w =
      (Ret tt, patch w (dirs w) fs'
                 [EvLog WARNING (failed_msg tf e); EvOpen (trace_path env);
                  EvWrite (trace_path env) (format_exc (exc_info w));
                  EvClose (trace_path env)]) /\
    lookup (trace_path env) fs' = Some (format_exc (exc_info w)).
Proof.
  intros Hheld Hnone Hw.
  destruct (capture_spec env tf e w Hheld) as (r & fs' & lc & E & _ & Hc).
  destruct Hc as [(-> & -> & Hlook) | [(e' & _ & _ & _ & _ & Hnw) | (sig & s & Hs & _)]].
  - now exists fs'.
  - rewrite Hw in Hnw. discriminate Hnw.
  - rewrite Hnone in Hs. discriminate Hs.
Qed.




Lemma held_at_launch (env : Env) (args : Args) ds fs busy z vl :
  held_elsewhere env (at_launch env args ds fs busy z vl) = true.
Proof.
  unfold held_elsewhere, at_launch. cbn [lock_self]. unfold lock_file_of.
  now rewrite trace_is_not_lock.
Qed.



(** * Further properties of [Main.py]

    ** What every statement of a computation keeps

    A relation [R] between the world before and the world after, kept by
    each primitive step, is kept by the whole computation: the control
    structures of the file add nothing of their own but the exception they
    make current. *)

(** The values a computation can return. *)
Definition yields {A} (m : M A) (Q : A -> Prop) : Prop :=
  forall w a w', m w = (Ret a, w') -> Q a.

Lemma yields_open_w (p : Path) : yields (open_w p) (eq p).
Proof.
  intros w a w'. unfold open_w. cbv zeta.
  repeat match goal with |- context [if ?c then _ else _] => destruct c end;
    intros H; inversion H; reflexivity.
Qed.

Lemma handler_never_returns (env : Env) (sig : Signal) (s : Site) (w : World) :
  forall a w', sigterm_handler env sig s w <> (Ret a, w').
Proof.
  intros a w'. unfold sigterm_handler, bind, sys_exit, raise.
  repeat match goal with
         | |- context [match ?m ?x with _ => _ end] =>
             let r := fresh "r" in let v := fresh "v" in
             destruct (m x) as [[r|r|] v]
         end; discriminate.
Qed.

Lemma yields_at_site {A} (env : Env) (s : Site) (op : M A) (Q : A -> Prop) :
  yields op Q -> yields (at_site env s op) Q.
Proof.
  intros Hop w a w'. unfold at_site.
  destruct (signal_at env) as [[s' sig]|]; [|apply Hop].
  destruct (Site_eqb s' s); [|apply Hop].
  unfold bind.
  destruct (sigterm_handler env sig s (emit (EvSignal sig s) w)) as [[[]|e|] w1] eqn:E;
    try discriminate.
  intros _. exact (match handler_never_returns env sig s _ tt w1 E with end).
Qed.

Section Keeps.

Variable R : World -> World -> Prop.
Hypothesis R_refl : forall w, R w w.
Hypothesis R_trans : forall a b c, R a b -> R b c -> R a c.
Hypothesis R_exc : forall i w, R w (set_exc_info i w).

Definition keeps {A} (m : M A) : Prop := forall w, R w (snd (m w)).

Lemma keeps_ret {A} (a : A) : keeps (ret a).
Proof. intros w. apply R_refl. Qed.

Lemma keeps_raise {A} (e : Raised) : keeps (@raise A e).
Proof. intros w. apply R_refl. Qed.

Lemma keeps_sys_exit {A} (c : Z) : keeps (@sys_exit A c).
Proof. intros w. apply R_refl. Qed.

Lemma keeps_path_exists (p : Path) : keeps (path_exists p).
Proof. intros w. apply R_refl. Qed.

Lemma keeps_format_exc_now : keeps format_exc_now.
Proof. intros w. apply R_refl. Qed.

Lemma keeps_bind_yields {A B} (m : M A) (k : A -> M B) (Q : A -> Prop) :
  yields m Q -> keeps m -> (forall a, Q a -> keeps (k a)) -> keeps (bind m k).
Proof.
  intros Hy Hm Hk w. unfold bind. specialize (Hm w).
  destruct (m w) as [[a|e|] w'] eqn:E; cbn [snd] in *; try exact Hm.
  apply R_trans with w'; [exact Hm|]. apply Hk. now apply (Hy w a w').
Qed.

Lemma keeps_bind {A B} (m : M A) (k : A -> M B) :
  keeps m -> (forall a, keeps (k a)) -> keeps (bind m k).
Proof.
  intros Hm Hk. apply keeps_bind_yields with (Q := fun _ => True); auto.
  intros w a w' _. exact I.
Qed.

Lemma keeps_try_except {A} (body : M A) (catches : Raised -> bool)
      (handler : Raised -> M A) :
  keeps body -> (forall e, keeps (handler e)) -> keeps (try_except body catches handler).
Proof.
  intros Hb Hh w. unfold try_except. specialize (Hb w).
  destruct (body w) as [[a|e|] w'] eqn:E; cbn [snd] in *; try exact Hb.
  destruct (catches e); [|exact Hb].
  specialize (Hh e (set_exc_info (Some e) w')).
  destruct (handler e (set_exc_info (Some e) w')) as [r w'']. cbn [snd] in *.
  apply R_trans with w'; [exact Hb|].
  apply R_trans with (set_exc_info (Some e) w'); [apply R_exc|].
  apply R_trans with w''; [exact Hh | apply R_exc].
Qed.

Lemma keeps_try_finally {A} (body : M A) (fin : M unit) :
  keeps body -> keeps fin -> keeps (try_finally body fin).
Proof.
  intros Hb Hf w. unfold try_finally. specialize (Hb w).
  destruct (body w) as [[a|e|] w'] eqn:E; cbn [snd] in *; try exact Hb;
    specialize (Hf w'); destruct (fin w') as [[[]|e'|] w'']; cbn [snd] in *;
    now apply R_trans with w'.
Qed.

Lemma keeps_with_cm (exit : option Raised -> M bool) (body : M unit) :
  keeps body -> (forall o, keeps (exit o)) -> keeps (with_cm exit body).
Proof.
  intros Hb Hx w. unfold with_cm. specialize (Hb w).
  destruct (body w) as [[[]|e|] w'] eqn:E; cbn [snd] in *; try exact Hb.
  - specialize (Hx None w'). destruct (exit None w') as [[b|e'|] w'']; cbn [snd] in *;
      now apply R_trans with w'.
  - specialize (Hx (Some e) (set_exc_info (Some e) w')).
    assert (Hw' : forall w'', R (set_exc_info (Some e) w') w'' -> R w w'').
    { intros w'' H. apply R_trans with w'; [exact Hb|].
      apply R_trans with (set_exc_info (Some e) w'); [apply R_exc | exact H]. }
    destruct (exit (Some e) (set_exc_info (Some e) w')) as [[[|]|e'|] w''];
      cbn [snd] in *; try (now apply Hw');
      (apply R_trans with w''; [now apply Hw' | apply R_exc]).
Qed.

Lemma keeps_with_file (f : Path) (body : M unit) :
  keeps (close f) -> keeps body -> keeps (with_file f body).
Proof.
  intros Hc Hb. unfold with_file. apply keeps_with_cm; [exact Hb|].
  intros o. apply keeps_bind; [exact Hc | intros a; apply keeps_ret].
Qed.

End Keeps.

(** ** The primitive steps of [Main.py]

    Every system call, log line and collaborator call that the file makes,
    with the arguments it makes it with.  [top] tells whether the steps of
    [main] outside "configure and launch" are included. *)
Inductive step (top : bool) (env : Env) (args : Args) : forall A : Type, M A -> Prop :=
| st_signal sig s :
    step top env args unit (fun w => (Ret tt, emit (EvSignal sig s) w))
| st_call s :
    launch_sites s = true ->
    step top env args unit (fun w => (Ret tt, emit (EvCall s) w))
| st_log_cancelled : step top env args unit (log WARNING cancelled_msg)
| st_log_killed : step top env args unit (log WARNING killed_msg)
| st_open_trace : step top env args Path (open_w (trace_path env))
| st_write_trace text : step top env args unit (write (trace_path env) text)
| st_close_trace : step top env args unit (close (trace_path env))
| st_remove :
    new_token args = true ->
    step top env args unit (os_remove (user_data_dir env ++ ["credentials.json"]))
| st_makedirs_user_data : step top env args unit (makedirs (user_data_dir env) 511)
| st_configure :
    step top env args unit
      (fun w => (Ret tt, emit (EvConfigure (start_date args) (end_date args)
                                           (negb (skip_video args))) w))
| st_log_failed e :
    step top env args unit (log WARNING (failed_msg (trace_file_of env args) e))
| st_log_done : step top env args unit (log INFO "Done.")
| st_logging : top = true -> step top env args unit (logging args)
| st_install sig :
    top = true ->
    step top env args unit (fun w => (Ret tt, emit (EvSignalInstall sig) w))
| st_makedirs_root : top = true -> step top env args unit (makedirs (root_of env args) 448)
| st_open_lock : top = true -> step top env args Path (open_w (lock_file_of env args))
| st_lockf :
    top = true ->
    step top env args unit (lockf (lock_file_of env args) (Z.lor LOCK_EX LOCK_NB))
| st_close_lock : top = true -> step top env args unit (close (lock_file_of env args))
| st_log_locked : top = true -> step top env args unit (log WARNING locked_msg)
| st_call_version :
    top = true ->
    step top env args unit (fun w => (Ret tt, emit (EvCall S_get_distribution) w))
| st_log_version :
    top = true ->
    step top env args unit (log INFO ("version: " ++ distribution_version env)%string)
| st_log_no_version :
    top = true -> step top env args unit (log INFO "version not available")
| st_log_elapsed : top = true -> step top env args unit (log INFO (elapsed_msg env)).

Section Steps.

Variable R : World -> World -> Prop.
Hypothesis R_refl : forall w, R w w.
Hypothesis R_trans : forall a b c, R a b -> R b c -> R a c.
Hypothesis R_exc : forall i w, R w (set_exc_info i w).

Variables (top : bool) (env : Env) (args : Args).
Hypothesis R_step : forall A (m : M A), step top env args A m -> keeps R m.

Local Abbreviation kept := (keeps R).

Local Ltac k_bind := apply (keeps_bind R R_trans).
Local Ltac k_ret := apply (keeps_ret R R_refl).
Local Ltac k_exit := apply (keeps_sys_exit R R_refl).
Local Ltac k_exists := apply (keeps_path_exists R R_refl).
Local Ltac k_yields p := apply (keeps_bind_yields R R_trans _ _ (eq p)).
Local Ltac k_file := apply (keeps_with_file R R_refl R_trans R_exc).
Local Ltac k_except := apply (keeps_try_except R R_trans R_exc).

Lemma keeps_sigterm_handler (sig : Signal) (s : Site) : kept (sigterm_handler env sig s).
Proof.
  unfold sigterm_handler.
  k_bind.
  { destruct (Signal_eqb sig SIGINT); [apply R_step, st_log_cancelled | k_ret]. }
  intros _. k_bind. { apply R_step, st_log_killed. }
  intros _. k_yields (trace_path env).
  { apply yields_open_w. }
  { apply R_step, st_open_trace. }
  intros a <-. k_bind.
  - k_file. { apply R_step, st_close_trace. }
    k_bind. { apply (keeps_format_exc_now R R_refl). }
    intros text. apply R_step, st_write_trace.
  - intros _. k_exit.
Qed.

Lemma keeps_at_site {A} (s : Site) (op : M A) : kept op -> kept (at_site env s op).
Proof.
  intros Hop w. unfold at_site.
  destruct (signal_at env) as [[s' sig]|]; [|apply Hop].
  destruct (Site_eqb s' s); [|apply Hop].
  apply R_trans with (emit (EvSignal sig s) w).
  - exact (R_step _ _ (st_signal top env args sig s) w).
  - apply (keeps_bind R R_trans (sigterm_handler env sig s) (fun _ => op));
      [apply keeps_sigterm_handler | intros _; exact Hop].
Qed.

Lemma keeps_outcome (s : Site) :
  kept (fun w' => match behaviour env s with
                  | None => (Ret tt, w')
                  | Some e => (@Raise unit e, w')
                  end).
Proof. intros w. destruct (behaviour env s); apply R_refl. Qed.

Lemma keeps_call (s : Site) : launch_sites s = true -> kept (call env s).
Proof.
  intros Hs w. unfold call.
  apply R_trans with (emit (EvCall s) w).
  - exact (R_step _ _ (st_call top env args s Hs) w).
  - apply keeps_at_site, keeps_outcome.
Qed.

Lemma keeps_setup (db : Path) : kept (setup env args db).
Proof.
  unfold setup.
  k_bind. { now apply keeps_call. }
  intros _.
  assert (Hrest : kept
    (present <- at_site env S_exists_user_data (path_exists (user_data_dir env)) ;;
     (if negb present
      then at_site env S_makedirs_user_data (makedirs (user_data_dir env) 511)
      else ret tt) ;;
     call env S_Authorize ;; call env S_authorize ;; call env S_RestClient ;;
     call env S_GooglePhotosSync ;; call env S_GoogleAlbumsSync ;;
     fun w => (Ret tt, emit (EvConfigure (start_date args) (end_date args)
                                         (negb (skip_video args))) w))).
  { k_bind. { apply keeps_at_site. k_exists. }
    intros present. k_bind.
    { destruct (negb present); [|k_ret].
      apply keeps_at_site, R_step, st_makedirs_user_data. }
    intros _.
    repeat (k_bind; [now apply keeps_call | intros _]).
    apply R_step, st_configure. }
  destruct (new_token args) eqn:Ent.
  - k_bind. { apply keeps_at_site. k_exists. }
    intros stale. k_bind; [|intros _; exact Hrest].
    destruct stale; [|k_ret].
    apply keeps_at_site, R_step, st_remove, Ent.
  - intros w. exact (Hrest w).
Qed.

Lemma keeps_pipeline : kept (pipeline env args).
Proof.
  unfold pipeline, phase.
  repeat first
    [ k_bind; [|intros _]
    | now apply keeps_call
    | k_ret
    | match goal with |- keeps _ (if ?c then _ else _) => destruct c end ].
Qed.

Lemma keeps_start : kept (start env args).
Proof.
  unfold start. k_bind. { now apply keeps_call. }
  intros _. apply (keeps_with_cm R R_trans R_exc). { apply keeps_pipeline. }
  intros o. k_bind. { now apply keeps_call. }
  intros _. k_ret.
Qed.

Lemma keeps_capture (e : Raised) : kept (capture env (trace_file_of env args) e).
Proof.
  unfold capture. k_bind. { apply R_step, st_log_failed. }
  intros _. k_yields (trace_path env).
  { apply yields_at_site, yields_open_w. }
  { apply keeps_at_site, R_step, st_open_trace. }
  intros a <-. k_file. { apply R_step, st_close_trace. }
  k_bind. { apply (keeps_format_exc_now R R_refl). }
  intros text. apply keeps_at_site, R_step, st_write_trace.
Qed.

Lemma keeps_launch (db : Path) : kept (launch env args db (trace_file_of env args)).
Proof.
  unfold launch. apply (keeps_try_finally R R_trans); [|apply R_step, st_log_done].
  k_except; [|apply keeps_capture].
  k_bind; [apply keeps_setup | intros _; apply keeps_start].
Qed.

Hypothesis at_top : top = true.

Lemma keeps_locked :
  kept (locked env args (db_of env args) (trace_file_of env args) (lock_file_of env args)).
Proof.
  unfold locked. k_bind.
  { k_except.
    - apply keeps_at_site, R_step, st_lockf, at_top.
    - intros _. k_bind; [apply R_step, st_log_locked, at_top|].
      intros _. k_exit. }
  intros _. k_bind; [|intros _; apply keeps_launch].
  k_except.
  - k_bind; [|intros _; apply R_step, st_log_version, at_top].
    intros w. unfold call. apply R_trans with (emit (EvCall S_get_distribution) w).
    + exact (R_step _ _ (st_call_version top env args at_top) w).
    + apply keeps_at_site, keeps_outcome.
  - intros _. apply R_step, st_log_no_version, at_top.
Qed.

Lemma keeps_main : kept (main env args).
Proof.
  unfold main. cbv zeta.
  fold (root_of env args). fold (db_of env args). fold (trace_file_of env args).
  fold (lock_file_of env args).
  k_bind. { apply R_step, st_logging, at_top. }
  intros _. k_bind. { apply R_step, st_install, at_top. }
  intros _. k_bind. { apply R_step, st_install, at_top. }
  intros _. k_bind. { apply keeps_at_site. k_exists. }
  intros present. k_bind.
  { destruct (negb present); [|k_ret].
    apply keeps_at_site, R_step, st_makedirs_root, at_top. }
  intros _. k_yields (lock_file_of env args).
  { apply yields_at_site, yields_open_w. }
  { apply keeps_at_site, R_step, st_open_lock, at_top. }
  intros a <-. k_bind.
  - k_file; [apply R_step, st_close_lock, at_top | apply keeps_locked].
  - intros _. apply R_step, st_log_elapsed, at_top.
Qed.

End Steps.

(** ** Three relations every step keeps *)

(** The events added all satisfy [P]. *)
Definition appends (P : Event -> bool) (w w' : World) : Prop :=
  exists l, events w' = events w ++ l /\ forallb P l = true.

Lemma appends_refl (P : Event -> bool) (w : World) : appends P w w.
Proof. exists []. now rewrite app_nil_r. Qed.

Lemma appends_trans (P : Event -> bool) (a b c : World) :
  appends P a b -> appends P b c -> appends P a c.
Proof.
  intros (l1 & E1 & H1) (l2 & E2 & H2). exists (l1 ++ l2).
  rewrite E2, E1, app_assoc, forallb_app, H1, H2. now split.
Qed.

Lemma appends_exc (P : Event -> bool) (i : option Raised) (w : World) :
  appends P w (set_exc_info i w).
Proof. exists []. cbn [events set_exc_info]. now rewrite app_nil_r. Qed.

Lemma appends_one (P : Event -> bool) (e : Event) (w w' : World) :
  events w' = events w ++ [e] -> P e = true -> appends P w w'.
Proof. intros E H. exists [e]. cbn [forallb]. now rewrite H. Qed.

(** The events [main] can add to the log; with [top] off, those of
    "configure and launch". *)
Definition footprint (top : bool) (env : Env) (args : Args) (e : Event) : bool :=
  match e with
  | EvLog WARNING _ => true
  | EvLog INFO m => top || negb (String.prefix "Elapsed time = " m)
  | EvLog DEBUG _ => false
  | EvSignalInstall _ => top
  | EvSignal _ _ => true
  | EvMakedirs p mode =>
      (path_eqb p (user_data_dir env) && Z.eqb mode 511) ||
      (top && path_eqb p (root_of env args) && Z.eqb mode 448)
  | EvOpen p | EvClose p =>
      path_eqb p (trace_path env) || (top && path_eqb p (lock_file_of env args))
  | EvWrite p _ => path_eqb p (trace_path env)
  | EvRemove p => new_token args && path_eqb p (user_data_dir env ++ ["credentials.json"])
  | EvLockf p op =>
      top && path_eqb p (lock_file_of env args) && Z.eqb op (Z.lor LOCK_EX LOCK_NB)
  | EvCall s => launch_sites s || (top && Site_eqb s S_get_distribution)
  | EvConfigure _ _ v => Bool.eqb v (negb (skip_video args))
  end.

Lemma step_appends (top : bool) (env : Env) (args : Args) A (m : M A) :
  step top env args A m -> keeps (appends (footprint top env args)) m.
Proof.
  intros H w.
  destruct H;
    unfold log, open_w, write, close, os_remove, makedirs, lockf, logging, raise;
    cbv zeta;
    repeat match goal with
           | |- context [if ?c then _ else _] => destruct c
           | |- context [match logging_getattr ?x with _ => _ end] =>
               destruct (logging_getattr x)
           end;
    cbn [snd];
    try apply appends_refl;
    try (exists []; cbn [events set_logger]; now rewrite app_nil_r);
    (eapply appends_one; [reflexivity|]);
    cbn [footprint]; subst;
    rewrite ?path_eqb_refl, ?Z.eqb_refl, ?eqb_reflx; cbn [andb orb];
    try reflexivity; try assumption.
  all: try (now rewrite orb_true_r).
  all: match goal with H : _ = true |- _ => now rewrite H end.
Qed.

(** The files outside [F] keep their content. *)
Definition same_files (F : Path -> bool) (w w' : World) : Prop :=
  forall p, F p = false -> lookup p (files w') = lookup p (files w).

Lemma same_files_refl F w : same_files F w w.
Proof. intros p _. reflexivity. Qed.

Lemma same_files_trans F a b c :
  same_files F a b -> same_files F b c -> same_files F a c.
Proof. intros H1 H2 p Hp. now rewrite (H2 p Hp), (H1 p Hp). Qed.

Lemma same_files_exc F i w : same_files F w (set_exc_info i w).
Proof. intros p _. reflexivity. Qed.

(** The files [main] writes or removes: the trace file, the lock file
    and, with [--new-token], the stored credentials. *)
Definition exempt (top : bool) (env : Env) (args : Args) (p : Path) : bool :=
  path_eqb p (trace_path env) ||
  (top && path_eqb p (lock_file_of env args)) ||
  (new_token args && path_eqb p (user_data_dir env ++ ["credentials.json"])).

Lemma lookup_replaced (p q : Path) (s : string) (fs : list (Path * string)) :
  path_eqb p q = false -> lookup p ((q, s) :: unlink q fs) = lookup p fs.
Proof. intros H. cbn [lookup]. rewrite H. now apply lookup_unlink_other. Qed.

Lemma step_same_files (top : bool) (env : Env) (args : Args) A (m : M A) :
  step top env args A m -> keeps (same_files (exempt top env args)) m.
Proof.
  intros H w p Hp. unfold exempt in Hp.
  apply orb_false_iff in Hp. destruct Hp as [Hp Hcred].
  apply orb_false_iff in Hp. destruct Hp as [Htrace Hlock].
  destruct H;
    unfold log, open_w, write, close, os_remove, makedirs, lockf, logging, raise;
    cbv zeta;
    repeat match goal with
           | |- context [if ?c then _ else _] => destruct c
           | |- context [match logging_getattr ?x with _ => _ end] =>
               destruct (logging_getattr x)
           end;
    cbn [snd files emit set_files set_dirs set_lock_self set_logger];
    try reflexivity; subst; cbn [andb] in *;
    try match goal with H : new_token args = true |- _ => rewrite H in Hcred; cbn [andb] in Hcred end;
    first [ now apply lookup_replaced
          | now apply lookup_unlink_other
          | (cbn [lookup]; rewrite Htrace; now apply lookup_unlink_other) ].
Qed.

(** No directory goes, and those that come are on the way to [q1] or to
    [q2]. *)
Definition grows (q1 q2 : Path) (w w' : World) : Prop :=
  forall p,
    (is_dir w p = true -> is_dir w' p = true) /\
    (is_dir w' p = true ->
     is_dir w p = true \/ In p (prefixes q1) \/ In p (prefixes q2)).

Lemma grows_refl q1 q2 w : grows q1 q2 w w.
Proof. intros p. split; auto. Qed.

Lemma grows_trans q1 q2 a b c : grows q1 q2 a b -> grows q1 q2 b c -> grows q1 q2 a c.
Proof.
  intros H1 H2 p. destruct (H1 p) as [F1 B1]. destruct (H2 p) as [F2 B2]. split; auto.
  intros H. destruct (B2 H) as [H'|H']; auto.
Qed.

Lemma grows_exc q1 q2 i w : grows q1 q2 w (set_exc_info i w).
Proof. intros p. split; auto. Qed.

Lemma grows_makedirs (q1 q2 q : Path) (mode : Z) :
  q = q1 \/ q = q2 -> keeps (grows q1 q2) (makedirs q mode).
Proof.
  intros Hq w p. unfold makedirs. cbv zeta.
  repeat match goal with |- context [if ?c then _ else _] => destruct c end;
    cbn [snd]; try (split; now auto).
  rewrite !is_dir_dir_in. cbn [dirs set_dirs emit]. rewrite dir_in_app. split.
  - intros H. now rewrite H.
  - intros H. apply orb_true_iff in H. destruct H as [H|H]; [now left|].
    destruct p as [|c p]; [now left|]. right.
    unfold dir_in in H. apply existsb_exists in H. destruct H as (d & Hd & Hpd).
    apply path_eqb_eq in Hpd. subst d. apply filter_In in Hd. destruct Hd as [Hd _].
    destruct Hq as [-> | ->]; auto.
Qed.

Lemma step_grows (top : bool) (env : Env) (args : Args) A (m : M A) :
  step top env args A m -> keeps (grows (root_of env args) (user_data_dir env)) m.
Proof.
  intros H.
  destruct H; try (apply grows_makedirs; now auto); intros w p;
    unfold log, open_w, write, close, os_remove, lockf, logging, raise;
    cbv zeta;
    repeat match goal with
           | |- context [if ?c then _ else _] => destruct c
           | |- context [match logging_getattr ?x with _ => _ end] =>
               destruct (logging_getattr x)
           end;
    cbn [snd]; split; auto.
Qed.

Lemma main_appends (env : Env) (args : Args) (w : World) :
  appends (footprint true env args) w (snd (main env args w)).
Proof.
  apply (keeps_main (appends (footprint true env args))
           (appends_refl _) (appends_trans _) (appends_exc _) true env args).
  - intros A m. apply step_appends.
  - reflexivity.
Qed.

Lemma launch_appends (env : Env) (args : Args) (db : Path) (w : World) :
  appends (footprint false env args) w
          (snd (launch env args db (trace_file_of env args) w)).
Proof.
  apply (keeps_launch (appends (footprint false env args))
           (appends_refl _) (appends_trans _) (appends_exc _) false env args).
  intros A m. apply step_appends.
Qed.

Lemma main_same_files (env : Env) (args : Args) (w : World) :
  same_files (exempt true env args) w (snd (main env args w)).
Proof.
  apply (keeps_main (same_files (exempt true env args))
           (same_files_refl _) (same_files_trans _) (same_files_exc _) true env args).
  - intros A m. apply step_same_files.
  - reflexivity.
Qed.

Lemma main_grows (env : Env) (args : Args) (w : World) :
  grows (root_of env args) (user_data_dir env) w (snd (main env args w)).
Proof.
  apply (keeps_main (grows (root_of env args) (user_data_dir env))
           (grows_refl _ _) (grows_trans _ _) (grows_exc _ _) true env args).
  - intros A m. apply step_grows.
  - reflexivity.
Qed.

Lemma path_eqb_neq (p q : Path) : p <> q -> path_eqb p q = false.
Proof.
  intros H. destruct (path_eqb p q) eqn:E; [|reflexivity].
  now apply path_eqb_eq in E.
Qed.

(** ** What [main] does to the file system *)

(** Every file operation of a run: the files opened and closed are the
    trace file and the lock file, the only file written to is the trace
    file, the only file removed is the stored credentials and only under
    [--new-token], the directories made are the root folder (mode 0o700)
    and the user data directory (mode 0o777), and the lock is asked for
    on the lock file, exclusive and non-blocking. *)
Theorem main_file_operations (env : Env) (args : Args) (ds : list Path)
        (fs : list (Path * string)) (busy : bool) :
  Forall (fun e =>
            match e with
            | EvOpen p | EvClose p => p = trace_path env \/ p = lock_file_of env args
            | EvWrite p _ => p = trace_path env
            | EvRemove p =>
                new_token args = true /\ p = user_data_dir env ++ ["credentials.json"]
            | EvMakedirs p mode =>
                (p = user_data_dir env /\ mode = 511) \/
                (p = root_of env args /\ mode = 448)
            | EvLockf p op =>
                p = lock_file_of env args /\ op = Z.lor LOCK_EX LOCK_NB /\
                Z.land op LOCK_NB <> 0
            | _ => True
            end)
         (events (snd (main env args (boot ds fs busy)))).
Proof.
  destruct (main_appends env args (boot ds fs busy)) as (l & E & Hl).
  rewrite E. cbn [events boot app]. apply Forall_forall. intros e He.
  rewrite forallb_forall in Hl. specialize (Hl e He).
  destruct e; cbn [footprint] in Hl; try exact I.
  - apply orb_true_iff in Hl. destruct Hl as [H|H]; apply andb_true_iff in H; destruct H as [H1 H2].
    + left. apply path_eqb_eq in H1. apply Z.eqb_eq in H2. now split.
    + right. apply path_eqb_eq in H1. apply Z.eqb_eq in H2. now split.
  - apply orb_true_iff in Hl. destruct Hl as [H|H]; apply path_eqb_eq in H; auto.
  - now apply path_eqb_eq in Hl.
  - apply orb_true_iff in Hl. destruct Hl as [H|H]; apply path_eqb_eq in H; auto.
  - apply andb_true_iff in Hl. destruct Hl as [H1 H2]. apply path_eqb_eq in H2. now split.
  - apply andb_true_iff in Hl. destruct Hl as [H1 H2].
    apply path_eqb_eq in H1. apply Z.eqb_eq in H2. subst. repeat split. discriminate.
Qed.

(** The statements of [Main.py] leave every file but the trace file, the
    lock file and (under [--new-token]) the stored credentials as it was;
    what the collaborators do to the file system is theirs. *)
Theorem main_leaves_other_files (env : Env) (args : Args) (ds : list Path)
        (fs : list (Path * string)) (busy : bool) (p : Path) :
  p <> trace_path env ->
  p <> lock_file_of env args ->
  (new_token args = true -> p <> user_data_dir env ++ ["credentials.json"]) ->
  lookup p (files (snd (main env args (boot ds fs busy)))) = lookup p fs.
Proof.
  intros Ht Hl Hc.
  apply (main_same_files env args (boot ds fs busy) p).
  unfold exempt. rewrite (path_eqb_neq _ _ Ht), (path_eqb_neq _ _ Hl). cbn [orb andb].
  destruct (new_token args); [|reflexivity].
  now rewrite (path_eqb_neq _ _ (Hc eq_refl)).
Qed.

Lemma main_leaves_other_files_witness :
  lookup ["data"; "photos"; "2019"; "img.jpg"]
         (files (snd (main albums_fail_env demo_args
                        (boot demo_dirs [(["data"; "photos"; "2019"; "img.jpg"], "jpeg")]
                              false)))) =
  Some "jpeg".
Proof.
  apply (main_leaves_other_files albums_fail_env demo_args demo_dirs
           [(["data"; "photos"; "2019"; "img.jpg"], "jpeg")] false
           ["data"; "photos"; "2019"; "img.jpg"]).
  - vm_compute. discriminate.
  - vm_compute. discriminate.
  - vm_compute. discriminate.
Defined.

(** No run removes a directory, and the directories a run adds are the
    root folder, the user data directory and ancestors of the two. *)
Theorem main_directories (env : Env) (args : Args) (ds : list Path)
        (fs : list (Path * string)) (busy : bool) (p : Path) :
  (dir_in ds p = true ->
   is_dir (snd (main env args (boot ds fs busy))) p = true) /\
  (is_dir (snd (main env args (boot ds fs busy))) p = true ->
   dir_in ds p = true \/ In p (prefixes (root_of env args)) \/
   In p (prefixes (user_data_dir env))).
Proof. exact (main_grows env args (boot ds fs busy) p). Qed.

Lemma main_directories_witness :
  dir_in [["home"]; ["home"; "user"]] ["data"] = true \/
  In ["data"] (prefixes (root_of demo_env demo_args)) \/
  In ["data"] (prefixes (user_data_dir demo_env)).
Proof.
  apply (proj2 (main_directories demo_env demo_args [["home"]; ["home"; "user"]] [] false
                  ["data"])).
  vm_compute. reflexivity.
Defined.

(** ** The last lines of a run *)

Lemma launched_footprint (env : Env) (args : Args) (db : Path) (w : World)
      (r : Res unit) ds' fs' (l : list Event) :
  launch env args db (trace_file_of env args) w =
    (r, patch w ds' fs' (l ++ [EvLog INFO "Done."])) ->
  forallb (footprint false env args) l = true.
Proof.
  intros E. destruct (launch_appends env args db w) as (l' & El & Hl).
  rewrite E in El. cbn [snd events patch] in El. apply app_inv_head in El. subst l'.
  rewrite forallb_app in Hl. now apply andb_true_iff in Hl.
Qed.

Lemma footprint_none (env : Env) (args : Args) (P : Event -> bool) (l : list Event) :
  (forall e, footprint false env args e = true -> P e = false) ->
  forallb (footprint false env args) l = true -> existsb P l = false.
Proof.
  intros H Hl. induction l as [|e l IH]; [reflexivity|].
  cbn [forallb existsb] in *. apply andb_true_iff in Hl. destruct Hl as [He Hl].
  now rewrite (H e He), IH.
Qed.

Lemma footprint_not_elapsed (env : Env) (args : Args) (e : Event) :
  footprint false env args e = true -> is_elapsed_log e = false.
Proof.
  destruct e as [[| |] m| | | | | | | | | |]; cbn; try reflexivity.
  intros H. now apply negb_true_iff in H.
Qed.

Lemma prefix_append (s t : string) : String.prefix s (s ++ t)%string = true.
Proof.
  induction s as [|c s IH]; [now destruct t|].
  cbn [String.append String.prefix]. destruct (ascii_dec c c) as [_|N]; [exact IH|now destruct N].
Qed.

Ltac shape_events :=
  unfold after_lock, handling, handler_events, mk, installs in *;
  repeat match goal with
         | |- context [if ?c then _ else _] => destruct c
         | H : context [if ?c then _ else _] |- _ => destruct c
         end;
  cbn [app existsb orb] in *.

(** With no signal arriving, [main] logs the elapsed time exactly when it
    returns, and then as the last thing it does: no run that ends in an
    exception, a failed start-up or a lock held elsewhere reports a
    time. *)
Theorem elapsed_time_iff_returns (env : Env) (args : Args) (ds : list Path)
        (fs : list (Path * string)) (busy : bool) :
  signal_at env = None ->
  (existsb is_elapsed_log (events (snd (main env args (boot ds fs busy)))) = true <->
   fst (main env args (boot ds fs busy)) = Ret tt) /\
  (fst (main env args (boot ds fs busy)) = Ret tt ->
   exists pre,
     events (snd (main env args (boot ds fs busy))) =
       pre ++ [EvLog INFO ("Elapsed time = " ++ elapsed_time env)%string]).
Proof.
  intros Hnone.
  destruct (main_cases env args ds fs busy)
    as [[_ E] | (z & r & ds' & fs' & evs & _ & E & Hshape)]; rewrite E;
    cbn [fst snd events final boot].
  { split; [split|]; intros H; discriminate H. }
  destruct Hshape;
    try (split; [split; intros Hx; [exfalso|discriminate Hx] | intros Hx; discriminate Hx];
         shape_events; cbn in Hx; discriminate Hx).
  match goal with
  | H : launch _ _ _ _ _ = _ |- _ =>
      pose proof (footprint_none env args is_elapsed_log l (footprint_not_elapsed env args)
                    (launched_footprint _ _ _ _ _ _ _ _ H)) as Hl
  end.
  assert (Hvl : existsb is_elapsed_log vl = false).
  { match goal with H : version_lines _ _ _ _ _ |- _ =>
      destruct H as [[_ ->] | [(e & _ & _ & ->) | (sig & _ & _ & ->)]] end;
      try reflexivity.
    unfold handling, handler_events. destruct (Signal_eqb sig SIGINT); reflexivity. }
  rewrite existsb_after_lock. cbn [existsb is_elapsed_log installs orb].
  rewrite (mk_facts env args ds fs) by reflexivity.
  rewrite !existsb_app, Hvl, Hl. cbn [orb existsb is_elapsed_log].
  change (String.prefix "Elapsed time = " "Done.") with false. cbn [orb].
  destruct r as [[]|e|]; cbn [existsb is_elapsed_log orb].
  - assert (Hp : String.prefix "Elapsed time = " (elapsed_msg env) = true)
      by apply prefix_append.
    rewrite Hp.
    split; [split; reflexivity|]. intros _. unfold after_lock.
    ends.
  - split; [split|]; intros Hx; discriminate Hx.
  - split; [split|]; intros Hx; discriminate Hx.
Qed.

Lemma elapsed_time_iff_returns_witness :
  existsb is_elapsed_log (events (snd (main demo_env demo_args (boot demo_dirs [] false)))) = true /\
  existsb is_elapsed_log (events (snd (main demo_env demo_args (boot demo_dirs [] true)))) = false.
Proof.
  split.
  - apply (proj1 (elapsed_time_iff_returns demo_env demo_args demo_dirs [] false eq_refl)).
    reflexivity.
  - destruct (existsb is_elapsed_log
                (events (snd (main demo_env demo_args (boot demo_dirs [] true))))) eqn:E;
      [|reflexivity].
    apply (proj1 (elapsed_time_iff_returns demo_env demo_args demo_dirs [] true eq_refl)) in E.
    vm_compute in E. discriminate E.
Defined.

(** ** Leaving the [with fp:] block and the [try] statement *)

Lemma tail_here (s : list Event) : exists pre, s = pre ++ s.
Proof. now exists []. Qed.

Lemma tail_cons (x : Event) (b s : list Event) :
  (exists pre, b = pre ++ s) -> exists pre, x :: b = pre ++ s.
Proof. intros (pre & ->). now exists (x :: pre). Qed.

Lemma tail_app (a b s : list Event) :
  (exists pre, b = pre ++ s) -> exists pre, a ++ b = pre ++ s.
Proof. intros (pre & ->). exists (a ++ pre). now rewrite app_assoc. Qed.

Ltac tails := repeat first [apply tail_here | apply tail_cons | apply tail_app].

(** The end of the log of a run that [r] ends. *)
Definition closing (env : Env) (args : Args) (r : Res unit) : list Event :=
  EvClose (lock_file_of env args) ::
  match r with Ret _ => [EvLog INFO (elapsed_msg env)] | _ => [] end.

(** With no signal arriving, whatever way a run leaves the [with fp:]
    block once the lock was asked for (return, lock held elsewhere,
    failure captured or not), the lock file is closed on the way out and
    the process holds no lock at the end; only the elapsed time can
    follow. *)
Theorem lock_file_closed_on_every_path (env : Env) (args : Args) (ds : list Path)
        (fs : list (Path * string)) (busy : bool) :
  signal_at env = None ->
  existsb is_lockf (events (snd (main env args (boot ds fs busy)))) = true ->
  lock_self (snd (main env args (boot ds fs busy))) = None /\
  exists pre,
    events (snd (main env args (boot ds fs busy))) =
      pre ++ closing env args (fst (main env args (boot ds fs busy))).
Proof.
  intros Hnone.
  destruct (main_cases env args ds fs busy)
    as [[_ E] | (z & r & ds' & fs' & evs & _ & E & Hshape)]; rewrite E;
    cbn [fst snd events final boot lock_self].
  { intros H. discriminate H. }
  intros Hlock. split; [reflexivity|]. unfold closing.
  destruct Hshape; try (exfalso; open_events; discriminate Hlock);
    unfold after_lock; tails.
Qed.

Lemma lock_file_closed_on_every_path_witness :
  lock_self (snd (main albums_fail_env demo_args (boot demo_dirs [] false))) = None /\
  exists pre,
    events (snd (main albums_fail_env demo_args (boot demo_dirs [] false))) =
      pre ++ closing albums_fail_env demo_args
               (fst (main albums_fail_env demo_args (boot demo_dirs [] false))).
Proof.
  apply (lock_file_closed_on_every_path albums_fail_env demo_args demo_dirs [] false).
  - reflexivity.
  - vm_compute. reflexivity.
Defined.

(** The event of entering collaborator [s]. *)
Definition enters (s : Site) (e : Event) : bool :=
  match e with
  | EvCall s' => Site_eqb s s'
  | _ => false
  end.

(** With no signal arriving, once [setup] has been entered, "Done." is
    logged on every way out of the [try] statement (normal end, captured
    failure, failure inside the [except] branch, exception that is no
    [Exception]), right before the lock file is closed. *)
Theorem done_is_logged_on_every_way_out (env : Env) (args : Args) (ds : list Path)
        (fs : list (Path * string)) (busy : bool) :
  signal_at env = None ->
  existsb (enters S_LocalData) (events (snd (main env args (boot ds fs busy)))) = true ->
  exists pre,
    events (snd (main env args (boot ds fs busy))) =
      pre ++ EvLog INFO "Done." ::
             closing env args (fst (main env args (boot ds fs busy))).
Proof.
  intros Hnone.
  destruct (main_cases env args ds fs busy)
    as [[_ E] | (z & r & ds' & fs' & evs & _ & E & Hshape)]; rewrite E;
    cbn [fst snd events final boot].
  { intros H. discriminate H. }
  intros Hin. unfold closing.
  destruct Hshape;
    try (exfalso; shape_events; cbn in Hin; discriminate Hin).
  unfold after_lock. tails.
Qed.

Lemma done_is_logged_on_every_way_out_witness :
  exists pre,
    events (snd (main albums_fail_env demo_args (boot demo_dirs [] false))) =
      pre ++ EvLog INFO "Done." ::
             closing albums_fail_env demo_args
               (fst (main albums_fail_env demo_args (boot demo_dirs [] false))).
Proof.
  apply (done_is_logged_on_every_way_out albums_fail_env demo_args demo_dirs [] false).
  - reflexivity.
  - vm_compute. reflexivity.
Defined.

(** ** The version lines *)

(** With no signal arriving, a version lookup that fails with an
    [Exception] does not stop the run: "version not available" is logged
    in place of the version and the run goes on through "configure and
    launch".  A lookup that raises anything else ends the run with it,
    before [setup]. *)
Theorem version_lookup_failure (env : Env) (args : Args) (ds : list Path)
        (fs : list (Path * string)) (e : Raised) :
  behaviour env S_get_distribution = Some e ->
  signal_at env = None ->
  existsb is_lockf (events (snd (main env args (boot ds fs false)))) = true ->
  if isinstance e Exception
  then exists rest,
         events (snd (main env args (boot ds fs false))) =
           after_lock env args ds fs
             (EvCall S_get_distribution :: EvLog INFO "version not available" :: rest) /\
         In (EvLog INFO "Done.") rest
  else fst (main env args (boot ds fs false)) = Raise e /\
       events (snd (main env args (boot ds fs false))) =
         after_lock env args ds fs
           [EvCall S_get_distribution; EvClose (lock_file_of env args)].
Proof.
  intros Hb Hnone.
  assert (Hsig : forall sig, signal_at env <> Some (S_get_distribution, sig))
    by (intros sig; rewrite Hnone; discriminate).
  destruct (main_cases env args ds fs false)
    as [[_ E] | (z & r & ds' & fs' & evs & _ & E & Hshape)]; rewrite E;
    cbn [fst snd events final boot].
  { intros H. discriminate H. }
  intros Hlock.
  destruct Hshape; try (exfalso; open_events; discriminate Hlock);
    try discriminate;
    try (match goal with
         | H : signal_at env = Some (S_get_distribution, ?sig) |- _ =>
             now destruct (Hsig sig)
         end).
  - match goal with
    | H : behaviour env S_get_distribution = Some ?e0 |- _ =>
        rewrite Hb in H; injection H as <-
    end.
    match goal with H : isinstance e Exception = false |- _ => rewrite H end.
    split; reflexivity.
  - match goal with
    | H : version_lines _ _ _ _ _ |- _ =>
        destruct H as [[Hn _] | [(e' & He' & Hexc & ->) | (sig & Hs & _)]]
    end.
    + rewrite Hb in Hn. discriminate Hn.
    + rewrite Hb in He'. injection He' as <-. rewrite Hexc.
      eexists. split; [reflexivity|]. cbn [app].
      apply in_or_app. right. left. reflexivity.
    + now destruct (Hsig sig).
Qed.

Definition no_version_env : Env :=
  mkEnv ["home"; "user"] ["home"; "user"; ".local"; "share"; "gphotos-sync"]
        ["home"; "user"; ".config"; "gphotos-sync"]
        (fun s => match s with
                  | S_get_distribution =>
                      Some (mkRaised (UserError "DistributionNotFound") "gphotos-sync" 0 "")
                  | _ => None
                  end)
        false "1.0" None "0:00:01".

Lemma version_lookup_failure_witness :
  exists rest,
    events (snd (main no_version_env demo_args (boot demo_dirs [] false))) =
      after_lock no_version_env demo_args demo_dirs []
        (EvCall S_get_distribution :: EvLog INFO "version not available" :: rest) /\
    In (EvLog INFO "Done.") rest.
Proof.
  apply (version_lookup_failure no_version_env demo_args demo_dirs []
           (mkRaised (UserError "DistributionNotFound") "gphotos-sync" 0 "")).
  - reflexivity.
  - reflexivity.
  - vm_compute. reflexivity.
Defined.

(** ** Collaborator calls, in order *)

(** The collaborators entered, oldest first. *)
Fixpoint calls_of (evs : list Event) : list Site :=
  match evs with
  | [] => []
  | EvCall s :: evs' => s :: calls_of evs'
  | _ :: evs' => calls_of evs'
  end.

Lemma calls_of_app (a b : list Event) : calls_of (a ++ b) = calls_of a ++ calls_of b.
Proof.
  induction a as [|e a IH]; [reflexivity|].
  destruct e; cbn [app calls_of]; try exact IH. now rewrite IH.
Qed.

Lemma phases_of_calls (l : list Event) (ps : list Phase) :
  calls_of l = map S_phase ps -> phases_of l = ps.
Proof.
  revert ps. induction l as [|e l IH]; intros ps H.
  - destruct ps; [reflexivity | discriminate H].
  - destruct e; cbn [calls_of phases_of] in *; auto.
    destruct ps as [|p ps]; [discriminate H|]. cbn [map] in H.
    injection H as -> H. cbn [phases_of]. now rewrite (IH ps H).
Qed.

Definition no_call (e : Event) : bool := negb (is_call e).

Lemma no_call_calls (l : list Event) : forallb no_call l = true -> calls_of l = [].
Proof.
  induction l as [|e l IH]; [reflexivity|]. cbn [forallb].
  intros H. apply andb_true_iff in H. destruct H as [He Hl].
  destruct e; cbn [calls_of]; auto. discriminate He.
Qed.

Section Appends.

Variable P : Event -> bool.

Lemma log_appends (lvl : Level) (msg : string) :
  P (EvLog lvl msg) = true -> keeps (appends P) (log lvl msg).
Proof. intros H w. now apply appends_one with (e := EvLog lvl msg). Qed.

Lemma open_w_appends (p : Path) : P (EvOpen p) = true -> keeps (appends P) (open_w p).
Proof.
  intros H w. unfold open_w. cbv zeta.
  repeat match goal with |- context [if ?c then _ else _] => destruct c end;
    now apply appends_one with (e := EvOpen p).
Qed.

Lemma write_appends (p : Path) (text : string) :
  P (EvWrite p text) = true -> keeps (appends P) (write p text).
Proof. intros H w. now apply appends_one with (e := EvWrite p text). Qed.

Lemma close_appends (p : Path) : P (EvClose p) = true -> keeps (appends P) (close p).
Proof. intros H w. now apply appends_one with (e := EvClose p). Qed.

Lemma os_remove_appends (p : Path) : P (EvRemove p) = true -> keeps (appends P) (os_remove p).
Proof.
  intros H w. unfold os_remove. cbv zeta.
  repeat match goal with |- context [if ?c then _ else _] => destruct c end;
    now apply appends_one with (e := EvRemove p).
Qed.

Lemma makedirs_appends (p : Path) (mode : Z) :
  P (EvMakedirs p mode) = true -> keeps (appends P) (makedirs p mode).
Proof.
  intros H w. unfold makedirs. cbv zeta.
  repeat match goal with |- context [if ?c then _ else _] => destruct c end;
    now apply appends_one with (e := EvMakedirs p mode).
Qed.

(** [P] holds of whatever the signal handler logs and does. *)
Definition covers_handler (env : Env) : Prop :=
  (forall sig s, P (EvSignal sig s) = true) /\
  (forall m, P (EvLog WARNING m) = true) /\
  P (EvOpen (trace_path env)) = true /\
  (forall t, P (EvWrite (trace_path env) t) = true) /\
  P (EvClose (trace_path env)) = true.

Lemma sigterm_handler_appends (env : Env) (sig : Signal) (s : Site) :
  covers_handler env -> keeps (appends P) (sigterm_handler env sig s).
Proof.
  intros (_ & Hlog & Hopen & Hwrite & Hclose). unfold sigterm_handler.
  pose proof (appends_refl P) as Hr. pose proof (appends_trans P) as Ht.
  pose proof (appends_exc P) as Hx.
  apply (keeps_bind _ Ht).
  { destruct (Signal_eqb sig SIGINT); [now apply log_appends | apply (keeps_ret _ Hr)]. }
  intros _. apply (keeps_bind _ Ht); [now apply log_appends|].
  intros _. apply (keeps_bind_yields _ Ht _ _ (eq (trace_path env))).
  { apply yields_open_w. }
  { now apply open_w_appends. }
  intros a <-. apply (keeps_bind _ Ht).
  - apply (keeps_with_file _ Hr Ht Hx); [now apply close_appends|].
    apply (keeps_bind _ Ht); [apply (keeps_format_exc_now _ Hr)|].
    intros text. now apply write_appends.
  - intros _. apply (keeps_sys_exit _ Hr).
Qed.

Lemma at_site_appends {A} (env : Env) (s : Site) (op : M A) :
  covers_handler env -> keeps (appends P) op -> keeps (appends P) (at_site env s op).
Proof.
  intros Hh Hop w. unfold at_site.
  destruct (signal_at env) as [[s' sig]|]; [|apply Hop].
  destruct (Site_eqb s' s); [|apply Hop].
  apply appends_trans with (emit (EvSignal sig s) w).
  - apply appends_one with (e := EvSignal sig s); [reflexivity | apply Hh].
  - apply (keeps_bind _ (appends_trans P) (sigterm_handler env sig s) (fun _ => op));
      [now apply sigterm_handler_appends | intros _; exact Hop].
Qed.

End Appends.

Lemma no_call_covers_handler (env : Env) : covers_handler no_call env.
Proof. repeat split. Qed.

(** The handler raises: it neither returns nor waits. *)
Lemma sigterm_handler_raises (env : Env) (sig : Signal) (s : Site) (w : World) :
  exists e, fst (sigterm_handler env sig s w) = Raise e.
Proof.
  unfold sigterm_handler, bind, log, ret, open_w, with_file, with_cm, format_exc_now,
    write, close, sys_exit, raise.
  cbv zeta.
  repeat match goal with |- context [if ?c then _ else _] => destruct c end;
    cbn [fst]; eexists; reflexivity.
Qed.

Lemma call_events (env : Env) (s : Site) (w : World) :
  exists h,
    events (snd (call env s w)) = events w ++ EvCall s :: h /\
    forallb no_call h = true /\
    fst (call env s w) <> Blocked /\
    (fst (call env s w) = Ret tt -> behaviour env s = None).
Proof.
  unfold call.
  set (op := fun w' : World => match behaviour env s with
                               | None => (Ret tt, w')
                               | Some e => (@Raise unit e, w')
                               end).
  assert (Hop : keeps (appends no_call) op).
  { intros w'. unfold op. destruct (behaviour env s); apply appends_refl. }
  destruct (at_site_appends no_call env s op (no_call_covers_handler env) Hop
              (emit (EvCall s) w)) as (h & E & Hh).
  exists h. split; [|split; [exact Hh|]].
  - rewrite E. cbn [events emit]. now rewrite <- app_assoc.
  - unfold at_site.
    assert (Hop' : forall w', fst (op w') <> Blocked /\
                              (fst (op w') = Ret tt -> behaviour env s = None)).
    { intros w'. unfold op. destruct (behaviour env s); cbn [fst]; split;
        try discriminate; auto. }
    destruct (signal_at env) as [[s' sig]|]; [|apply Hop'].
    destruct (Site_eqb s' s); [|apply Hop'].
    unfold bind.
    destruct (sigterm_handler_raises env sig s (emit (EvSignal sig s) (emit (EvCall s) w)))
      as (e & He).
    destruct (sigterm_handler env sig s (emit (EvSignal sig s) (emit (EvCall s) w)))
      as [r w1]. cbn [fst] in He. subst r. cbn [fst]. split; discriminate.
Qed.

(** Calling the collaborators of a list one after the other. *)
Fixpoint run_calls (env : Env) (ss : list Site) : M unit :=
  match ss with
  | [] => ret tt
  | s :: ss' => call env s ;; run_calls env ss'
  end.

Lemma run_calls_events (env : Env) (ss : list Site) (w : World) :
  exists l n,
    events (snd (run_calls env ss w)) = events w ++ l /\
    calls_of l = firstn n ss /\
    fst (run_calls env ss w) <> Blocked /\
    (fst (run_calls env ss w) = Ret tt ->
     calls_of l = ss /\ forall s, In s ss -> behaviour env s = None).
Proof.
  revert w. induction ss as [|s ss IH]; intros w.
  - exists [], 0%nat. cbn. rewrite app_nil_r. repeat split; auto; try discriminate.
    intros s [].
  - cbn [run_calls]. unfold bind.
    destruct (call_events env s w) as (h & E & Hh & Hnb & Hret).
    destruct (call env s w) as [[[]|e|] w1]; cbn [fst snd] in *.
    + destruct (IH w1) as (l & n & El & Hc & Hnb' & Hret').
      exists (EvCall s :: h ++ l), (S n). rewrite El, E, <- app_assoc. cbn [app].
      split; [reflexivity|]. cbn [calls_of firstn].
      rewrite calls_of_app, (no_call_calls h Hh). cbn [app].
      split; [now rewrite Hc|]. split; [exact Hnb'|].
      intros Hr. destruct (Hret' Hr) as [Hall Hq]. split; [now rewrite Hall|].
      intros s' [<- | Hin]; auto.
    + exists (EvCall s :: h), 1%nat. split; [exact E|].
      cbn [calls_of firstn]. rewrite (no_call_calls h Hh).
      repeat split; discriminate.
    + now destruct Hnb.
Qed.

(** The phases the flags let through (lines 174-184). *)
Definition gated (args : Args) : list Phase :=
  spec_phase_sequence (skip_index args) (index_only args) (skip_files args) (do_delete args).

Lemma pipeline_run_calls (env : Env) (args : Args) (w : World) :
  pipeline env args w = run_calls env (map S_phase (gated args)) w.
Proof.
  unfold pipeline, phase, gated, spec_phase_sequence.
  destruct (skip_index args), (index_only args), (skip_files args), (do_delete args);
    cbn [negb app map run_calls]; unfold bind, ret;
    repeat (match goal with
            | |- context [call env ?s ?w0] =>
                destruct (call env s w0) as [[[]|?|] ?]
            end; cbv beta iota);
    reflexivity.
Qed.

Lemma store_exit_events (env : Env) (w : World) :
  exists h,
    events (snd ((call env S_store_exit ;; ret (store_exit_value env)) w)) =
      events w ++ EvCall S_store_exit :: h /\
    forallb no_call h = true /\
    fst ((call env S_store_exit ;; ret (store_exit_value env)) w) <> Blocked /\
    (forall b, fst ((call env S_store_exit ;; ret (store_exit_value env)) w) = Ret b ->
               b = store_exit_value env).
Proof.
  destruct (call_events env S_store_exit w) as (h & E & Hh & Hnb & _).
  exists h. unfold bind, ret.
  destruct (call env S_store_exit w) as [[[]|e|] w1]; cbn [fst snd] in *;
    repeat split; auto; try discriminate.
  intros b Hb. cbn in Hb. now inversion Hb.
Qed.

Lemma start_calls (env : Env) (args : Args) (w : World) :
  exists l,
    events (snd (start env args w)) = events w ++ l /\
    ((fst (call env S_store_enter w) <> Ret tt /\ calls_of l = [S_store_enter]) \/
     (fst (call env S_store_enter w) = Ret tt /\
      exists n,
        calls_of l =
          S_store_enter :: map S_phase (firstn n (gated args)) ++ [S_store_exit])) /\
    (fst (start env args w) = Ret tt -> store_exit_value env = false ->
     calls_of l = S_store_enter :: map S_phase (gated args) ++ [S_store_exit]).
Proof.
  destruct (start env args w) as [r wf] eqn:Es. cbn [fst snd].
  unfold start in Es. unfold bind at 1 in Es.
  destruct (call_events env S_store_enter w) as (h & E & Hh & Hnb & _).
  destruct (call env S_store_enter w) as [[[]|e|] w1]; cbn [fst snd] in *.
  2:{ injection Es as <- <-.
      exists (EvCall S_store_enter :: h). split; [exact E|].
      cbn [calls_of]. rewrite (no_call_calls h Hh).
      split; [left; split; [discriminate | reflexivity] | discriminate]. }
  2:{ now destruct Hnb. }
  unfold with_cm in Es. rewrite pipeline_run_calls in Es.
  destruct (run_calls_events env (map S_phase (gated args)) w1)
    as (l1 & n & E1 & Hc & Hnb1 & Hret1).
  destruct (run_calls env (map S_phase (gated args)) w1) as [[[]|e|] w2];
    cbn [fst snd] in *; [| |now destruct Hnb1].
  - destruct (store_exit_events env w2) as (h2 & E2 & Hh2 & Hnb2 & _).
    exists (EvCall S_store_enter :: h ++ l1 ++ EvCall S_store_exit :: h2).
    assert (Hcalls : calls_of (EvCall S_store_enter :: h ++ l1 ++ EvCall S_store_exit :: h2)
                     = S_store_enter :: map S_phase (gated args) ++ [S_store_exit]).
    { cbn [calls_of]. rewrite !calls_of_app, (no_call_calls h Hh). cbn [calls_of app].
      rewrite (no_call_calls h2 Hh2). now destruct (Hret1 eq_refl) as [-> _]. }
    split; [|split].
    + destruct ((call env S_store_exit ;; ret (store_exit_value env)) w2) as [[b|e'|] w3];
        injection Es as <- <-;
        cbn [fst snd] in *; rewrite E2, E1, E, <- !app_assoc; reflexivity.
    + right. split; [reflexivity|]. exists (length (gated args)).
      now rewrite firstn_all.
    + intros _ _. exact Hcalls.
  - destruct (store_exit_events env (set_exc_info (Some e) w2))
      as (h2 & E2 & Hh2 & Hnb2 & Hval).
    exists (EvCall S_store_enter :: h ++ l1 ++ EvCall S_store_exit :: h2).
    split; [|split].
    + destruct ((call env S_store_exit ;; ret (store_exit_value env))
                  (set_exc_info (Some e) w2)) as [[[|]|e'|] w3];
        injection Es as <- <-;
        cbn [fst snd events set_exc_info] in *; rewrite E2, E1, E, <- !app_assoc; reflexivity.
    + right. split; [reflexivity|]. exists n.
      cbn [calls_of]. rewrite !calls_of_app, (no_call_calls h Hh). cbn [calls_of app].
      rewrite (no_call_calls h2 Hh2), Hc, firstn_map. reflexivity.
    + intros Hr Hv.
      destruct ((call env S_store_exit ;; ret (store_exit_value env))
                  (set_exc_info (Some e) w2)) as [[[|]|e'|] w3];
        injection Es as <- <-; cbn [fst] in *; try discriminate Hr.
      specialize (Hval true eq_refl). rewrite Hv in Hval. discriminate Hval.
Qed.

(** The collaborators [start] enters, whatever fails and wherever a
    signal arrives: the data store's [__enter__]; when it returned, the
    phases the flags let through, in their order and up to the first that
    does not return, and then the data store's [__exit__], once.  When
    [start] returns and [__exit__] gives nothing true, every phase the
    flags let through was invoked. *)
Theorem start_calls_in_order (env : Env) (args : Args) (w : World) :
  exists l,
    events (snd (start env args w)) = events w ++ l /\
    ((fst (call env S_store_enter w) <> Ret tt /\ calls_of l = [S_store_enter]) \/
     (fst (call env S_store_enter w) = Ret tt /\
      exists n,
        calls_of l =
          S_store_enter :: map S_phase (firstn n (gated args)) ++ [S_store_exit])) /\
    (fst (start env args w) = Ret tt -> store_exit_value env = false ->
     calls_of l = S_store_enter :: map S_phase (gated args) ++ [S_store_exit]).
Proof. exact (start_calls env args w). Qed.

Lemma start_calls_in_order_witness :
  exists l,
    events (snd (start demo_env demo_args (boot [] [] false))) = [] ++ l /\
    calls_of l =
      S_store_enter ::
      map S_phase [IndexPhotos; IndexAlbums; PersistIndex; DownloadPhotos; LinkAlbums] ++
      [S_store_exit].
Proof.
  destruct (start_calls_in_order demo_env demo_args (boot [] [] false)) as (l & E & _ & H).
  exists l. split; [exact E|]. apply H; reflexivity.
Defined.

Definition enter_all (ss : list Site) (w : World) : World :=
  fold_left (fun w' s => emit (EvCall s) w') ss w.

Lemma events_enter_all (ss : list Site) (w : World) :
  events (enter_all ss w) = events w ++ map EvCall ss.
Proof.
  revert w. induction ss as [|s ss IH]; intros w; cbn [enter_all fold_left map].
  - now rewrite app_nil_r.
  - fold (enter_all ss (emit (EvCall s) w)). rewrite IH. cbn [events emit].
    now rewrite <- app_assoc.
Qed.

Lemma run_calls_stop (env : Env) (pre post : list Site) (s : Site) (e : Raised) (w : World) :
  signal_at env = None ->
  (forall q, In q pre -> behaviour env q = None) ->
  behaviour env s = Some e ->
  run_calls env (pre ++ s :: post) w = (Raise e, enter_all (pre ++ [s]) w).
Proof.
  intros Hnone Hpre Hs. revert w. induction pre as [|q pre IH]; intros w.
  - cbn [app run_calls enter_all fold_left]. unfold bind.
    now rewrite (call_unsignalled env s w Hnone), Hs.
  - cbn [app run_calls enter_all fold_left]. unfold bind.
    rewrite (call_unsignalled env q w Hnone), (Hpre q (or_introl eq_refl)).
    apply IH. intros q' Hq'. apply Hpre. now right.
Qed.

(** The first phase that fails ends the pipeline: with no signal and a
    data store that opens and closes without an error of its own, when
    the phases before [p] return and [p] raises [e], the phases invoked
    are those up to [p] and none after it, [__exit__] is then called, and
    [start] raises [e], unless [__exit__] answers true and swallows it. *)
Theorem start_stops_at_first_failure (env : Env) (args : Args) (w : World)
        (pre post : list Phase) (p : Phase) (e : Raised) :
  signal_at env = None ->
  behaviour env S_store_enter = None ->
  behaviour env S_store_exit = None ->
  gated args = pre ++ p :: post ->
  (forall q, In q pre -> behaviour env (S_phase q) = None) ->
  behaviour env (S_phase p) = Some e ->
  events (snd (start env args w)) =
    events w ++ EvCall S_store_enter :: map EvCall (map S_phase (pre ++ [p])) ++
    [EvCall S_store_exit] /\
  invoked env args w = pre ++ [p] /\
  fst (start env args w) = (if store_exit_value env then Ret tt else Raise e).
Proof.
  intros Hnone Henter Hexit Hg Hpre Hp.
  assert (Hrun : forall w1,
            pipeline env args w1 = (Raise e, enter_all (map S_phase (pre ++ [p])) w1)).
  { intros w1. rewrite pipeline_run_calls, Hg, !map_app. cbn [map].
    apply run_calls_stop; auto.
    intros q Hq. apply in_map_iff in Hq. destruct Hq as (q' & <- & Hq'). now apply Hpre. }
  assert (E : events (snd (start env args w)) =
              events w ++ EvCall S_store_enter :: map EvCall (map S_phase (pre ++ [p])) ++
              [EvCall S_store_exit] /\
              fst (start env args w) = (if store_exit_value env then Ret tt else Raise e)).
  { unfold start, bind, with_cm, ret.
    rewrite (call_unsignalled env S_store_enter w Hnone), Henter, Hrun.
    rewrite (call_unsignalled env S_store_exit _ Hnone), Hexit.
    destruct (store_exit_value env); cbn [fst snd events set_exc_info emit];
      rewrite events_enter_all; cbn [events emit]; rewrite <- !app_assoc; split; reflexivity. }
  destruct E as [E Hr]. split; [exact E|]. split; [|exact Hr].
  unfold invoked. rewrite E, phases_of_app.
  rewrite skipn_app, skipn_all, Nat.sub_diag. cbn [skipn app phases_of].
  rewrite phases_of_app. cbn [phases_of]. rewrite app_nil_r.
  apply phases_of_calls. clear. induction (pre ++ [p]) as [|q l IH]; [reflexivity|].
  cbn [map calls_of]. now rewrite IH.
Qed.

Lemma start_stops_at_first_failure_witness :
  invoked albums_fail_env demo_args (boot [] [] false) = [IndexPhotos; IndexAlbums] /\
  fst (start albums_fail_env demo_args (boot [] [] false)) = Raise http_error.
Proof.
  apply (start_stops_at_first_failure albums_fail_env demo_args (boot [] [] false)
           [IndexPhotos] [PersistIndex; DownloadPhotos; LinkAlbums] IndexAlbums http_error);
    try reflexivity.
  intros q [<- | []]. reflexivity.
Defined.

(** ** The collaborators of [setup] *)

(** The collaborators [setup] builds and calls (lines 101-127). *)
Definition setup_calls : list Site :=
  [S_LocalData; S_Authorize; S_authorize; S_RestClient; S_GooglePhotosSync;
   S_GoogleAlbumsSync].

(** [m] enters the collaborators of [ss] in order, up to the first that
    does not return; when [m] returns, all of [ss] were entered and the
    events added satisfy [Q]. *)
Definition in_order (ss : list Site) (Q : list Event -> Prop) {A} (m : M A) : Prop :=
  forall w,
    exists l n,
      events (snd (m w)) = events w ++ l /\
      calls_of l = firstn n ss /\
      (forall a, fst (m w) = Ret a -> calls_of l = ss /\ Q l).

Section InOrder.

Variable Q : list Event -> Prop.
Hypothesis Q_app : forall h l, Q l -> Q (h ++ l).

Lemma in_order_quiet_bind {A B} (ss : list Site) (m : M A) (k : A -> M B) :
  keeps (appends no_call) m ->
  (forall a, in_order ss Q (k a)) ->
  in_order ss Q (bind m k).
Proof.
  intros Hm Hk w. unfold bind. destruct (Hm w) as (h & E & Hh).
  destruct (m w) as [[a|e|] w1]; cbn [fst snd] in *.
  - destruct (Hk a w1) as (l & n & El & Hc & Hret).
    exists (h ++ l), n. rewrite El, E, app_assoc, calls_of_app, (no_call_calls h Hh).
    split; [reflexivity|]. split; [exact Hc|].
    intros b Hb. destruct (Hret b Hb) as [Hall HQ]. split; [exact Hall | now apply Q_app].
  - exists h, 0%nat. rewrite (no_call_calls h Hh). repeat split; try discriminate; auto.
  - exists h, 0%nat. rewrite (no_call_calls h Hh). repeat split; try discriminate; auto.
Qed.

Lemma in_order_call_bind {B} (env : Env) (s : Site) (ss : list Site) (k : M B) :
  in_order ss Q k -> in_order (s :: ss) Q (call env s ;; k).
Proof.
  intros Hk w. unfold bind.
  destruct (call_events env s w) as (h & E & Hh & Hnb & _).
  destruct (call env s w) as [[[]|e|] w1]; cbn [fst snd] in *.
  - destruct (Hk w1) as (l & n & El & Hc & Hret).
    exists (EvCall s :: h ++ l), (S n). rewrite El, E, <- app_assoc. cbn [app calls_of firstn].
    rewrite calls_of_app, (no_call_calls h Hh). cbn [app].
    split; [reflexivity|]. split; [now rewrite Hc|].
    intros b Hb. destruct (Hret b Hb) as [Hall HQ]. split; [now rewrite Hall|].
    apply (Q_app (EvCall s :: h) l HQ).
  - exists (EvCall s :: h), 1%nat. cbn [calls_of firstn]. rewrite (no_call_calls h Hh).
    split; [exact E|]. split; [now destruct ss | discriminate].
  - now destruct Hnb.
Qed.

End InOrder.

(** The events that end with [e]. *)
Definition ends_with (e : Event) (l : list Event) : Prop := exists pre, l = pre ++ [e].

Lemma ends_with_app (e : Event) (h l : list Event) : ends_with e l -> ends_with e (h ++ l).
Proof. intros (pre & ->). exists (h ++ pre). now rewrite app_assoc. Qed.

Lemma quiet_at_site {A} (env : Env) (s : Site) (op : M A) :
  keeps (appends no_call) op -> keeps (appends no_call) (at_site env s op).
Proof. apply at_site_appends, no_call_covers_handler. Qed.

Lemma setup_in_order (env : Env) (args : Args) (db : Path) :
  in_order setup_calls
    (ends_with (EvConfigure (start_date args) (end_date args) (negb (skip_video args))))
    (setup env args db).
Proof.
  set (cfg := EvConfigure (start_date args) (end_date args) (negb (skip_video args))).
  unfold setup, setup_calls.
  pose proof (ends_with_app cfg) as Happ.
  pose proof (appends_refl no_call) as Hr.
  apply in_order_call_bind; [exact Happ|].
  apply in_order_quiet_bind; [exact Happ | |intros stale].
  { destruct (new_token args); [|apply (keeps_ret _ Hr)].
    apply quiet_at_site, (keeps_path_exists _ Hr). }
  apply in_order_quiet_bind; [exact Happ | |intros _].
  { destruct stale; [|apply (keeps_ret _ Hr)].
    apply quiet_at_site. now apply os_remove_appends. }
  apply in_order_quiet_bind; [exact Happ | |intros present].
  { apply quiet_at_site, (keeps_path_exists _ Hr). }
  apply in_order_quiet_bind; [exact Happ | |intros _].
  { destruct (negb present); [|apply (keeps_ret _ Hr)].
    apply quiet_at_site. now apply makedirs_appends. }
  do 5 (apply in_order_call_bind; [exact Happ|]).
  intros w'. exists [cfg], 0%nat.
  split; [reflexivity|]. split; [reflexivity|].
  intros a _. split; [reflexivity | now exists []].
Qed.

(** [setup] builds its collaborators in the order of the source, whatever
    fails and wherever a signal arrives: the data store, the authorizer
    and its [authorize()], the REST client and the two sync engines, up to
    the first that does not return.  When [setup] returns, all six were
    entered and the last thing done was to give the photo sync its date
    range and [includeVideo = not skip_video]. *)
Theorem setup_calls_in_order (env : Env) (args : Args) (db : Path) (w : World) :
  exists l n,
    events (snd (setup env args db w)) = events w ++ l /\
    calls_of l = firstn n setup_calls /\
    (fst (setup env args db w) = Ret tt ->
     calls_of l = setup_calls /\
     ends_with (EvConfigure (start_date args) (end_date args) (negb (skip_video args))) l).
Proof.
  destruct (setup_in_order env args db w) as (l & n & E & Hc & Hret). exists l, n.
  split; [exact E|]. split; [exact Hc|]. intros Hr. exact (Hret tt Hr).
Qed.

Lemma setup_calls_in_order_witness :
  exists l,
    events (snd (setup demo_env demo_args ["data"; "photos"] (boot demo_dirs [] false))) =
      [] ++ l /\
    calls_of l = setup_calls.
Proof.
  destruct (setup_calls_in_order demo_env demo_args ["data"; "photos"]
              (boot demo_dirs [] false)) as (l & n & E & _ & H).
  exists l. split; [exact E|]. apply H. reflexivity.
Defined.

(** ** The signal handler on its own *)

Lemma handler_same_files (env : Env) (sig : Signal) (s : Site) :
  keeps (same_files (fun p => path_eqb p (trace_path env))) (sigterm_handler env sig s).
Proof.
  set (F := fun p => path_eqb p (trace_path env)).
  pose proof (same_files_refl F) as Hr. pose proof (same_files_trans F) as Ht.
  pose proof (same_files_exc F) as Hx.
  assert (Hlog : forall lvl msg, keeps (same_files F) (log lvl msg)).
  { intros lvl msg w p _. reflexivity. }
  unfold sigterm_handler.
  apply (keeps_bind _ Ht).
  { destruct (Signal_eqb sig SIGINT); [apply Hlog | apply (keeps_ret _ Hr)]. }
  intros _. apply (keeps_bind _ Ht); [apply Hlog|].
  intros _. apply (keeps_bind_yields _ Ht _ _ (eq (trace_path env))).
  { apply yields_open_w. }
  { intros w p Hp. unfold open_w. cbv zeta.
    repeat match goal with |- context [if ?c then _ else _] => destruct c end;
      cbn [snd files emit set_files]; try reflexivity.
    now apply lookup_replaced. }
  intros a <-. apply (keeps_bind _ Ht).
  - apply (keeps_with_file _ Hr Ht Hx).
    { intros w p _. reflexivity. }
    apply (keeps_bind _ Ht); [apply (keeps_format_exc_now _ Hr)|].
    intros text w p Hp. unfold write. cbn [snd files emit set_files].
    now apply lookup_replaced.
  - intros _. apply (keeps_sys_exit _ Hr).
Qed.

(** When the trace file can be written, the handler logs "Process
    killed" (after "User cancelled download" for [SIGINT] only), replaces
    the content of [.gphotos-terminated] in the working directory by the
    traceback of the exception being handled, touches no other file and
    no directory, keeps the lock, and leaves through [sys.exit(0)]. *)
Theorem handler_writes_trace_and_exits (env : Env) (sig : Signal) (s : Site) (w : World) :
  held_elsewhere env w = true ->
  writable env w = true ->
  fst (sigterm_handler env sig s w) = Raise SystemExit0 /\
  exit_status (fst (sigterm_handler env sig s w)) = Some 0 /\
  events (snd (sigterm_handler env sig s w)) =
    events w ++
    (if Signal_eqb sig SIGINT then [EvLog WARNING cancelled_msg] else []) ++
    [EvLog WARNING killed_msg; EvOpen (trace_path env);
     EvWrite (trace_path env) (format_exc (exc_info w)); EvClose (trace_path env)] /\
  lookup (trace_path env) (files (snd (sigterm_handler env sig s w))) =
    Some (format_exc (exc_info w)) /\
  (forall p, p <> trace_path env ->
             lookup p (files (snd (sigterm_handler env sig s w))) = lookup p (files w)) /\
  dirs (snd (sigterm_handler env sig s w)) = dirs w /\
  lock_self (snd (sigterm_handler env sig s w)) = lock_self w.
Proof.
  intros Hheld Hw.
  pose proof (handler_same_files env sig s w) as Hsame.
  destruct (sigterm_handler_spec env sig s w Hheld) as (e & fs' & ok & E & Hok & _ & _ & Hwr).
  rewrite E in *. cbn [fst snd events files dirs lock_self patch] in *.
  destruct (Hok (Hwr Hw)) as [-> Hlook]. rewrite (Hwr Hw).
  repeat split; auto.
  intros p Hp. apply Hsame. now apply path_eqb_neq.
Qed.

Definition sigint_world : World :=
  mkWorld demo_dirs [(["home"; "user"; ".gphotos-terminated"], "old trace")]
          false (Some ["data"; "photos"; "gphotos.lock"]) 20 1%nat None [].

Lemma handler_writes_trace_and_exits_witness :
  lookup (trace_path demo_env)
         (files (snd (sigterm_handler demo_env SIGINT (S_phase IndexPhotos) sigint_world))) =
    Some (format_exc None) /\
  exit_status (fst (sigterm_handler demo_env SIGINT (S_phase IndexPhotos) sigint_world)) =
    Some 0.
Proof.
  destruct (handler_writes_trace_and_exits demo_env SIGINT (S_phase IndexPhotos) sigint_world)
    as (_ & Hexit & _ & Hlook & _).
  - vm_compute. reflexivity.
  - vm_compute. reflexivity.
  - split; assumption.
Defined.

(** When the trace file cannot be opened (the working directory is gone,
    or the name is taken by a directory), the handler has logged its
    lines, fails in [open] with an [OSError] and [sys.exit(0)] is not
    reached: no file is changed and the exception is one that an
    [except Exception] or an [except IOError] around the interrupted call
    catches. *)
Theorem handler_fails_without_trace (env : Env) (sig : Signal) (s : Site) (w : World) :
  writable env w = false ->
  exists e,
    fst (sigterm_handler env sig s w) = Raise e /\
    isinstance e OSError = true /\
    isinstance e Exception = true /\
    events (snd (sigterm_handler env sig s w)) =
      events w ++
      (if Signal_eqb sig SIGINT then [EvLog WARNING cancelled_msg] else []) ++
      [EvLog WARNING killed_msg; EvOpen (trace_path env)] /\
    files (snd (sigterm_handler env sig s w)) = files w /\
    dirs (snd (sigterm_handler env sig s w)) = dirs w.
Proof.
  unfold writable. intros Hw.
  unfold sigterm_handler. fold (trace_path env). fold killed_msg. fold cancelled_msg.
  rewrite <- (parent_trace_path env) in Hw.
  generalize dependent (trace_path env). intros tp Hw.
  unfold bind, log, ret, open_w, with_file, with_cm, format_exc_now, write, close,
    sys_exit, raise.
  cbv zeta.
  destruct (Signal_eqb sig SIGINT); cbn [fst snd]; rewrite ?is_dir_emit, ?is_file_emit;
    (destruct (is_dir w tp) eqn:Etp;
     [ exists (os_error IsADirectoryError tp)
     | destruct (is_dir w (parent tp)) eqn:Ecwd; [discriminate Hw|];
       destruct (is_file w (parent tp));
       [ exists (os_error NotADirectoryError tp)
       | exists (os_error FileNotFoundError tp) ] ]);
    cbn [fst snd events files dirs emit]; rewrite <- ?app_assoc; repeat split.
Qed.

Definition no_cwd_world : World :=
  mkWorld [["data"]; ["data"; "photos"]] [] false None 20 1%nat None [].

Lemma handler_fails_without_trace_witness :
  exists e,
    fst (sigterm_handler demo_env SIGTERM S_Authorize no_cwd_world) = Raise e /\
    isinstance e OSError = true.
Proof.
  destruct (handler_fails_without_trace demo_env SIGTERM S_Authorize no_cwd_world)
    as (e & Hr & Hos & _).
  - vm_compute. reflexivity.
  - exists e. split; assumption.
Defined.

(** ** The arguments [main] starts from *)


(** ** Stored credentials and [--new-token] *)

Lemma lookup_unlink_same (p : Path) (fs : list (Path * string)) :
  lookup p (unlink p fs) = None.
Proof.
  induction fs as [|[q s] fs IH]; [reflexivity|].
  cbn [unlink filter fst]. destruct (path_eqb p q) eqn:E; cbn [negb]; [exact IH|].
  cbn [lookup]. now rewrite E.
Qed.

Definition credentials_file (env : Env) : Path := user_data_dir env ++ ["credentials.json"].

Definition is_remove (e : Event) : bool :=
  match e with EvRemove _ => true | _ => false end.

(** [setup] with no signal arriving and a data store that is built.
    Under [--new-token] a credentials file that exists is removed right
    after the data store is built, before the authorizer is, and is gone
    when [setup] ends.  Without [--new-token], or when there is nothing at
    that path, [setup] removes nothing and leaves every file as it was:
    a missing credentials file is no error. *)
Theorem new_token_removes_credentials (env : Env) (args : Args) (db : Path) (w : World) :
  signal_at env = None ->
  behaviour env S_LocalData = None ->
  (new_token args = true -> is_file w (credentials_file env) = true ->
   lookup (credentials_file env) (files (snd (setup env args db w))) = None /\
   exists rest,
     events (snd (setup env args db w)) =
       events w ++ EvCall S_LocalData :: EvRemove (credentials_file env) :: rest) /\
  (new_token args = false \/
   (is_file w (credentials_file env) = false /\ is_dir w (credentials_file env) = false) ->
   files (snd (setup env args db w)) = files w /\
   existsb is_remove (skipn (length (events w)) (events (snd (setup env args db w)))) = false).
Proof.
  intros Hnone Hld. unfold credentials_file.
  destruct (setup env args db w) as [r wf] eqn:E. cbn [snd].
  unfold setup, bind, ret, at_site, path_exists, os_remove, makedirs in E.
  rewrite Hnone in E. cbv zeta in E.
  rewrite (call_unsignalled env S_LocalData w Hnone), Hld in E.
  cbv beta iota in E.
  set (cred := user_data_dir env ++ ["credentials.json"]) in *.
  assert (Hemit : forall e w0 p, is_file (emit e w0) p = is_file w0 p) by reflexivity.
  assert (Hemit' : forall e w0 p, is_dir (emit e w0) p = is_dir w0 p) by reflexivity.
  split.
  - intros Hnt Hfile. rewrite Hnt in E. cbv beta iota in E.
    rewrite !Hemit, !Hemit', Hfile, orb_true_r in E. cbv beta iota in E.
    rewrite ?Hemit, Hfile in E.
    repeat (match type of E with
            | context [call env ?s ?w1] =>
                rewrite (call_unsignalled env s w1 Hnone) in E; destruct (behaviour env s)
            | context [if ?c then _ else _] => destruct c
            end; cbv beta iota in E);
      injection E as <- <-;
      cbn [files events emit set_files set_dirs];
      (split; [apply lookup_unlink_same|]);
      rewrite <- ?app_assoc; cbn [app]; eexists; reflexivity.
  - intros Hcase.
    assert (Hstale : new_token args = false \/
                     is_dir w cred || is_file w cred = false).
    { destruct Hcase as [-> | [-> ->]]; [now left | now right]. }
    destruct (new_token args); cbv beta iota in E;
      [ destruct Hstale as [Hx | Hx]; [discriminate Hx|];
        rewrite !Hemit, !Hemit', Hx in E; cbv beta iota in E | ];
      repeat (match type of E with
              | context [call env ?s ?w1] =>
                  rewrite (call_unsignalled env s w1 Hnone) in E; destruct (behaviour env s)
              | context [if ?c then _ else _] => destruct c
              end; cbv beta iota in E);
      injection E as <- <-;
      cbn [files events emit set_files set_dirs];
      (split; [reflexivity|]);
      rewrite <- ?app_assoc; rewrite skipn_app, skipn_all, Nat.sub_diag;
      reflexivity.
Qed.

Definition new_token_args : Args :=
  mkArgs false "/data/photos" None "info" None None true false false false false
         false false false None.

Lemma new_token_removes_credentials_witness :
  lookup (credentials_file demo_env)
         (files (snd (setup demo_env new_token_args ["data"; "photos"]
                        (boot demo_dirs [(credentials_file demo_env, "token")] false)))) =
  None.
Proof.
  apply (new_token_removes_credentials demo_env new_token_args ["data"; "photos"]
           (boot demo_dirs [(credentials_file demo_env, "token")] false));
    reflexivity.
Defined.

(** ** What the [except Exception] of [main] lets through *)

(** With no signal arriving, a run that ends in an exception that is not
    an [Exception] (a [KeyboardInterrupt] or [SystemExit] out of a
    collaborator, the [sys.exit(0)] of the lock held elsewhere) never
    went through the [except] branch: no "Process failed" line, and the
    trace file is neither opened nor written and keeps its content. *)
Theorem other_exceptions_pass_through (env : Env) (args : Args) (ds : list Path)
        (fs : list (Path * string)) (busy : bool) (e : Raised) :
  signal_at env = None ->
  fst (main env args (boot ds fs busy)) = Raise e ->
  isinstance e Exception = false ->
  existsb is_failed_log (events (snd (main env args (boot ds fs busy)))) = false /\
  existsb (touches (trace_path env)) (events (snd (main env args (boot ds fs busy)))) = false /\
  lookup (trace_path env) (files (snd (main env args (boot ds fs busy)))) =
    lookup (trace_path env) fs.
Proof.
  intros Hnone.
  destruct (main_cases env args ds fs busy)
    as [[_ E] | (z & r & ds' & fs' & evs & _ & E & Hshape)]; rewrite E;
    cbn [fst snd events files final boot].
  { intros Hr. injection Hr as <-. intros Hx. discriminate Hx. }
  intros Hr He.
  destruct Hshape;
    try (match goal with
         | H : signal_at env = Some _ |- _ => rewrite Hnone in H; discriminate H
         end);
    try (injection Hr as <-;
         match goal with
         | H : isinstance _ OSError = true |- _ =>
             apply isinstance_OSError_Exception in H; rewrite H in He; discriminate He
         end).
  - (* the lock is held elsewhere *)
    rewrite !existsb_after_lock, mk_no_touch, (mk_facts env args ds fs) by reflexivity.
    cbn [existsb touches installs is_failed_log orb]. rewrite touches_lock.
    repeat split. apply lookup_fs1.
  - (* the version lookup *)
    rewrite !existsb_after_lock, mk_no_touch, (mk_facts env args ds fs) by reflexivity.
    cbn [existsb touches installs is_failed_log orb]. rewrite touches_lock.
    repeat split. apply lookup_fs1.
  - (* "configure and launch" *)
    subst r.
    assert (Hvl : existsb is_failed_log vl = false /\
                  existsb (touches (trace_path env)) vl = false).
    { match goal with H : version_lines _ _ _ _ _ |- _ =>
        destruct H as [[_ ->] | [(e' & _ & _ & ->) | (sig & Hs & _)]] end;
        [now split | now split | rewrite Hnone in Hs; discriminate Hs]. }
    destruct Hvl as [Hvf Hvt].
    match goal with
    | H : launch_facts _ _ _ _ _ _ |- _ =>
        destruct H as
          [(Hall & Hlook & _ & _)
          | [(e0 & lb & lc & _ & _ & _ & Hc)
            | (sig & s & l1 & info & ok & rest & Hs & _)]]
    end.
    + rewrite !existsb_after_lock, mk_no_touch, (mk_facts env args ds fs) by reflexivity.
      cbn [existsb touches installs is_failed_log orb]. rewrite touches_lock.
      rewrite !existsb_app, Hvf, Hvt.
      rewrite (allowed_no_failed_log _ _ _ Hall), (allowed_no_touch _ _ _ Hall).
      cbn [existsb touches is_failed_log orb]. rewrite ?touches_lock.
      repeat split. rewrite Hlook. apply lookup_fs1.
    + destruct Hc as [(Hx & _) | [(e' & Hx & Hexc & _) | (sig & s & Hs & _)]].
      * discriminate Hx.
      * injection Hx as <-. rewrite Hexc in He. discriminate He.
      * rewrite Hnone in Hs. discriminate Hs.
    + rewrite Hnone in Hs. discriminate Hs.
Qed.

Definition interrupted_env : Env :=
  mkEnv ["home"; "user"] ["home"; "user"; ".local"; "share"; "gphotos-sync"]
        ["home"; "user"; ".config"; "gphotos-sync"]
        (fun s => match s with
                  | S_authorize => Some (mkRaised KeyboardInterrupt EmptyString 0 EmptyString)
                  | _ => None
                  end)
        false "1.0" None "0:00:01".

Lemma other_exceptions_pass_through_witness :
  existsb is_failed_log
          (events (snd (main interrupted_env demo_args (boot demo_dirs [] false)))) = false.
Proof.
  apply (other_exceptions_pass_through interrupted_env demo_args demo_dirs [] false
           (mkRaised KeyboardInterrupt EmptyString 0 EmptyString));
    reflexivity.
Defined.

(** ** The collaborators of a whole run *)

(** The order of the collaborator calls: a prefix of [pre] and the data
    store's [__enter__], or all of them, then the first phases the flags
    let through, then [__exit__]. *)
Definition call_order (args : Args) (pre cs : list Site) : Prop :=
  (exists n, cs = firstn n (pre ++ [S_store_enter])) \/
  (exists m, cs = pre ++ S_store_enter :: map S_phase (firstn m (gated args)) ++
                  [S_store_exit]).

Lemma firstn_prefix {A} (n : nat) (a b : list A) :
  exists n', firstn n a = firstn n' (a ++ b).
Proof.
  exists (Nat.min n (length a)). rewrite firstn_app.
  replace (Nat.min n (length a) - length a)%nat with 0%nat by lia.
  cbn [firstn]. rewrite app_nil_r.
  destruct (Nat.le_ge_cases n (length a)) as [H|H].
  - now rewrite Nat.min_l.
  - rewrite Nat.min_r by exact H. now rewrite !firstn_all2 by lia.
Qed.

Lemma body_calls (env : Env) (args : Args) (db : Path) (w : World) :
  exists l,
    events (snd ((setup env args db ;; start env args) w)) = events w ++ l /\
    call_order args setup_calls (calls_of l).
Proof.
  unfold bind.
  destruct (setup_in_order env args db w) as (l1 & n & E1 & Hc1 & Hret1).
  destruct (setup env args db w) as [[[]|e|] w1]; cbn [fst snd] in *.
  - destruct (Hret1 tt eq_refl) as [Hall _].
    destruct (start_calls env args w1) as (l2 & E2 & Hcase & _).
    exists (l1 ++ l2). rewrite E2, E1, app_assoc, calls_of_app, Hall.
    split; [reflexivity|].
    destruct Hcase as [[_ ->] | [_ (m & ->)]].
    + left. exists (length (setup_calls ++ [S_store_enter])). now rewrite firstn_all.
    + right. now exists m.
  - exists l1. split; [exact E1|]. left. rewrite Hc1. apply firstn_prefix.
  - exists l1. split; [exact E1|]. left. rewrite Hc1. apply firstn_prefix.
Qed.

Lemma capture_quiet (env : Env) (tf : Path) (e : Raised) :
  keeps (appends no_call) (capture env tf e).
Proof.
  pose proof (appends_refl no_call) as Hr. pose proof (appends_trans no_call) as Ht.
  pose proof (appends_exc no_call) as Hx.
  unfold capture.
  apply (keeps_bind _ Ht); [now apply log_appends|].
  intros _. apply (keeps_bind_yields _ Ht _ _ (eq (trace_path env))).
  { apply yields_at_site, yields_open_w. }
  { apply quiet_at_site. now apply open_w_appends. }
  intros a <-. apply (keeps_with_file _ Hr Ht Hx); [now apply close_appends|].
  apply (keeps_bind _ Ht); [apply (keeps_format_exc_now _ Hr)|].
  intros text. apply quiet_at_site. now apply write_appends.
Qed.

Lemma launch_calls (env : Env) (args : Args) (db tf : Path) (w : World) :
  exists l,
    events (snd (launch env args db tf w)) = events w ++ l /\
    call_order args setup_calls (calls_of l).
Proof.
  unfold launch, try_finally, try_except, log.
  destruct (body_calls env args db w) as (l & E & Hl).
  destruct ((setup env args db ;; start env args) w) as [[[]|e|] w1]; cbn [snd] in E.
  - exists (l ++ [EvLog INFO "Done."]). cbn [snd events emit].
    rewrite E, app_assoc, calls_of_app. cbn [calls_of]. rewrite app_nil_r. now split.
  - destruct (isinstance e Exception).
    + destruct (capture_quiet env tf e (set_exc_info (Some e) w1)) as (h & Eh & Hh).
      destruct (capture env tf e (set_exc_info (Some e) w1)) as [[[]|e'|] w2];
        cbn [snd events emit set_exc_info] in *;
        [ exists (l ++ h ++ [EvLog INFO "Done."])
        | exists (l ++ h ++ [EvLog INFO "Done."])
        | exists (l ++ h) ];
        rewrite Eh, E, <- ?app_assoc, !calls_of_app, (no_call_calls h Hh);
        cbn [calls_of app]; rewrite ?app_nil_r; now split.
    + exists (l ++ [EvLog INFO "Done."]). cbn [snd events emit].
      rewrite E, app_assoc, calls_of_app. cbn [calls_of]. rewrite app_nil_r. now split.
  - exists l. now split.
Qed.

Lemma calls_after_lock (env : Env) (args : Args) ds fs (rest : list Event) :
  calls_of (after_lock env args ds fs rest) = calls_of rest.
Proof. unfold after_lock, installs, mk. now destruct (present env args ds fs). Qed.

Lemma calls_handling (env : Env) (sig : Signal) (s : Site) (info : option Raised) (ok : bool) :
  calls_of (handling env sig s info ok) = [].
Proof.
  unfold handling, handler_events. now destruct (Signal_eqb sig SIGINT), ok.
Qed.

(** The collaborators of a whole run, in the order they are entered,
    whatever fails and wherever a signal arrives, are a prefix of the
    version lookup, the six of [setup] and the data store's [__enter__];
    or all of these, then the first phases the flags let through, in
    their order, and last the data store's [__exit__].  So no phase is
    entered before [setup] and [__enter__] were gone through, and no
    collaborator is entered after [__exit__]: the [except] and [finally]
    branches call none. *)
Theorem main_calls_in_order (env : Env) (args : Args) (ds : list Path)
        (fs : list (Path * string)) (busy : bool) :
  call_order args (S_get_distribution :: setup_calls)
             (calls_of (events (snd (main env args (boot ds fs busy))))).
Proof.
  destruct (main_cases env args ds fs busy)
    as [[_ E] | (z & r & ds' & fs' & evs & _ & E & Hshape)]; rewrite E;
    cbn [fst snd events final boot].
  { left. now exists 0%nat. }
  destruct Hshape;
    rewrite ?calls_after_lock;
    try (left; exists 0%nat;
         unfold installs, mk; destruct (present env args ds fs);
         cbn [app calls_of]; rewrite ?calls_of_app, ?calls_handling;
         cbn [app calls_of]; rewrite ?calls_of_app, ?calls_handling;
         destruct ok; reflexivity);
    try (left; exists 0%nat;
         unfold installs, mk; destruct (present env args ds fs);
         cbn [app calls_of]; rewrite ?calls_of_app, ?calls_handling; reflexivity);
    try (left; exists 1%nat; cbn [calls_of]; rewrite ?calls_of_app, ?calls_handling;
         reflexivity).
  match goal with
  | H : launch _ _ _ _ _ = _ |- _ => rename H into Hl
  end.
  destruct (launch_calls env args (db_of env args) (trace_file_of env args)
              (at_launch env args ds fs busy z vl)) as (l' & El & Hc).
  rewrite Hl in El. cbn [snd events patch] in El. apply app_inv_head in El. subst l'.
  rewrite calls_of_app in Hc. cbn [calls_of] in Hc. rewrite app_nil_r in Hc.
  assert (Hvl : calls_of vl = []).
  { match goal with H : version_lines _ _ _ _ _ |- _ =>
      destruct H as [[_ ->] | [(e' & _ & _ & ->) | (sig & _ & _ & ->)]] end;
      try reflexivity.
    rewrite calls_of_app, calls_handling. reflexivity. }
  cbn [calls_of]. rewrite !calls_of_app, Hvl. cbn [app].
  assert (Htail : calls_of (EvLog INFO "Done." :: EvClose (lock_file_of env args) ::
                            match r with
                            | Ret _ => [EvLog INFO (elapsed_msg env)]
                            | _ => []
                            end) = []) by now destruct r.
  rewrite Htail, app_nil_r.
  destruct Hc as [(n & ->) | (m & ->)].
  - left. now exists (S n).
  - right. now exists m.
Qed.

(** ** The failure that leaves the [try] body *)

Lemma in_calls_of (s : Site) (l : list Event) : In (EvCall s) l -> In s (calls_of l).
Proof.
  induction l as [|x l IH]; [intros []|].
  intros [-> | H]; [now left|]. destruct x; cbn [calls_of]; auto. right. auto.
Qed.

Section Surfaces.

Variable env : Env.
Hypothesis no_signal : signal_at env = None.

(** With no signal: a collaborator that [m] entered and that raised is
    the one whose exception [m] ends with. *)
Definition surfaces {A} (m : M A) : Prop :=
  forall w,
    exists l,
      events (snd (m w)) = events w ++ l /\
      forall s e, In s (calls_of l) -> behaviour env s = Some e -> fst (m w) = Raise e.

Lemma surfaces_quiet {A} (m : M A) : keeps (appends no_call) m -> surfaces m.
Proof.
  intros Hm w. destruct (Hm w) as (l & E & Hl). exists l. split; [exact E|].
  rewrite (no_call_calls l Hl). intros s e [].
Qed.

Lemma surfaces_call (s : Site) : surfaces (call env s).
Proof.
  intros w. rewrite (call_unsignalled env s w no_signal). exists [EvCall s].
  split; [reflexivity|]. intros s' e [<- | []] Hb. now rewrite Hb.
Qed.

Lemma surfaces_bind {A B} (m : M A) (k : A -> M B) :
  surfaces m -> (forall a, surfaces (k a)) -> surfaces (bind m k).
Proof.
  intros Hm Hk w. unfold bind. destruct (Hm w) as (l1 & E1 & H1).
  destruct (m w) as [[a|e1|] w1]; cbn [fst snd] in *.
  - destruct (Hk a w1) as (l2 & E2 & H2). exists (l1 ++ l2).
    rewrite E2, E1, app_assoc. split; [reflexivity|].
    intros s e Hin Hb. rewrite calls_of_app in Hin. apply in_app_or in Hin.
    destruct Hin as [Hin | Hin]; [discriminate (H1 s e Hin Hb) | exact (H2 s e Hin Hb)].
  - exists l1. split; [exact E1|]. intros s e Hin Hb.
    specialize (H1 s e Hin Hb). now injection H1 as ->.
  - exists l1. split; [exact E1|]. intros s e Hin Hb. discriminate (H1 s e Hin Hb).
Qed.

Lemma surfaces_with_store (body : M unit) :
  plain_exit env -> surfaces body ->
  surfaces (with_cm (fun _ => call env S_store_exit ;; ret (store_exit_value env)) body).
Proof.
  intros [Hexit Hval] Hb w. unfold with_cm, bind, ret.
  destruct (Hb w) as (l1 & E1 & H1).
  assert (Hin : forall s e, In s (calls_of (l1 ++ [EvCall S_store_exit])) ->
                            behaviour env s = Some e -> In s (calls_of l1)).
  { intros s e Hs Hbs. rewrite calls_of_app in Hs. apply in_app_or in Hs.
    destruct Hs as [Hs | [<- | []]]; [exact Hs|]. rewrite Hexit in Hbs. discriminate Hbs. }
  destruct (body w) as [[[]|e1|] w1]; cbn [fst snd] in *.
  - rewrite (call_unsignalled env S_store_exit w1 no_signal), Hexit.
    exists (l1 ++ [EvCall S_store_exit]). cbn [fst snd events emit].
    rewrite E1, app_assoc. split; [reflexivity|].
    intros s e Hs Hbs. discriminate (H1 s e (Hin s e Hs Hbs) Hbs).
  - rewrite (call_unsignalled env S_store_exit _ no_signal), Hexit, Hval.
    exists (l1 ++ [EvCall S_store_exit]). cbn [fst snd events emit set_exc_info].
    rewrite E1, app_assoc. split; [reflexivity|].
    intros s e Hs Hbs. exact (H1 s e (Hin s e Hs Hbs) Hbs).
  - exists l1. split; [exact E1|]. intros s e Hs Hbs. discriminate (H1 s e Hs Hbs).
Qed.

Lemma surfaces_run_calls (ss : list Site) : surfaces (run_calls env ss).
Proof.
  induction ss as [|s ss IH]; cbn [run_calls].
  - apply surfaces_quiet, (keeps_ret _ (appends_refl no_call)).
  - apply surfaces_bind; [apply surfaces_call | intros _; exact IH].
Qed.

Lemma surfaces_setup (args : Args) (db : Path) : surfaces (setup env args db).
Proof.
  pose proof (appends_refl no_call) as Hr.
  unfold setup.
  apply surfaces_bind; [apply surfaces_call | intros _].
  apply surfaces_bind; [|intros stale].
  { apply surfaces_quiet. destruct (new_token args); [|apply (keeps_ret _ Hr)].
    apply quiet_at_site, (keeps_path_exists _ Hr). }
  apply surfaces_bind; [|intros _].
  { apply surfaces_quiet. destruct stale; [|apply (keeps_ret _ Hr)].
    apply quiet_at_site. now apply os_remove_appends. }
  apply surfaces_bind; [|intros present].
  { apply surfaces_quiet, quiet_at_site, (keeps_path_exists _ Hr). }
  apply surfaces_bind; [|intros _].
  { apply surfaces_quiet. destruct (negb present); [|apply (keeps_ret _ Hr)].
    apply quiet_at_site. now apply makedirs_appends. }
  do 5 (apply surfaces_bind; [apply surfaces_call | intros _]).
  apply surfaces_quiet. intros w.
  now apply appends_one
    with (e := EvConfigure (start_date args) (end_date args) (negb (skip_video args))).
Qed.

Lemma surfaces_start (args : Args) : plain_exit env -> surfaces (start env args).
Proof.
  intros Hplain. unfold start.
  apply surfaces_bind; [apply surfaces_call | intros _].
  apply surfaces_with_store; [exact Hplain|].
  intros w. rewrite pipeline_run_calls. apply surfaces_run_calls.
Qed.

Lemma surfaces_try_body (args : Args) (db : Path) :
  plain_exit env -> surfaces (setup env args db ;; start env args).
Proof.
  intros Hplain. apply surfaces_bind; [apply surfaces_setup | intros _].
  now apply surfaces_start.
Qed.

End Surfaces.

(** The [try] statement, with no signal and a trace file that can be
    written: when a collaborator that was entered raised an [Exception],
    the statement logs that exception, writes its traceback and
    returns. *)
Lemma launch_captures (env : Env) (args : Args) (db tf : Path) (w : World)
      (r : Res unit) (w' : World) (l : list Event) (s : Site) (e : Raised) :
  held_elsewhere env w = true ->
  signal_at env = None ->
  plain_exit env ->
  writable env w = true ->
  off_trace env (user_data_dir env) = true ->
  launch env args db tf w = (r, w') ->
  events w' = events w ++ l ++ [EvLog INFO "Done."] ->
  In s (calls_of l) ->
  behaviour env s = Some e ->
  isinstance e Exception = true ->
  r = Ret tt /\
  (exists lb,
     l = lb ++ [EvLog WARNING (failed_msg tf e); EvOpen (trace_path env);
                EvWrite (trace_path env) (format_exc (Some e)); EvClose (trace_path env)]) /\
  lookup (trace_path env) (files w') = Some (format_exc (Some e)).
Proof.
  intros Hheld Hnone Hplain Hw Hoff El Ev Hin Hb Hexc.
  destruct (launch_body_runs env args db w Hheld) as (rb & extra & fs1 & lb & E & Hex & _).
  destruct (surfaces_try_body env Hnone args db Hplain w) as (lb' & Eb & Hsurf).
  rewrite E in Eb, Hsurf. cbn [fst snd events patch] in Eb, Hsurf.
  apply app_inv_head in Eb. subst lb'.
  assert (Hw1 : writable env (patch w (dirs w ++ extra) fs1 lb) = true)
    by (apply writable_patch with (q := user_data_dir env); assumption).
  unfold launch, try_finally, try_except, log in El. rewrite E in El.
  set (w1 := patch w (dirs w ++ extra) fs1 lb) in *.
  destruct rb as [[]|e0|].
  - injection El as <- <-. cbn [events emit patch w1] in Ev.
    rewrite <- app_assoc in Ev. apply app_inv_head in Ev. apply app_inv_tail in Ev. subst l.
    discriminate (Hsurf s e Hin Hb).
  - destruct (isinstance e0 Exception) eqn:Ee0.
    + destruct (capture_writable env tf e0 (set_exc_info (Some e0) w1) Hheld Hnone Hw1)
        as (fs2 & Ec & Hlook).
      rewrite Ec in El. injection El as <- <-.
      cbn [events emit patch set_exc_info w1 files] in Ev |- *.
      rewrite <- !app_assoc in Ev. apply app_inv_head in Ev.
      change (lb ++ [EvLog WARNING (failed_msg tf e0); EvOpen (trace_path env);
                     EvWrite (trace_path env) (format_exc (Some e0));
                     EvClose (trace_path env)] ++ [EvLog INFO "Done."] =
              l ++ [EvLog INFO "Done."]) in Ev.
      rewrite app_assoc in Ev. apply app_inv_tail in Ev. subst l.
      rewrite calls_of_app in Hin. cbn [calls_of] in Hin. rewrite app_nil_r in Hin.
      specialize (Hsurf s e Hin Hb). injection Hsurf as ->.
      split; [reflexivity|]. split; [now exists lb | exact Hlook].
    + injection El as <- <-. cbn [events emit patch w1] in Ev.
      rewrite <- app_assoc in Ev. apply app_inv_head in Ev. apply app_inv_tail in Ev. subst l.
      specialize (Hsurf s e Hin Hb). injection Hsurf as ->.
      rewrite Hexc in Ee0. discriminate Ee0.
  - injection El as <- <-. cbn [events patch w1] in Ev.
    apply app_inv_head in Ev. rewrite Ev in Hsurf.
    assert (Hin' : In s (calls_of (l ++ [EvLog INFO "Done."])))
      by (rewrite calls_of_app; apply in_or_app; now left).
    discriminate (Hsurf s e Hin' Hb).
Qed.

(** ** Failures after the lock is taken: exit code 0 *)

Lemma exit_zero_after_lock (env : Env) (args : Args) (ds : list Path)
        (fs : list (Path * string)) (busy : bool) :
  signal_at env = None ->
  only_exceptions env ->
  writable_in env ds = true ->
  off_trace env (root_of env args) = true ->
  off_trace env (user_data_dir env) = true ->
  existsb is_lockf (events (snd (main env args (boot ds fs busy)))) = true ->
  exit_status (fst (main env args (boot ds fs busy))) = Some 0 /\
  (fst (main env args (boot ds fs busy)) = Ret tt \/
   fst (main env args (boot ds fs busy)) = Raise SystemExit0) /\
  (existsb is_failed_log (events (snd (main env args (boot ds fs busy)))) = true ->
   exists e,
     isinstance e Exception = true /\
     fst (main env args (boot ds fs busy)) = Ret tt /\
     In (EvLog WARNING (failed_msg (trace_file_of env args) e))
        (events (snd (main env args (boot ds fs busy)))) /\
     In (EvWrite (trace_path env) (format_exc (Some e)))
        (events (snd (main env args (boot ds fs busy)))) /\
     lookup (trace_path env) (files (snd (main env args (boot ds fs busy)))) =
       Some (format_exc (Some e))).
Proof.
  intros Hnone Hexc Hw Hroot Hudd.
  assert (Hw1 : writable_in env (ds1 env args ds fs) = true) by now apply writable_ds1.
  destruct (main_cases env args ds fs busy)
    as [[_ E] | (z & r & ds' & fs' & evs & _ & E & Hshape)]; rewrite E;
    cbn [fst snd events files final boot].
  { intros H. discriminate H. }
  intros Hlock.
  destruct Hshape;
    try (exfalso; open_events; discriminate Hlock);
    try (match goal with
         | H : signal_at env = Some _ |- _ => rewrite Hnone in H; discriminate H
         end).
  - (* the lock is held elsewhere *)
    repeat split; auto.
    intros Hf. exfalso. rewrite existsb_after_lock in Hf.
    rewrite (mk_facts env args ds fs) in Hf by reflexivity. discriminate Hf.
  - (* the version lookup raised something that is no [Exception] *)
    match goal with
    | Hb : behaviour env _ = Some e, Hn : isinstance e Exception = false |- _ =>
        rewrite (Hexc _ _ Hb) in Hn; discriminate Hn
    end.
  - (* "configure and launch" *)
    match goal with
    | H : version_lines _ _ _ _ _ |- _ =>
        destruct (version_lines_facts _ _ _ _ _ H Hw1) as (_ & Hvf & _ & _)
    end.
    match goal with
    | H : launch_facts _ _ _ _ _ _ |- _ =>
        destruct H as
          [(Hall & _ & _ & Hret)
          | [(e & lb & lc & -> & Hlb & He & Hc)
            | (sig & s & l1 & info & ok & rest & Hs & _)]]
    end.
    + rewrite (Hret Hexc). repeat split; auto.
      intros Hf. exfalso.
      assert (Hl : existsb is_failed_log l = false)
        by now apply allowed_no_failed_log with (env := env) (sites := launch_sites).
      pose proof (no_failed_log_run env args ds fs vl l (Ret tt) Hvf Hl) as Hn.
      cbv iota in Hn. rewrite Hn in Hf. discriminate Hf.
    + destruct Hc as [(-> & -> & Hlook) | [(e' & _ & _ & _ & _ & Hnw) | (sig & s & Hs & _)]].
      * repeat split; auto. intros _. exists e. repeat split; auto.
        -- apply in_after_lock. right. apply in_or_app. right. apply in_or_app. left.
           apply in_or_app. right. left. reflexivity.
        -- apply in_after_lock. right. apply in_or_app. right. apply in_or_app. left.
           apply in_or_app. right. right. right. left. reflexivity.
      * exfalso. now apply Hnw.
      * rewrite Hnone in Hs. discriminate Hs.
    + rewrite Hnone in Hs. discriminate Hs.
Qed.


(** A collaborator of [setup] or [start] that was entered and raised an
    [Exception], in a run with no signal and a writable trace file: [main]
    returns, the [except] branch has logged that exception and the trace
    file holds its traceback. *)
Lemma raised_is_captured (env : Env) (args : Args) (ds : list Path)
      (fs : list (Path * string)) (busy : bool) (s : Site) (e : Raised) :
  signal_at env = None ->
  writable_in env ds = true ->
  off_trace env (root_of env args) = true ->
  off_trace env (user_data_dir env) = true ->
  plain_exit env ->
  launch_sites s = true ->
  In (EvCall s) (events (snd (main env args (boot ds fs busy)))) ->
  behaviour env s = Some e ->
  isinstance e Exception = true ->
  fst (main env args (boot ds fs busy)) = Ret tt /\
  In (EvLog WARNING (failed_msg (trace_file_of env args) e))
     (events (snd (main env args (boot ds fs busy)))) /\
  In (EvWrite (trace_path env) (format_exc (Some e)))
     (events (snd (main env args (boot ds fs busy)))) /\
  lookup (trace_path env) (files (snd (main env args (boot ds fs busy)))) =
    Some (format_exc (Some e)).
Proof.
  intros Hnone Hw Hroot Hudd Hplain Hs.
  assert (Hw1 : writable_in env (ds1 env args ds fs) = true) by now apply writable_ds1.
  destruct (main_cases env args ds fs busy)
    as [[_ E] | (z & r & ds' & fs' & evs & _ & E & Hshape)]; rewrite E;
    cbn [fst snd events files final boot].
  { intros []. }
  intros Hin Hb Hexc. apply in_calls_of in Hin.
  destruct Hshape;
    try (match goal with
         | H : signal_at env = Some _ |- _ => rewrite Hnone in H; discriminate H
         end);
    rewrite ?calls_after_lock in Hin;
    try (exfalso; unfold installs, mk in Hin; destruct (present env args ds fs);
         cbn [app calls_of] in Hin; destruct Hin as [<- | []]; discriminate Hs);
    try (exfalso; unfold installs, mk in Hin; destruct (present env args ds fs);
         now cbn [app calls_of] in Hin).
  assert (Hvl : calls_of vl = []).
  { match goal with H : version_lines _ _ _ _ _ |- _ =>
      destruct H as [[_ ->] | [(e' & _ & _ & ->) | (sig & Hsig & _)]] end;
      [reflexivity | reflexivity | rewrite Hnone in Hsig; discriminate Hsig]. }
  cbn [calls_of] in Hin. rewrite !calls_of_app, Hvl in Hin. cbn [app] in Hin.
  assert (Htail : calls_of (EvLog INFO "Done." :: EvClose (lock_file_of env args) ::
                            match r with
                            | Ret _ => [EvLog INFO (elapsed_msg env)]
                            | _ => []
                            end) = []) by now destruct r.
  rewrite Htail, app_nil_r in Hin.
  destruct Hin as [<- | Hin]; [discriminate Hs|].
  match goal with
  | H : launch _ _ _ _ _ = _ |- _ =>
      destruct (launch_captures env args (db_of env args) (trace_file_of env args)
                  (at_launch env args ds fs busy z vl) r _ l s e
                  (held_at_launch env args ds fs busy z vl) Hnone Hplain Hw1 Hudd
                  H eq_refl Hin Hb Hexc) as (-> & (lb & ->) & Hlook)
  end.
  split; [reflexivity|]. split; [|split; [|exact Hlook]].
  - apply in_after_lock. right. apply in_or_app. right. apply in_or_app. left.
    apply in_or_app. right. left. reflexivity.
  - apply in_after_lock. right. apply in_or_app. right. apply in_or_app. left.
    apply in_or_app. right. right. right. left. reflexivity.
Qed.

(** C2, as the code has it: once the lock has been asked for, with no
    signal arriving and a trace file that can be written, every failure of
    class [Exception] ends in exit code 0: [main] returns, or leaves
    through [sys.exit(0)] when the lock is held elsewhere.  A collaborator
    of [setup] or of the pipeline that was entered and raised is captured
    by the [except] branch of [main], which logs the type name of its
    exception and writes its traceback to the trace file, the data store's
    [__exit__] neither raising nor answering true; and whenever the
    [except] branch was entered, what it logged and wrote is the exception
    it caught. *)
Theorem failures_after_lock_exit_zero (env : Env) (args : Args) (ds : list Path)
        (fs : list (Path * string)) (busy : bool) :
  signal_at env = None ->
  only_exceptions env ->
  writable_in env ds = true ->
  off_trace env (root_of env args) = true ->
  off_trace env (user_data_dir env) = true ->
  existsb is_lockf (events (snd (main env args (boot ds fs busy)))) = true ->
  exit_status (fst (main env args (boot ds fs busy))) = Some 0 /\
  (fst (main env args (boot ds fs busy)) = Ret tt \/
   fst (main env args (boot ds fs busy)) = Raise SystemExit0) /\
  (plain_exit env ->
   forall s e,
     launch_sites s = true ->
     In (EvCall s) (events (snd (main env args (boot ds fs busy)))) ->
     behaviour env s = Some e ->
     fst (main env args (boot ds fs busy)) = Ret tt /\
     In (EvLog WARNING (nl ++ "Process failed with " ++ type_name (exc_type e) ++
                        " (stacktrace in " ++ path_text (trace_file_of env args) ++
                        ").")%string)
        (events (snd (main env args (boot ds fs busy)))) /\
     In (EvWrite (trace_path env) (format_exc (Some e)))
        (events (snd (main env args (boot ds fs busy)))) /\
     lookup (trace_path env) (files (snd (main env args (boot ds fs busy)))) =
       Some (format_exc (Some e))) /\
  (existsb is_failed_log (events (snd (main env args (boot ds fs busy)))) = true ->
   exists e,
     isinstance e Exception = true /\
     fst (main env args (boot ds fs busy)) = Ret tt /\
     In (EvLog WARNING (failed_msg (trace_file_of env args) e))
        (events (snd (main env args (boot ds fs busy)))) /\
     In (EvWrite (trace_path env) (format_exc (Some e)))
        (events (snd (main env args (boot ds fs busy)))) /\
     lookup (trace_path env) (files (snd (main env args (boot ds fs busy)))) =
       Some (format_exc (Some e))).
Proof.
  intros Hnone Hexc Hw Hroot Hudd Hlock.
  destruct (exit_zero_after_lock env args ds fs busy Hnone Hexc Hw Hroot Hudd Hlock)
    as (Hexit & Hres & Hfailed).
  split; [exact Hexit|]. split; [exact Hres|]. split; [|exact Hfailed].
  intros Hplain s e Hs Hin Hb.
  exact (raised_is_captured env args ds fs busy s e Hnone Hw Hroot Hudd Hplain Hs Hin Hb
           (Hexc s e Hb)).
Qed.

Lemma failures_after_lock_exit_zero_witness :
  exit_status (fst (main albums_fail_env demo_args (boot demo_dirs [] false))) = Some 0 /\
  fst (main albums_fail_env demo_args (boot demo_dirs [] false)) = Ret tt /\
  In (EvLog WARNING (nl ++ "Process failed with HttpError (stacktrace in " ++
                     "/data/photos/.gphotos-terminated" ++ ").")%string)
     (events (snd (main albums_fail_env demo_args (boot demo_dirs [] false)))) /\
  lookup (trace_path albums_fail_env)
         (files (snd (main albums_fail_env demo_args (boot demo_dirs [] false)))) =
    Some (format_exc (Some http_error)).
Proof.
  destruct (failures_after_lock_exit_zero albums_fail_env demo_args demo_dirs [] false)
    as (Hexit & _ & Hcap & _).
  - reflexivity.
  - intros s e H. destruct s as [| | | | | | | | | | | | | | | |p| | |]; try discriminate H.
    destruct p; try discriminate H. inversion H. reflexivity.
  - vm_compute. reflexivity.
  - vm_compute. reflexivity.
  - vm_compute. reflexivity.
  - vm_compute. reflexivity.
  - destruct (Hcap (conj eq_refl eq_refl) (S_phase IndexAlbums) http_error)
      as (Hret & Hlog & _ & Hlook).
    + reflexivity.
    + vm_compute. tauto.
    + reflexivity.
    + repeat split; assumption.
Defined.

(** ** Where the claims on the [except] branch stop *)



(** [IndexAlbums] fails and [SIGTERM] arrives while the [except] branch
    opens the trace file. *)
Definition signal_in_except_env : Env :=
  mkEnv ["home"; "user"] ["home"; "user"; ".local"; "share"; "gphotos-sync"]
        ["home"; "user"; ".config"; "gphotos-sync"]
        (fun s => match s with S_phase IndexAlbums => Some http_error | _ => None end)
        false "1.0" (Some (S_open_trace, SIGTERM)) "0:00:01".

(** The claim C9 as written fails: the run ends with the [SystemExit(0)]
    of the signal handler, and "Process failed" is in the log. *)
Lemma signal_after_failed_log_counterexample :
  fst (main signal_in_except_env demo_args (boot demo_dirs [] false)) = Raise SystemExit0 /\
  existsb is_signal
          (events (snd (main signal_in_except_env demo_args (boot demo_dirs [] false)))) = true /\
  existsb is_failed_log
          (events (snd (main signal_in_except_env demo_args (boot demo_dirs [] false)))) = true.
Proof. vm_compute. repeat split. Qed.
